(** * Calorie-Tracker: the food ledger, its import/export and the add-food
    and suggestion workflows of [src/App.tsx], embedded in Rocq.

    The component [App] keeps eight pieces of React state and talks to the
    outside through JSON text (the exported file, the provider's replies).
    The embedding follows the code at that level:

    - a JavaScript string is the list of its UTF-16 code units;
    - a JavaScript number is an IEEE-754 binary64 value ([spec_float] of the
      Standard Library, with its addition [SFadd]);
    - [JSON.stringify], [JSON.parse], [Number.prototype.toFixed], unary [+],
      [String.prototype.trim] and the regular expression of the two fetchers
      are written out as functions on code units, after ECMA-262;
    - the asynchronous parts (the debounce timer, the two fetches) are events
      of a step function on the application state;
    - the bodies of the two requests and what the component renders of the
      suggestions and of the chart legend are functions of that state.

    Part I holds the definitions, Part II the properties of the ledger, of
    import and export and of the two workflows, Part III those of the rest
    of the component. *)

From Stdlib Require Import ZArith NArith List Bool Lia String Ascii.
From Stdlib Require Import Floats.SpecFloat.
Import ListNotations.

Local Open Scope Z_scope.

(* ================================================================== *)
(** * Part I: definitions *)
(* ================================================================== *)

(** ** Strings *)

(** A string is its sequence of UTF-16 code units. *)
Abbreviation jsstring := (list N) (only parsing).

(** A literal of the source, written as a Rocq string (ASCII only). *)
Definition js (s : string) : jsstring :=
  List.map N_of_ascii (list_ascii_of_string s).

Fixpoint str_eqb (a b : jsstring) : bool :=
  match a, b with
  | [], [] => true
  | x :: a', y :: b' => N.eqb x y && str_eqb a' b'
  | _, _ => false
  end.

(** [WhiteSpace] and [LineTerminator] of ECMA-262: what [trim] strips and
    what [\s] matches. *)
Definition is_js_space (c : N) : bool :=
  ((9 <=? c) && (c <=? 13))%N
  || N.eqb c 32 || N.eqb c 160 || N.eqb c 5760
  || ((8192 <=? c) && (c <=? 8202))%N
  || N.eqb c 8232 || N.eqb c 8233 || N.eqb c 8239 || N.eqb c 8287
  || N.eqb c 12288 || N.eqb c 65279.

Fixpoint trim_start (s : jsstring) : jsstring :=
  match s with
  | c :: r => if is_js_space c then trim_start r else s
  | [] => []
  end.

(** [String.prototype.trim]. *)
Definition trim (s : jsstring) : jsstring :=
  rev (trim_start (rev (trim_start s))).

(** [s.startsWith(p)], returning what follows the prefix. *)
Fixpoint strip_prefix (p s : jsstring) : option jsstring :=
  match p, s with
  | [], _ => Some s
  | x :: p', y :: s' => if N.eqb x y then strip_prefix p' s' else None
  | _ :: _, [] => None
  end.

(** ** Numbers: IEEE-754 binary64 *)

Definition number := spec_float.

Definition prec : Z := 53.
Definition emax : Z := 1024.

(** The values that are binary64 numbers: a finite one has its canonical
    mantissa and exponent. *)
Definition wf_number (x : number) : Prop := valid_binary prec emax x = true.

Definition num_zero : number := S754_zero false.

(** The [+] of two numbers. *)
Definition num_add : number -> number -> number := SFadd prec emax.

(** Sameness of two numbers ([Object.is]): [NaN] is itself, and the two
    zeros differ. *)
Definition num_same (x y : number) : bool :=
  match x, y with
  | S754_zero a, S754_zero b => Bool.eqb a b
  | S754_infinity a, S754_infinity b => Bool.eqb a b
  | S754_nan, S754_nan => true
  | S754_finite a m e, S754_finite b m' e' =>
      Bool.eqb a b && Pos.eqb m m' && Z.eqb e e'
  | _, _ => false
  end.

Definition is_finite (x : number) : bool :=
  match x with
  | S754_zero _ | S754_finite _ _ _ => true
  | _ => false
  end.

(** [floor (log2 (p / q))] for positive [p] and [q]. *)
Definition floor_log2_ratio (p q : Z) : Z :=
  let d := Z.log2 p - Z.log2 q in
  if p * 2 ^ Z.max 0 (- d) <? q * 2 ^ Z.max 0 d then d - 1 else d.

(** [num / den] rounded to the nearest integer, ties to even. *)
Definition round_half_even (num den : Z) : Z :=
  let m := num / den in
  match 2 * (num mod den) ?= den with
  | Lt => m
  | Gt => m + 1
  | Eq => if Z.even m then m else m + 1
  end.

(** The binary64 value nearest to the rational [p / q] ([p >= 0], [q > 0]),
    ties to even, with sign [s]: the rounding that ECMA-262 writes 𝔽(v).
    It overflows to an infinity and underflows to a zero. *)
Definition nearest_double (s : bool) (p q : Z) : number :=
  if p <=? 0 then S754_zero s
  else
    let e := Z.max (floor_log2_ratio p q - 52) (-1074) in
    let m := round_half_even (p * 2 ^ Z.max 0 (- e)) (q * 2 ^ Z.max 0 e) in
    let '(m, e) := if m =? 2 ^ 53 then (2 ^ 52, e + 1) else (m, e) in
    match m with
    | Zpos mp => if e <=? 971 then S754_finite s mp e else S754_infinity s
    | _ => S754_zero s
    end.

(** The binary64 value of the decimal [d * 10 ^ e] ([d >= 0]). *)
Definition decimal_to_double (s : bool) (d e : Z) : number :=
  nearest_double s (d * 10 ^ Z.max 0 e) (10 ^ Z.max 0 (- e)).

(** *** Decimal digits *)

Fixpoint digits_aux (fuel : nat) (n : N) (acc : list N) : list N :=
  match fuel with
  | O => acc
  | S f =>
      if (n <? 10)%N then n :: acc
      else digits_aux f (n / 10)%N ((n mod 10)%N :: acc)
  end.

(** The decimal digits of [n], most significant first ([[0]] for zero). *)
Definition digits_of (n : N) : list N :=
  digits_aux (S (N.to_nat (N.log2 n))) n [].

Definition digits_value (ds : list N) : N :=
  fold_left (fun a d => (10 * a + d)%N) ds 0%N.

Definition digit_char (d : N) : N := (48 + d)%N.
Definition is_digit (c : N) : bool := ((48 <=? c) && (c <=? 57))%N.

Definition digit_chars (ds : list N) : jsstring := List.map digit_char ds.

(** The decimal numeral of a natural number. *)
Definition decimal_string (n : N) : jsstring := digit_chars (digits_of n).

Definition zeros (n : nat) : list N := repeat 0%N n.

Fixpoint strip_zeros (ds : list N) : list N :=
  match ds with
  | 0%N :: r => strip_zeros r
  | _ => ds
  end.

(** [ds] without its trailing zeros. *)
Definition strip_trailing_zeros (ds : list N) : list N :=
  rev (strip_zeros (rev ds)).

(** *** [Number::toString] *)

(** [p / q < 10 ^ n]. *)
Definition below_pow10 (p q n : Z) : bool :=
  p * 10 ^ Z.max 0 (- n) <? q * 10 ^ Z.max 0 n.

(** The least [n], counting up from [n0], with [p / q < 10 ^ n]. *)
Fixpoint decimal_exponent (fuel : nat) (p q n0 : Z) : Z :=
  match fuel with
  | O => n0
  | S f => if below_pow10 p q n0 then n0 else decimal_exponent f p q (n0 + 1)
  end.

(** [floor ((p / q) / 10 ^ t)]. *)
Definition scaled_floor (p q t : Z) : Z :=
  (p * 10 ^ Z.max 0 (- t)) / (q * 10 ^ Z.max 0 t).

(** The decimal [s * 10 ^ t] reads back as [x]. *)
Definition reads_back (x : number) (s t : Z) : bool :=
  num_same (decimal_to_double false s t) x.

(** The decimals with [k] digits next to [p / q], the nearer one first (the
    even one on a tie); the first of them that reads back as [x]. *)
Definition try_digits (x : number) (p q n0 k : Z) : option (Z * Z) :=
  let t := n0 - k in
  let lo := scaled_floor p q t in
  let hi := lo + 1 in
  let hi_first :=
    match 2 * p * 10 ^ Z.max 0 (- t) ?= (2 * lo + 1) * (q * 10 ^ Z.max 0 t) with
    | Lt => false
    | Gt => true
    | Eq => Z.odd lo
    end in
  let '(c1, c2) := if hi_first then (hi, lo) else (lo, hi) in
  if reads_back x c1 t then Some (c1, t)
  else if reads_back x c2 t then Some (c2, t)
  else None.

(** The shortest decimal that reads back as [x]: [k] digits are tried for
    [k = k0, k0 + 1, ...]; [exact] is the full decimal expansion, kept for
    when the fuel runs out (for binary64 seventeen digits always do). *)
Fixpoint shortest_from (fuel : nat) (x : number) (p q n0 k : Z)
    (exact : Z * Z) : Z * Z :=
  match fuel with
  | O => exact
  | S f =>
      match try_digits x p q n0 k with
      | Some c => c
      | None => shortest_from f x p q n0 (k + 1) exact
      end
  end.

(** The full decimal expansion of [m * 2 ^ e]. *)
Definition exact_decimal (m : positive) (e : Z) : Z * Z :=
  if 0 <=? e then (Zpos m * 2 ^ e, 0) else (Zpos m * 5 ^ (- e), e).

(** The digits [s] and the exponent [n] of [Number::toString] for the
    positive finite number [m * 2 ^ e]: its value is [0.s * 10 ^ n]. *)
Definition shortest_digits (m : positive) (e : Z) : list N * Z :=
  let p := Zpos m * 2 ^ Z.max 0 e in
  let q := 2 ^ Z.max 0 (- e) in
  let n0 := decimal_exponent 700 p q (-330) in
  let '(s, t) :=
    shortest_from 17 (S754_finite false m e) p q n0 1 (exact_decimal m e) in
  let ds := digits_of (Z.to_N s) in
  (strip_trailing_zeros ds, Z.of_nat (List.length ds) + t).

Definition ch_minus : N := 45%N.
Definition ch_plus : N := 43%N.
Definition ch_dot : N := 46%N.
Definition ch_e : N := 101%N.

(** The layout of the digits [ds] (there are [k] of them) with decimal
    exponent [n], as [Number::toString] sets it. *)
Definition format_digits (ds : list N) (n : Z) : jsstring :=
  let k := Z.of_nat (List.length ds) in
  if (k <=? n) && (n <=? 21) then
    digit_chars ds ++ digit_chars (zeros (Z.to_nat (n - k)))
  else if (0 <? n) && (n <=? 21) then
    digit_chars (firstn (Z.to_nat n) ds) ++ ch_dot
      :: digit_chars (skipn (Z.to_nat n) ds)
  else if (-6 <? n) && (n <=? 0) then
    digit_char 0 :: ch_dot
      :: digit_chars (zeros (Z.to_nat (- n))) ++ digit_chars ds
  else
    let ex := (if 0 <? n - 1 then ch_plus else ch_minus)
                :: decimal_string (Z.to_N (Z.abs (n - 1))) in
    match ds with
    | [d] => digit_char d :: ch_e :: ex
    | d :: r => digit_char d :: ch_dot :: digit_chars r ++ ch_e :: ex
    | [] => ch_e :: ex
    end.

(** [Number::toString(x)] in radix 10. *)
Definition Number_toString (x : number) : jsstring :=
  match x with
  | S754_nan => js "NaN"
  | S754_zero _ => js "0"
  | S754_infinity false => js "Infinity"
  | S754_infinity true => js "-Infinity"
  | S754_finite s m e =>
      let '(ds, n) := shortest_digits m e in
      (if s then [ch_minus] else []) ++ format_digits ds n
  end.

(** *** [Number.prototype.toFixed] *)

(** [x.toFixed(f)]: the decimal with [f] fraction digits nearest to [x], the
    larger one on a tie (taken on the absolute value); a number of magnitude
    [10 ^ 21] or more, and one that is not finite, prints as
    [Number::toString] prints it. *)
Definition toFixed (f : nat) (x : number) : jsstring :=
  let fixed (s : bool) (p q : Z) : jsstring :=
    let n := (2 * p * 10 ^ Z.of_nat f + q) / (2 * q) in
    let m := digits_of (Z.to_N n) in
    let m := zeros (S f - List.length m) ++ m in
    let k := List.length m in
    (if s then [ch_minus] else [])
      ++ (match f with
          | O => digit_chars m
          | _ => digit_chars (firstn (k - f) m) ++ ch_dot
                   :: digit_chars (skipn (k - f) m)
          end) in
  match x with
  | S754_zero _ => fixed false 0 1
  | S754_finite s m e =>
      let p := Zpos m * 2 ^ Z.max 0 e in
      let q := 2 ^ Z.max 0 (- e) in
      if 10 ^ 21 * q <=? p then Number_toString x else fixed s p q
  | _ => Number_toString x
  end.

(** *** [StringToNumber]: what unary [+] does to a string *)

(** The leading decimal digits of [s] (their values) and what follows. *)
Fixpoint take_digits (s : jsstring) : list N * jsstring :=
  match s with
  | c :: r =>
      if is_digit c then
        let '(ds, r') := take_digits r in ((c - 48)%N :: ds, r')
      else ([], s)
  | [] => ([], [])
  end.

(** An optional sign and one digit or more. *)
Definition signed_digits (s : jsstring) : option (Z * jsstring) :=
  let '(neg, r) :=
    match s with
    | c :: r =>
        if N.eqb c ch_plus then (false, r)
        else if N.eqb c ch_minus then (true, r)
        else (false, s)
    | [] => (false, s)
    end in
  match take_digits r with
  | ([], _) => None
  | (ds, r') =>
      let v := Z.of_N (digits_value ds) in
      Some (if neg then - v else v, r')
  end.

Definition is_exp_char (c : N) : bool := N.eqb c 101 || N.eqb c 69.

(** [StrUnsignedDecimalLiteral] without its exponent: integer digits, a
    point and fraction digits, one of the two groups possibly empty. *)
Definition decimal_mantissa (s : jsstring)
    : option (list N * list N * jsstring) :=
  let '(i, r) := take_digits s in
  match r with
  | 46%N :: r1 =>
      let '(f, r2) := take_digits r1 in
      match i, f with
      | [], [] => None
      | _, _ => Some (i, f, r2)
      end
  | _ => match i with [] => None | _ => Some (i, [], r) end
  end.

(** The number written by integer digits [i], fraction digits [f] and
    exponent [e]. *)
Definition decimal_value (s : bool) (i f : list N) (e : Z) : number :=
  decimal_to_double s (Z.of_N (digits_value (i ++ f)))
    (e - Z.of_nat (List.length f)).

Definition radix_digit (radix c : N) : option N :=
  let v :=
    if is_digit c then Some (c - 48)%N
    else if ((97 <=? c) && (c <=? 102))%N then Some (c - 87)%N
    else if ((65 <=? c) && (c <=? 70))%N then Some (c - 55)%N
    else None in
  match v with
  | Some d => if (d <? radix)%N then Some d else None
  | None => None
  end.

Fixpoint radix_value (radix : N) (s : jsstring) (acc : N) : option N :=
  match s with
  | [] => Some acc
  | c :: r =>
      match radix_digit radix c with
      | Some d => radix_value radix r (radix * acc + d)%N
      | None => None
      end
  end.

(** [NonDecimalIntegerLiteral]: [0x], [0o] and [0b] numerals. *)
Definition non_decimal_literal (s : jsstring) : option N :=
  match s with
  | 48%N :: c :: (_ :: _) as ds =>
      if N.eqb c 120 || N.eqb c 88 then radix_value 16 ds 0
      else if N.eqb c 111 || N.eqb c 79 then radix_value 8 ds 0
      else if N.eqb c 98 || N.eqb c 66 then radix_value 2 ds 0
      else None
  | _ => None
  end.

(** [StringToNumber(s)]; a string that is no numeric literal gives [NaN]. *)
Definition StringToNumber (s : jsstring) : number :=
  let t := trim s in
  match t with
  | [] => S754_zero false
  | c :: r =>
      match non_decimal_literal t with
      | Some n => decimal_to_double false (Z.of_N n) 0
      | None =>
          let '(neg, u) :=
            if N.eqb c ch_plus then (false, r)
            else if N.eqb c ch_minus then (true, r)
            else (false, t) in
          if str_eqb u (js "Infinity") then S754_infinity neg
          else
            match decimal_mantissa u with
            | Some (i, f, []) => decimal_value neg i f 0
            | Some (i, f, e :: r') =>
                if is_exp_char e then
                  match signed_digits r' with
                  | Some (ex, []) => decimal_value neg i f ex
                  | _ => S754_nan
                  end
                else S754_nan
            | None => S754_nan
            end
      end
  end.

(** ** Values *)

(** The values the application handles: all of them come out of
    [JSON.parse]. A property that is absent reads as [undefined], which is
    [None] below. An object keeps its properties in enumeration order. *)
#[warnings="-register-all"]
Inductive jsval : Type :=
| JNull
| JBool (b : bool)
| JNum (x : number)
| JStr (s : jsstring)
| JArr (items : list jsval)
| JObj (props : list (jsstring * jsval)).

(** What a failing step throws; the application tells none of them
    apart. A rejected [fetch] is [FetchError]. *)
Inductive exn : Type :=
| SyntaxError
| TypeError
| FetchError.

(** The outcome of an expression that may throw. *)
Inductive result (A : Type) : Type :=
| Ok (a : A)
| Throw (e : exn).
Arguments Ok {A} a.
Arguments Throw {A} e.

Definition bind {A B : Type} (r : result A) (k : A -> result B) : result B :=
  match r with
  | Ok a => k a
  | Throw e => Throw e
  end.

Notation "'do' x <- r ; k" := (bind r (fun x => k))
  (at level 10, x name, r at level 100, k at level 200).

(** [typeof v]. *)
Definition typeof (v : option jsval) : jsstring :=
  match v with
  | None => js "undefined"
  | Some JNull => js "object"
  | Some (JBool _) => js "boolean"
  | Some (JNum _) => js "number"
  | Some (JStr _) => js "string"
  | Some (JArr _) => js "object"
  | Some (JObj _) => js "object"
  end.

Fixpoint lookup (k : jsstring) (props : list (jsstring * jsval))
    : option jsval :=
  match props with
  | [] => None
  | (k', v) :: r => if str_eqb k k' then Some v else lookup k r
  end.

(** The array index a property key denotes, if it is one: the canonical
    numeral of an integer below [2 ^ 32 - 1]. *)
Definition array_index (k : jsstring) : option N :=
  match k with
  | [] => None
  | _ =>
      if forallb is_digit k then
        let n := digits_value (List.map (fun c => (c - 48)%N) k) in
        if str_eqb (decimal_string n) k && (n <? 4294967295)%N
        then Some n else None
      else None
  end.

(** [v[k]] for a property key [k]: reading a property of [null] throws; a
    primitive other than a string has no property of its own. The keys the
    application reads are data properties, never inherited members. *)
Definition get (v : jsval) (k : jsstring) : result (option jsval) :=
  match v with
  | JNull => Throw TypeError
  | JObj props => Ok (lookup k props)
  | JArr items =>
      match array_index k with
      | Some i => Ok (nth_error items (N.to_nat i))
      | None => Ok None
      end
  | JStr s =>
      match array_index k with
      | Some i =>
          Ok (match nth_error s (N.to_nat i) with
              | Some c => Some (JStr [c])
              | None => None
              end)
      | None => Ok None
      end
  | _ => Ok None
  end.

(** [v.k] where [v] itself may be [undefined]. *)
Definition get_of (v : option jsval) (k : jsstring) : result (option jsval) :=
  match v with
  | None => Throw TypeError
  | Some v => get v k
  end.

Fixpoint has_key (k : jsstring) (props : list (jsstring * jsval)) : bool :=
  match props with
  | [] => false
  | (k', _) :: r => str_eqb k k' || has_key k r
  end.

Fixpoint obj_replace (props : list (jsstring * jsval)) (k : jsstring)
    (v : jsval) : list (jsstring * jsval) :=
  match props with
  | [] => []
  | (k', v') :: r =>
      if str_eqb k k' then (k', v) :: r else (k', v') :: obj_replace r k v
  end.

(** A new array-index key goes among the index keys, in ascending order;
    they come before all other keys. *)
Fixpoint obj_insert_index (props : list (jsstring * jsval)) (n : N)
    (k : jsstring) (v : jsval) : list (jsstring * jsval) :=
  match props with
  | [] => [(k, v)]
  | (k', v') :: r =>
      match array_index k' with
      | Some n' =>
          if (n' <? n)%N then (k', v') :: obj_insert_index r n k v
          else (k, v) :: props
      | None => (k, v) :: props
      end
  end.

(** [CreateDataProperty(obj, k, v)]: a key already there keeps its place
    and takes the new value. *)
Definition obj_define (props : list (jsstring * jsval)) (k : jsstring)
    (v : jsval) : list (jsstring * jsval) :=
  if has_key k props then obj_replace props k v
  else
    match array_index k with
    | Some n => obj_insert_index props n k v
    | None => props ++ [(k, v)]
    end.

Definition obj_of_members (ms : list (jsstring * jsval))
    : list (jsstring * jsval) :=
  fold_left (fun o kv => obj_define o (fst kv) (snd kv)) ms [].

(** ** [JSON.stringify] *)

Definition hex_digit_char (d : N) : N :=
  if (d <? 10)%N then (48 + d)%N else (87 + d)%N.

(** [UnicodeEscape]: a backslash, [u] and four lowercase hex digits. *)
Definition unicode_escape (c : N) : jsstring :=
  [92; 117; hex_digit_char (c / 4096 mod 16); hex_digit_char (c / 256 mod 16);
   hex_digit_char (c / 16 mod 16); hex_digit_char (c mod 16)]%N.

Definition is_high_surrogate (c : N) : bool := ((55296 <=? c) && (c <=? 56319))%N.
Definition is_low_surrogate (c : N) : bool := ((56320 <=? c) && (c <=? 57343))%N.

(** One code unit of a quoted string, when it is no half of a pair. *)
Definition quote_char (c : N) : jsstring :=
  if N.eqb c 8 then [92; 98]%N
  else if N.eqb c 9 then [92; 116]%N
  else if N.eqb c 10 then [92; 110]%N
  else if N.eqb c 12 then [92; 102]%N
  else if N.eqb c 13 then [92; 114]%N
  else if N.eqb c 34 then [92; 34]%N
  else if N.eqb c 92 then [92; 92]%N
  else if (c <? 32)%N || is_high_surrogate c || is_low_surrogate c
       then unicode_escape c
  else [c].

(** The characters between the quotes: the string is read by code points,
    so a surrogate pair is copied and a lone surrogate is escaped. *)
Fixpoint quote_body (s : jsstring) : jsstring :=
  match s with
  | [] => []
  | c :: r =>
      if is_high_surrogate c then
        match r with
        | c2 :: r2 =>
            if is_low_surrogate c2 then c :: c2 :: quote_body r2
            else unicode_escape c ++ quote_body r
        | [] => unicode_escape c
        end
      else quote_char c ++ quote_body r
  end.

(** [QuoteJSONString]. *)
Definition quote (s : jsstring) : jsstring := 34%N :: quote_body s ++ [34%N].

(** [parts.join(sep)]. *)
Fixpoint join {A : Type} (sep : list A) (parts : list (list A)) : list A :=
  match parts with
  | [] => []
  | [p] => p
  | p :: r => p ++ sep ++ join sep r
  end.

(** What stands between the brackets of a non-empty array or object. *)
Definition wrap (lb rb : N) (gap indent : jsstring) (parts : list jsstring)
    : jsstring :=
  match parts with
  | [] => [lb; rb]
  | _ =>
      match gap with
      | [] => lb :: join [44%N] parts ++ [rb]
      | _ =>
          let inner := indent ++ gap in
          lb :: 10%N :: inner ++ join (44%N :: 10%N :: inner) parts
            ++ 10%N :: indent ++ [rb]
      end
  end.

(** [SerializeJSONProperty] with [SerializeJSONArray] and
    [SerializeJSONObject]: [gap] is the indentation unit and [indent] the
    current indentation. A number that is not finite is written [null]. *)
Fixpoint serialize (gap indent : jsstring) (v : jsval) {struct v} : jsstring :=
  match v with
  | JNull => js "null"
  | JBool true => js "true"
  | JBool false => js "false"
  | JNum x => if is_finite x then Number_toString x else js "null"
  | JStr s => quote s
  | JArr items =>
      wrap 91 93 gap indent (List.map (serialize gap (indent ++ gap)) items)
  | JObj props =>
      wrap 123 125 gap indent
        (List.map
           (fun kv =>
              quote (fst kv) ++ 58%N
                :: (match gap with [] => [] | _ => [32%N] end)
                ++ serialize gap (indent ++ gap) (snd kv))
           props)
  end.

(** [JSON.stringify(v, null, space)] for a number [space]. *)
Definition JSON_stringify (v : jsval) (space : nat) : jsstring :=
  serialize (repeat 32%N (Nat.min space 10)) [] v.

(** ** [JSON.parse] *)

Inductive token : Type :=
| TLBrace | TRBrace | TLBracket | TRBracket | TColon | TComma
| TString (s : jsstring)
| TNumber (x : number)
| TTrue | TFalse | TNull.

(** JSON white space: tab, line feed, carriage return and space. *)
Definition is_json_ws (c : N) : bool :=
  N.eqb c 9 || N.eqb c 10 || N.eqb c 13 || N.eqb c 32.

Fixpoint skip_ws (s : jsstring) : jsstring :=
  match s with
  | c :: r => if is_json_ws c then skip_ws r else s
  | [] => []
  end.

Definition hex_value (c : N) : option N := radix_digit 16 c.

(** The characters of a string literal after its opening quote, up to the
    closing one: the string they denote and what follows. *)
Fixpoint lex_string (s : jsstring) : option (jsstring * jsstring) :=
  match s with
  | [] => None
  | c :: r =>
      if N.eqb c 34 then Some ([], r)
      else if N.eqb c 92 then
        match r with
        | e :: r1 =>
            let simple (u : N) :=
              match lex_string r1 with
              | Some (t, r') => Some (u :: t, r')
              | None => None
              end in
            if N.eqb e 34 then simple 34%N
            else if N.eqb e 92 then simple 92%N
            else if N.eqb e 47 then simple 47%N
            else if N.eqb e 98 then simple 8%N
            else if N.eqb e 102 then simple 12%N
            else if N.eqb e 110 then simple 10%N
            else if N.eqb e 114 then simple 13%N
            else if N.eqb e 116 then simple 9%N
            else if N.eqb e 117 then
              match r1 with
              | h1 :: h2 :: h3 :: h4 :: r2 =>
                  match hex_value h1, hex_value h2, hex_value h3, hex_value h4 with
                  | Some a, Some b, Some c', Some d =>
                      match lex_string r2 with
                      | Some (t, r') =>
                          Some ((((a * 16 + b) * 16 + c') * 16 + d)%N :: t, r')
                      | None => None
                      end
                  | _, _, _, _ => None
                  end
              | _ => None
              end
            else None
        | [] => None
        end
      else if (c <? 32)%N then None
      else
        match lex_string r with
        | Some (t, r') => Some (c :: t, r')
        | None => None
        end
  end.

(** The optional fraction of a JSON number: a point and one digit or
    more. *)
Definition lex_fraction (s : jsstring) : option (list N * jsstring) :=
  match s with
  | c :: r =>
      if N.eqb c ch_dot then
        match take_digits r with
        | ([], _) => None
        | (f, r') => Some (f, r')
        end
      else Some ([], s)
  | [] => Some ([], s)
  end.

(** The optional exponent of a JSON number ([0] when there is none). *)
Definition lex_exponent (s : jsstring) : option (Z * jsstring) :=
  match s with
  | c :: r => if is_exp_char c then signed_digits r else Some (0, s)
  | [] => Some (0, s)
  end.

(** A JSON number after its sign: an integer part with no superfluous
    leading zero, an optional fraction and an optional exponent. *)
Definition lex_unsigned (neg : bool) (s : jsstring)
    : option (number * jsstring) :=
  let '(i, r1) := take_digits s in
  match i with
  | [] => None
  | 0%N :: _ :: _ => None
  | _ =>
      match lex_fraction r1 with
      | Some (f, r2) =>
          match lex_exponent r2 with
          | Some (ex, r3) => Some (decimal_value neg i f ex, r3)
          | None => None
          end
      | None => None
      end
  end.

(** A JSON number: an optional minus and the rest. *)
Definition lex_number (s : jsstring) : option (number * jsstring) :=
  match s with
  | c :: r => if N.eqb c ch_minus then lex_unsigned true r else lex_unsigned false s
  | [] => None
  end.

Inductive lexed : Type :=
| LexEnd
| LexError
| LexTok (t : token) (rest : jsstring).

(** The first token of [s], after white space. *)
Definition next_token (s : jsstring) : lexed :=
  match skip_ws s with
  | [] => LexEnd
  | (c :: r) as s' =>
      if N.eqb c 123 then LexTok TLBrace r
      else if N.eqb c 125 then LexTok TRBrace r
      else if N.eqb c 91 then LexTok TLBracket r
      else if N.eqb c 93 then LexTok TRBracket r
      else if N.eqb c 58 then LexTok TColon r
      else if N.eqb c 44 then LexTok TComma r
      else if N.eqb c 34 then
        match lex_string r with
        | Some (t, r') => LexTok (TString t) r'
        | None => LexError
        end
      else if N.eqb c ch_minus || is_digit c then
        match lex_number s' with
        | Some (x, r') => LexTok (TNumber x) r'
        | None => LexError
        end
      else
        match strip_prefix (js "true") s', strip_prefix (js "false") s',
              strip_prefix (js "null") s' with
        | Some r', _, _ => LexTok TTrue r'
        | _, Some r', _ => LexTok TFalse r'
        | _, _, Some r' => LexTok TNull r'
        | _, _, _ => LexError
        end
  end.

(** The tokens of a text; every token takes a character or more, so the
    length of the text is fuel enough. *)
Fixpoint lex (fuel : nat) (s : jsstring) : option (list token) :=
  match fuel with
  | O => None
  | S f =>
      match next_token s with
      | LexEnd => Some []
      | LexError => None
      | LexTok t r =>
          match lex f r with
          | Some ts => Some (t :: ts)
          | None => None
          end
      end
  end.

(** The JSON grammar on tokens: a value, the elements of an array after its
    opening bracket, the members of an object after its opening brace. *)
Fixpoint parse_value (fuel : nat) (ts : list token) {struct fuel}
    : option (jsval * list token) :=
  match fuel with
  | O => None
  | S f =>
      match ts with
      | TNull :: r => Some (JNull, r)
      | TTrue :: r => Some (JBool true, r)
      | TFalse :: r => Some (JBool false, r)
      | TNumber x :: r => Some (JNum x, r)
      | TString s :: r => Some (JStr s, r)
      | TLBracket :: TRBracket :: r => Some (JArr [], r)
      | TLBracket :: r =>
          match parse_elements f r with
          | Some (vs, r') => Some (JArr vs, r')
          | None => None
          end
      | TLBrace :: TRBrace :: r => Some (JObj [], r)
      | TLBrace :: r =>
          match parse_members f r with
          | Some (ms, r') => Some (JObj (obj_of_members ms), r')
          | None => None
          end
      | _ => None
      end
  end
with parse_elements (fuel : nat) (ts : list token) {struct fuel}
    : option (list jsval * list token) :=
  match fuel with
  | O => None
  | S f =>
      match parse_value f ts with
      | Some (v, TComma :: r) =>
          match parse_elements f r with
          | Some (vs, r') => Some (v :: vs, r')
          | None => None
          end
      | Some (v, TRBracket :: r) => Some ([v], r)
      | _ => None
      end
  end
with parse_members (fuel : nat) (ts : list token) {struct fuel}
    : option (list (jsstring * jsval) * list token) :=
  match fuel with
  | O => None
  | S f =>
      match ts with
      | TString k :: TColon :: r =>
          match parse_value f r with
          | Some (v, TComma :: r') =>
              match parse_members f r' with
              | Some (ms, r'') => Some ((k, v) :: ms, r'')
              | None => None
              end
          | Some (v, TRBrace :: r') => Some ([(k, v)], r')
          | _ => None
          end
      | _ => None
      end
  end.

(** [JSON.parse(text)]: one value and nothing after it, or a
    [SyntaxError]. *)
Definition JSON_parse (text : jsstring) : result jsval :=
  match lex (S (List.length text)) text with
  | Some ts =>
      match parse_value (S (List.length ts)) ts with
      | Some (v, []) => Ok v
      | _ => Throw SyntaxError
      end
  | None => Throw SyntaxError
  end.

(** ** The food ledger *)

(** [interface FoodItem]. *)
Module FoodItem.
Record t : Type := {
  name : jsstring;
  calories : number;
  protein : number;
  carbs : number;
  fat : number;
  weight : number
}.

(** The object with these six properties, in the order of the interface. *)
Definition to_value (i : t) : jsval :=
  JObj [(js "name", JStr (name i));
        (js "calories", JNum (calories i));
        (js "protein", JNum (protein i));
        (js "carbs", JNum (carbs i));
        (js "fat", JNum (fat i));
        (js "weight", JNum (weight i))].

(** The six properties of a value, when it has them with these types. *)
Definition of_value (v : jsval) : option t :=
  match v with
  | JObj props =>
      match lookup (js "name") props, lookup (js "calories") props,
            lookup (js "protein") props, lookup (js "carbs") props,
            lookup (js "fat") props, lookup (js "weight") props with
      | Some (JStr n), Some (JNum c), Some (JNum p), Some (JNum cb),
        Some (JNum f), Some (JNum w) =>
          Some {| name := n; calories := c; protein := p; carbs := cb;
                  fat := f; weight := w |}
      | _, _, _, _, _, _ => None
      end
  | _ => None
  end.
End FoodItem.

(** [interface FoodSuggestion]; the name is whatever the provider sent. *)
Module FoodSuggestion.
Record t : Type := { name : jsval }.
End FoodSuggestion.

(** The object [totals] of the component. *)
Module Totals.
Record t : Type := {
  calories : number;
  protein : number;
  carbs : number;
  fat : number;
  weight : number
}.
End Totals.

(** [+(a + b).toFixed(1)]. *)
Definition add_fixed1 (a b : number) : number :=
  StringToNumber (toFixed 1 (num_add a b)).

(** The callback of the [reduce]. *)
Definition totals_step (acc : Totals.t) (item : FoodItem.t) : Totals.t :=
  {| Totals.calories := num_add (Totals.calories acc) (FoodItem.calories item);
     Totals.protein := add_fixed1 (Totals.protein acc) (FoodItem.protein item);
     Totals.carbs := add_fixed1 (Totals.carbs acc) (FoodItem.carbs item);
     Totals.fat := add_fixed1 (Totals.fat acc) (FoodItem.fat item);
     Totals.weight := add_fixed1 (Totals.weight acc) (FoodItem.weight item) |}.

Definition totals_zero : Totals.t :=
  {| Totals.calories := num_zero; Totals.protein := num_zero;
     Totals.carbs := num_zero; Totals.fat := num_zero;
     Totals.weight := num_zero |}.

(** [const totals = foodItems.reduce(..., {calories: 0, ...})]. *)
Definition totals (foodItems : list FoodItem.t) : Totals.t :=
  fold_left totals_step foodItems totals_zero.

(** ** Replies of the provider *)

(** How a [fetch] settles: it rejects, or it resolves with a response whose
    body is [body]. *)
Inductive reply : Type :=
| FetchFailed
| FetchBody (body : jsstring).

(** [text.replace(/```json\s*|```/g, '')]: at each position the fence with
    [json] and the white space after it, else the bare fence, is dropped. *)
Fixpoint strip_fences (fuel : nat) (s : jsstring) : jsstring :=
  match fuel with
  | O => s
  | S f =>
      match strip_prefix (js "```json") s with
      | Some r => strip_fences f (trim_start r)
      | None =>
          match strip_prefix (js "```") s with
          | Some r => strip_fences f r
          | None =>
              match s with
              | [] => []
              | c :: r => c :: strip_fences f r
              end
          end
      end
  end.

Definition replace_fences (s : jsstring) : jsstring :=
  strip_fences (S (List.length s)) s.

(** [const data = await response.json();
     const responseText = data.candidates[0].content.parts[0].text;
     const jsonStr = responseText.replace(...).trim();
     JSON.parse(jsonStr)] *)
Definition reply_payload (r : reply) : result jsval :=
  match r with
  | FetchFailed => Throw FetchError
  | FetchBody body =>
      do data <- JSON_parse body;
      do candidates <- get data (js "candidates");
      do c0 <- get_of candidates (js "0");
      do content <- get_of c0 (js "content");
      do parts <- get_of content (js "parts");
      do p0 <- get_of parts (js "0");
      do text <- get_of p0 (js "text");
      match text with
      | Some (JStr responseText) =>
          JSON_parse (trim (replace_fences responseText))
      | _ => Throw TypeError
      end
  end.

(** [suggestedFoods.map((name) => ({ name }))]: only an array has [map]. *)
Definition suggestions_of_reply (r : reply) : result (list FoodSuggestion.t) :=
  do suggestedFoods <- reply_payload r;
  match suggestedFoods with
  | JArr names => Ok (List.map FoodSuggestion.Build_t names)
  | _ => Throw TypeError
  end.

(** ** The component [App] *)

(** What an unsettled call of [handleAddFood] holds on to: the state of the
    render it was called in ([foodItems] is read again after the await). *)
Record add_call : Type := {
  call_foodName : jsstring;
  call_quantity : jsstring;
  call_unit : jsstring;
  call_foodItems : list jsval
}.

(** The eight [useState] cells, and what is pending outside them: the
    timeout of the debounce effect (the delay left and the [foodName] of its
    render), the calls of [fetchSuggestions] awaiting their fetch (by
    query) and the calls of [handleAddFood] awaiting theirs. *)
Record state : Type := {
  foodName : jsstring;
  unit : jsstring;
  quantity : jsstring;
  foodItems : list jsval;
  isLoading : bool;
  error : jsstring;
  suggestions : list FoodSuggestion.t;
  showSuggestions : bool;
  debounceTimer : option (N * jsstring);
  suggestionFetches : list jsstring;
  nutritionFetches : list add_call
}.

Definition setUnit (v : jsstring) (s : state) : state :=
  {| foodName := foodName s; unit := v; quantity := quantity s;
     foodItems := foodItems s; isLoading := isLoading s; error := error s;
     suggestions := suggestions s; showSuggestions := showSuggestions s;
     debounceTimer := debounceTimer s;
     suggestionFetches := suggestionFetches s;
     nutritionFetches := nutritionFetches s |}.

Definition setQuantity (v : jsstring) (s : state) : state :=
  {| foodName := foodName s; unit := unit s; quantity := v;
     foodItems := foodItems s; isLoading := isLoading s; error := error s;
     suggestions := suggestions s; showSuggestions := showSuggestions s;
     debounceTimer := debounceTimer s;
     suggestionFetches := suggestionFetches s;
     nutritionFetches := nutritionFetches s |}.

Definition setFoodItems (v : list jsval) (s : state) : state :=
  {| foodName := foodName s; unit := unit s; quantity := quantity s;
     foodItems := v; isLoading := isLoading s; error := error s;
     suggestions := suggestions s; showSuggestions := showSuggestions s;
     debounceTimer := debounceTimer s;
     suggestionFetches := suggestionFetches s;
     nutritionFetches := nutritionFetches s |}.

Definition setIsLoading (v : bool) (s : state) : state :=
  {| foodName := foodName s; unit := unit s; quantity := quantity s;
     foodItems := foodItems s; isLoading := v; error := error s;
     suggestions := suggestions s; showSuggestions := showSuggestions s;
     debounceTimer := debounceTimer s;
     suggestionFetches := suggestionFetches s;
     nutritionFetches := nutritionFetches s |}.

Definition setError (v : jsstring) (s : state) : state :=
  {| foodName := foodName s; unit := unit s; quantity := quantity s;
     foodItems := foodItems s; isLoading := isLoading s; error := v;
     suggestions := suggestions s; showSuggestions := showSuggestions s;
     debounceTimer := debounceTimer s;
     suggestionFetches := suggestionFetches s;
     nutritionFetches := nutritionFetches s |}.

Definition setSuggestions (v : list FoodSuggestion.t) (s : state) : state :=
  {| foodName := foodName s; unit := unit s; quantity := quantity s;
     foodItems := foodItems s; isLoading := isLoading s; error := error s;
     suggestions := v; showSuggestions := showSuggestions s;
     debounceTimer := debounceTimer s;
     suggestionFetches := suggestionFetches s;
     nutritionFetches := nutritionFetches s |}.

Definition setShowSuggestions (v : bool) (s : state) : state :=
  {| foodName := foodName s; unit := unit s; quantity := quantity s;
     foodItems := foodItems s; isLoading := isLoading s; error := error s;
     suggestions := suggestions s; showSuggestions := v;
     debounceTimer := debounceTimer s;
     suggestionFetches := suggestionFetches s;
     nutritionFetches := nutritionFetches s |}.

Definition with_debounceTimer (v : option (N * jsstring)) (s : state) : state :=
  {| foodName := foodName s; unit := unit s; quantity := quantity s;
     foodItems := foodItems s; isLoading := isLoading s; error := error s;
     suggestions := suggestions s; showSuggestions := showSuggestions s;
     debounceTimer := v;
     suggestionFetches := suggestionFetches s;
     nutritionFetches := nutritionFetches s |}.

Definition with_suggestionFetches (v : list jsstring) (s : state) : state :=
  {| foodName := foodName s; unit := unit s; quantity := quantity s;
     foodItems := foodItems s; isLoading := isLoading s; error := error s;
     suggestions := suggestions s; showSuggestions := showSuggestions s;
     debounceTimer := debounceTimer s;
     suggestionFetches := v;
     nutritionFetches := nutritionFetches s |}.

Definition with_nutritionFetches (v : list add_call) (s : state) : state :=
  {| foodName := foodName s; unit := unit s; quantity := quantity s;
     foodItems := foodItems s; isLoading := isLoading s; error := error s;
     suggestions := suggestions s; showSuggestions := showSuggestions s;
     debounceTimer := debounceTimer s;
     suggestionFetches := suggestionFetches s;
     nutritionFetches := v |}.

(** The delay of the debounce [setTimeout]. *)
Definition debounce_delay : N := 300%N.

(** [setFoodName(v)] and the effect that depends on [foodName]: when the
    value changes, the cleanup clears the timeout of the previous render
    and a new one is set; setting the same value renders nothing anew. *)
Definition setFoodName (v : jsstring) (s : state) : state :=
  if str_eqb v (foodName s) then s
  else
    {| foodName := v; unit := unit s; quantity := quantity s;
       foodItems := foodItems s; isLoading := isLoading s; error := error s;
       suggestions := suggestions s; showSuggestions := showSuggestions s;
       debounceTimer := Some (debounce_delay, v);
       suggestionFetches := suggestionFetches s;
       nutritionFetches := nutritionFetches s |}.

(** The state after mounting: the effect has run once, for the empty name. *)
Definition initial_state : state :=
  {| foodName := []; unit := js "grams"; quantity := js "100";
     foodItems := []; isLoading := false; error := [];
     suggestions := []; showSuggestions := false;
     debounceTimer := Some (debounce_delay, []);
     suggestionFetches := []; nutritionFetches := [] |}.

(** [exportDiet]: the text of the downloaded file. *)
Definition exportDiet (s : state) : jsstring :=
  JSON_stringify (JArr (foodItems s)) 2.

Definition and_then (a b : result bool) : result bool :=
  do x <- a; if x then b else Ok false.

(** [typeof item.k === t]. *)
Definition has_type (item : jsval) (k t : string) : result bool :=
  do v <- get item (js k); Ok (str_eqb (typeof v) (js t)).

(** The callback of [importedItems.every]. *)
Definition item_valid (item : jsval) : result bool :=
  and_then (has_type item "name" "string")
    (and_then (has_type item "calories" "number")
       (and_then (has_type item "protein" "number")
          (and_then (has_type item "carbs" "number")
             (and_then (has_type item "fat" "number")
                (has_type item "weight" "number"))))).

(** [Array.prototype.every]: it stops at the first element that fails. *)
Fixpoint every (f : jsval -> result bool) (l : list jsval) : result bool :=
  match l with
  | [] => Ok true
  | x :: r => do b <- f x; if b then every f r else Ok false
  end.

(** [importedItems.every(...)]: only an array has [every]. *)
Definition isValid (importedItems : jsval) : result bool :=
  match importedItems with
  | JArr items => every item_valid items
  | _ => Throw TypeError
  end.

Definition invalid_format_message : jsstring := js "Invalid diet plan format".
Definition import_failed_message : jsstring :=
  js "Failed to import diet plan. Please check the file format.".
Definition fetch_failed_message : jsstring :=
  js "Failed to fetch nutrition information. Please try again.".
Definition empty_name_message : jsstring := js "Please enter a food name".

(** The elements of a value that passed [isValid]. *)
Definition elements (v : jsval) : list jsval :=
  match v with
  | JArr items => items
  | _ => []
  end.

(** [reader.onload] of [importDiet], given the text of the file. *)
Definition importDiet_onload (content : jsstring) (s : state) : state :=
  match (do importedItems <- JSON_parse content;
         do ok <- isValid importedItems;
         Ok (importedItems, ok)) with
  | Ok (importedItems, true) => setFoodItems (elements importedItems) s
  | Ok (_, false) => setError invalid_format_message s
  | Throw _ => setError import_failed_message s
  end.

(** [importDiet]: nothing happens when no file was chosen. *)
Definition importDiet (file : option jsstring) (s : state) : state :=
  match file with
  | None => s
  | Some content => importDiet_onload content s
  end.

(** [fetchSuggestions(query)] up to its [await]. *)
Definition fetchSuggestions (query : jsstring) (s : state) : state :=
  match trim query with
  | [] => setSuggestions [] s
  | _ => with_suggestionFetches (suggestionFetches s ++ [query]) s
  end.

(** [fetchSuggestions] after its [await]: whatever the query has become in
    the meantime, the reply is written to the state. *)
Definition fetchSuggestions_settle (r : reply) (s : state) : state :=
  match suggestions_of_reply r with
  | Ok found => setShowSuggestions true (setSuggestions found s)
  | Throw _ => setSuggestions [] s
  end.

(** The callback of the debounce timeout, for the [foodName] of its
    render. *)
Definition debounce_fire (name : jsstring) (s : state) : state :=
  match name with
  | [] => setShowSuggestions false (setSuggestions [] s)
  | _ => fetchSuggestions name s
  end.

(** [handleAddFood] up to the [await] inside [fetchNutritionInfo]. *)
Definition handleAddFood (s : state) : state :=
  match trim (foodName s) with
  | [] => setError empty_name_message s
  | _ =>
      with_nutritionFetches
        (nutritionFetches s
           ++ [{| call_foodName := foodName s; call_quantity := quantity s;
                  call_unit := unit s; call_foodItems := foodItems s |}])
        (setError [] (setIsLoading true s))
  end.

(** [handleAddFood] after the [await]: [fetchNutritionInfo] returns the
    parsed payload or sets the error and rethrows, and resets [isLoading]
    either way; on success the item goes after the [foodItems] of the
    render the call was made in. *)
Definition handleAddFood_settle (c : add_call) (r : reply) (s : state) : state :=
  match reply_payload r with
  | Ok nutritionInfo =>
      setShowSuggestions false
        (setSuggestions []
           (setFoodName []
              (setFoodItems (call_foodItems c ++ [nutritionInfo])
                 (setIsLoading false s))))
  | Throw _ => setIsLoading false (setError fetch_failed_message s)
  end.

(** [handleSelectSuggestion]. *)
Definition handleSelectSuggestion (name : jsstring) (s : state) : state :=
  setShowSuggestions false (setSuggestions [] (setFoodName name s)).

(** What happens to the component. *)
Inductive event : Type :=
| ChangeFoodName (text : jsstring)
| FocusFoodName
| ChangeQuantity (text : jsstring)
| ChangeUnit (text : jsstring)
| ClickAdd
| ClickSuggestion (i : nat)
| ImportFile (file : option jsstring)
| Elapse (dt : N)
| SuggestionsReply (i : nat) (r : reply)
| NutritionReply (i : nat) (r : reply).

(** [l] without its element at index [i]. *)
Fixpoint remove_nth {A : Type} (i : nat) (l : list A) : list A :=
  match i, l with
  | _, [] => []
  | O, _ :: r => r
  | S j, x :: r => x :: remove_nth j r
  end.

(** One event: the handler it reaches, and the values the setters are given.
    The Add button is rendered [disabled={isLoading}], so a click reaches
    [handleAddFood] only when nothing is loading; the list of suggestions is
    rendered only when it is shown. A reply settles the pending call it
    belongs to.

    Two things are outside this model. [foodName] is a string here, so a
    click on a suggestion is followed only when the name of the suggestion
    is a string; for any other name the code still calls
    [handleSelectSuggestion]. And the render that follows an event is not
    modelled: a state is the content of the state cells, also when the
    render of that content would throw (an entry [null] in the ledger, a
    suggestion whose name is an object), after which the real component is
    unmounted. A statement about a state is a statement about its
    cells. *)
Definition step (s : state) (e : event) : state :=
  match e with
  | ChangeFoodName text => setFoodName text s
  | FocusFoodName => setShowSuggestions true s
  | ChangeQuantity text => setQuantity text s
  | ChangeUnit text => setUnit text s
  | ClickAdd => if isLoading s then s else handleAddFood s
  | ClickSuggestion i =>
      if showSuggestions s then
        match nth_error (suggestions s) i with
        | Some {| FoodSuggestion.name := JStr name |} =>
            handleSelectSuggestion name s
        | _ => s
        end
      else s
  | ImportFile file => importDiet file s
  | Elapse dt =>
      match debounceTimer s with
      | Some (delay, name) =>
          if (delay <=? dt)%N then debounce_fire name (with_debounceTimer None s)
          else with_debounceTimer (Some ((delay - dt)%N, name)) s
      | None => s
      end
  | SuggestionsReply i r =>
      match nth_error (suggestionFetches s) i with
      | Some _ =>
          fetchSuggestions_settle r
            (with_suggestionFetches (remove_nth i (suggestionFetches s)) s)
      | None => s
      end
  | NutritionReply i r =>
      match nth_error (nutritionFetches s) i with
      | Some c =>
          handleAddFood_settle c r
            (with_nutritionFetches (remove_nth i (nutritionFetches s)) s)
      | None => s
      end
  end.

Definition run (s : state) (es : list event) : state := fold_left step es s.

(** The totals shown for the ledger of a state, when every item of the
    ledger is a [FoodItem]. *)
Fixpoint food_items (l : list jsval) : option (list FoodItem.t) :=
  match l with
  | [] => Some []
  | v :: r =>
      match FoodItem.of_value v, food_items r with
      | Some i, Some rest => Some (i :: rest)
      | _, _ => None
      end
  end.

Definition shown_totals (s : state) : option Totals.t :=
  option_map totals (food_items (foodItems s)).

(** ** Vocabulary of the statements *)

(** A literal in which the apostrophe stands for the double quote. *)
Definition jsq (s : string) : jsstring :=
  List.map (fun c => if N.eqb c 39 then 34%N else c) (js s).

(** The first element at which [every item_valid] stops: one that fails
    the test, or makes it throw. *)
Fixpoint first_invalid (items : list jsval) : option jsval :=
  match items with
  | [] => None
  | x :: r =>
      match item_valid x with
      | Ok true => first_invalid r
      | _ => Some x
      end
  end.

(** Single flight: a nutrition lookup is pending exactly while [isLoading]
    is set, and then there is one. *)
Definition single_flight (s : state) : Prop :=
  (isLoading s = false /\ nutritionFetches s = [])
  \/ (isLoading s = true /\ exists c, nutritionFetches s = [c]).

(** Replies of the provider used in the examples: the envelope of the
    service around the text [['Avocado','Almond']], around
    [['Apple','Apricot']], and a body that is no JSON. *)
Definition reply_for_a : reply :=
  FetchBody
    (jsq "{'candidates':[{'content':{'parts':[{'text':'[\'Avocado\',\'Almond\']'}]}}]}").

Definition reply_for_ap : reply :=
  FetchBody
    (jsq "{'candidates':[{'content':{'parts':[{'text':'```json\n[\'Apple\',\'Apricot\']\n```'}]}}]}").

Definition reply_not_json : reply := FetchBody (js "<html>502</html>").

Definition reply_prose : reply :=
  FetchBody
    (jsq "{'candidates':[{'content':{'parts':[{'text':'Sorry, I cannot help.'}]}}]}").

Definition named (names : list string) : list FoodSuggestion.t :=
  List.map (fun n => FoodSuggestion.Build_t (JStr (js n))) names.

(** The left-to-right sum of a list of numbers. *)
Definition sum_numbers (l : list number) : number :=
  fold_left num_add l num_zero.

(** [+x.toFixed(1)]: [x] rounded to one decimal. *)
Definition round1 (x : number) : number := StringToNumber (toFixed 1 x).

(** The totals as the specification words them: the sum of each field over
    the entries, rounded to one decimal for protein, carbs, fat and weight
    and left as it is for calories. *)
Definition totals_spec (entries : list FoodItem.t) : Totals.t :=
  {| Totals.calories := sum_numbers (List.map FoodItem.calories entries);
     Totals.protein :=
       round1 (sum_numbers (List.map FoodItem.protein entries));
     Totals.carbs := round1 (sum_numbers (List.map FoodItem.carbs entries));
     Totals.fat := round1 (sum_numbers (List.map FoodItem.fat entries));
     Totals.weight :=
       round1 (sum_numbers (List.map FoodItem.weight entries)) |}.

(** The running sum of a list of numbers in which every partial sum is
    rounded to one decimal. *)
Definition running_fixed1 (l : list number) : number :=
  fold_left add_fixed1 l num_zero.

(** A pinch of salt: 0.04 g of protein and nothing else. *)
Definition pinch : FoodItem.t :=
  {| FoodItem.name := js "Salt";
     FoodItem.calories := num_zero;
     FoodItem.protein := decimal_to_double false 4 (-2);
     FoodItem.carbs := num_zero;
     FoodItem.fat := num_zero;
     FoodItem.weight := num_zero |}.

(** [2 ^ l <= p / q], on integers. *)
Definition ratio_ge_pow2 (p q l : Z) : Prop :=
  q * 2 ^ Z.max 0 l <= p * 2 ^ Z.max 0 (- l).

(** Decimal digits. *)
Definition is_digits (ds : list N) : Prop := Forall (fun d => (d < 10)%N) ds.

Definition starts_with (P : N -> bool) (s : jsstring) : bool :=
  match s with
  | c :: _ => P c
  | [] => false
  end.

(** What follows a number in a text does not continue it. *)
Definition num_delimited (rest : jsstring) : Prop :=
  starts_with (fun c => is_digit c || N.eqb c ch_dot || is_exp_char c) rest
  = false.

(** The numbers JSON text can carry: the finite ones, but for the negative
    zero, which is written [0]. *)
Definition json_number (x : number) : Prop :=
  wf_number x /\ is_finite x = true /\ x <> S754_zero true.

(** The tokens of a text. *)
Definition tokenize (s : jsstring) : option (list token) :=
  lex (S (List.length s)) s.

(** The tokens of a value. *)
Fixpoint tokens (v : jsval) : list token :=
  match v with
  | JNull => [TNull]
  | JBool true => [TTrue]
  | JBool false => [TFalse]
  | JNum x => [TNumber x]
  | JStr s => [TString s]
  | JArr items => TLBracket :: join [TComma] (List.map tokens items) ++ [TRBracket]
  | JObj props =>
      TLBrace
        :: join [TComma]
             (List.map (fun kv => TString (fst kv) :: TColon :: tokens (snd kv))
                props)
        ++ [TRBrace]
  end.

(** The values that JSON text carries exactly: their numbers are numbers of
    JSON, and the properties of their objects are in the order in which
    [JSON.parse] would create them, no key twice. *)
Fixpoint canonical (v : jsval) : Prop :=
  match v with
  | JNum x => json_number x
  | JArr items =>
      (fix all (l : list jsval) : Prop :=
         match l with
         | [] => True
         | x :: r => canonical x /\ all r
         end) items
  | JObj props =>
      obj_of_members props = props
      /\ (fix all (l : list (jsstring * jsval)) : Prop :=
            match l with
            | [] => True
            | kv :: r => canonical (snd kv) /\ all r
            end) props
  | _ => True
  end.

(** White space only. *)
Definition blank (s : jsstring) : Prop := forallb is_json_ws s = true.

(** [ts] before the tokens [o], if there are any. *)
Definition prepend (ts : list token) (o : option (list token))
    : option (list token) :=
  match o with
  | Some l => Some (ts ++ l)
  | None => None
  end.

(** How a printed part reads: its tokens, whatever follows it. *)
Definition reads_as (part : jsstring) (ts : list token) : Prop :=
  forall rest,
    num_delimited rest ->
    tokenize (part ++ rest) = prepend ts (tokenize rest).

(** The fuel the parser takes on the tokens of a value. *)
Fixpoint size (v : jsval) : nat :=
  match v with
  | JArr items => S (list_sum (List.map (fun x => S (size x)) items))
  | JObj props => S (list_sum (List.map (fun kv => S (size (snd kv))) props))
  | _ => 1
  end.

(** The tokens a value can start with. *)
Definition opens_value (t : token) : bool :=
  match t with
  | TRBrace | TRBracket | TColon | TComma => false
  | _ => true
  end.

(** The parser gives [v] back from its tokens, given fuel for it. *)
Definition parses (v : jsval) : Prop :=
  forall fuel rest,
    (size v <= fuel)%nat ->
    parse_value fuel (tokens v ++ rest) = Some (v, rest).

(** An item whose five numbers are numbers of JSON. *)
Definition exact_item (e : FoodItem.t) : Prop :=
  json_number (FoodItem.calories e) /\ json_number (FoodItem.protein e)
  /\ json_number (FoodItem.carbs e) /\ json_number (FoodItem.fat e)
  /\ json_number (FoodItem.weight e).

(** The banana of the provider: 105 kcal, 1.3 g protein, 27 g carbs, 0.4 g
    fat, 118 g. *)
Definition banana : FoodItem.t :=
  {| FoodItem.name := js "Banana";
     FoodItem.calories := decimal_to_double false 105 0;
     FoodItem.protein := decimal_to_double false 13 (-1);
     FoodItem.carbs := decimal_to_double false 27 0;
     FoodItem.fat := decimal_to_double false 4 (-1);
     FoodItem.weight := decimal_to_double false 118 0 |}.

(** An item whose calories are [Infinity], and a file that puts it in the
    ledger: [1e999] is a JSON number and reads as [Infinity]. *)
Definition feast : FoodItem.t :=
  {| FoodItem.name := js "Feast";
     FoodItem.calories := S754_infinity false;
     FoodItem.protein := num_zero;
     FoodItem.carbs := num_zero;
     FoodItem.fat := num_zero;
     FoodItem.weight := num_zero |}.

Definition feast_file : jsstring :=
  jsq "[{'name':'Feast','calories':1e999,'protein':0,'carbs':0,'fat':0,'weight':0}]".

(** ** The requests to the provider *)

(** A number literal of the source that is an integer. *)
Definition num_lit (n : Z) : number := decimal_to_double false n 0.

(** The prompt of [fetchSuggestions(query)]: the template literal with the
    query between double quotes. *)
Definition suggestions_prompt (query : jsstring) : jsstring :=
  jsq "Given the input '" ++ query
    ++ jsq "', suggest 5 common food items that match this input. Return only a JSON array of food names, like ['Apple', 'Apricot'] for fruits starting with "
    ++ js "'a'. Keep suggestions concise and relevant.".

(** The prompt of [fetchNutritionInfo(foodName, unit)]; [quantity] is the
    state of the render the call was made in. *)
Definition nutrition_prompt (foodName quantity unit : jsstring) : jsstring :=
  js "Provide accurate nutritional information for " ++ foodName
    ++ js " (" ++ quantity ++ js " " ++ unit
    ++ js "). Return only a JSON object with name, calories, protein (g), carbs (g), fat (g), and weight (g). For piece units, convert to approximate weight in grams. Scale the values according to the quantity. Example format: "
    ++ jsq "{'name':'Apple','calories':95,'protein':0.5,'carbs':25,'fat':0.3,'weight':120}".

(** The object both fetchers pass to [JSON.stringify]: the prompt, and a
    [generationConfig] in which only [temperature] and [maxOutputTokens]
    differ between the two. *)
Definition generate_request (text : jsstring)
    (temperature maxOutputTokens : number) : jsval :=
  JObj [(js "contents",
         JArr [JObj [(js "parts", JArr [JObj [(js "text", JStr text)]])]]);
        (js "generationConfig",
         JObj [(js "temperature", JNum temperature);
               (js "topK", JNum (num_lit 32));
               (js "topP", JNum (num_lit 1));
               (js "maxOutputTokens", JNum maxOutputTokens)])].

(** The body of the request of [fetchSuggestions(query)]. *)
Definition suggestions_request (query : jsstring) : jsstring :=
  JSON_stringify
    (generate_request (suggestions_prompt query)
       (decimal_to_double false 4 (-1)) (num_lit 100)) 0.

(** The body of the request of a call of [handleAddFood]. *)
Definition nutrition_request (c : add_call) : jsstring :=
  JSON_stringify
    (generate_request
       (nutrition_prompt (call_foodName c) (call_quantity c) (call_unit c))
       (decimal_to_double false 2 (-1)) (num_lit 150)) 0.

(** ** What is rendered *)

(** The list of suggestions is rendered under
    [showSuggestions && suggestions.length > 0]. *)
Definition dropdown_visible (s : state) : bool :=
  showSuggestions s && negb (Nat.eqb (List.length (suggestions s)) 0).

(** The [*] and [/] of two numbers. *)
Definition num_mul : number -> number -> number := SFmul prec emax.
Definition num_div : number -> number -> number := SFdiv prec emax.

(** [((total * kcal / totals.calories) * 100).toFixed(1)]: the share of the
    calories that a macro accounts for, at [kcal] per gram. *)
Definition calorie_share (total : number) (kcal : Z) (calories : number)
    : jsstring :=
  toFixed 1
    (num_mul (num_div (num_mul total (num_lit kcal)) calories) (num_lit 100)).

(** The text of one entry of the legend of the chart:
    [Protein: {totals.protein}g ({share}%)]. *)
Definition legend_text (label : string) (total : number) (share : jsstring)
    : jsstring :=
  js label ++ js ": " ++ Number_toString total ++ js "g (" ++ share ++ js "%)".

(** The legend of the macro chart, rendered under [foodItems.length > 0]:
    protein and carbs at 4 kcal per gram, fat at 9. *)
Definition macro_legend (items : list FoodItem.t) : list jsstring :=
  match items with
  | [] => []
  | _ =>
      let t := totals items in
      [legend_text "Protein" (Totals.protein t)
         (calorie_share (Totals.protein t) 4 (Totals.calories t));
       legend_text "Carbs" (Totals.carbs t)
         (calorie_share (Totals.carbs t) 4 (Totals.calories t));
       legend_text "Fat" (Totals.fat t)
         (calorie_share (Totals.fat t) 9 (Totals.calories t))]
  end.

(** ** Vocabulary of the further statements *)

(** White space only (the empty string included): what [trim] empties. *)
Definition all_space (s : jsstring) : bool := forallb is_js_space s.

(** The call that a click on Add makes in the state [s]. *)
Definition call_of (s : state) : add_call :=
  {| call_foodName := foodName s; call_quantity := quantity s;
     call_unit := unit s; call_foodItems := foodItems s |}.

(** A reply of the provider for a banana, its text inside a code fence. *)
Definition banana_reply : reply :=
  FetchBody
    (jsq "{'candidates':[{'content':{'parts':[{'text':'```json\n{\'name\':\'Banana\',\'calories\':105,\'protein\':1.3,\'carbs\':27,\'fat\':0.4,\'weight\':118}\n```'}]}}]}").

(** Replies whose text is JSON but no food item: [null], and an object with
    a name only. *)
Definition reply_null : reply :=
  FetchBody (jsq "{'candidates':[{'content':{'parts':[{'text':'null'}]}}]}").

Definition reply_name_only : reply :=
  FetchBody
    (jsq "{'candidates':[{'content':{'parts':[{'text':'{\'name\':\'Tea\'}'}]}}]}").

(** A reply with two suggestions, the second of which is one space. *)
Definition reply_with_blank : reply :=
  FetchBody
    (jsq "{'candidates':[{'content':{'parts':[{'text':'[\'Almond\',\' \']'}]}}]}").



(** The messages the component can show. *)
Definition known_messages : list jsstring :=
  [[]; empty_name_message; fetch_failed_message; invalid_format_message;
   import_failed_message].

(** Typing: each text is entered, then some time passes. *)
Fixpoint typing (changes : list (jsstring * N)) : list event :=
  match changes with
  | [] => []
  | (text, dt) :: r => ChangeFoodName text :: Elapse dt :: typing r
  end.

(** Every text differs from the one before it, [prev] being before the
    first. *)
Fixpoint each_differs (prev : jsstring) (texts : list jsstring) : Prop :=
  match texts with
  | [] => True
  | q :: r => q <> prev /\ each_differs q r
  end.

(** The lookup the debounce timeout starts for the text [q]: none when [q]
    is empty or white space. *)
Definition lookup_for (q : jsstring) : list jsstring :=
  match q, trim q with
  | _ :: _, _ :: _ => [q]
  | _, _ => []
  end.

(** All pending lookups are for names that are not blank. *)
Definition pending_nonblank (s : state) : Prop :=
  Forall (fun q => trim q <> []) (suggestionFetches s)
  /\ Forall (fun c => trim (call_foodName c) <> []) (nutritionFetches s).

(** A pending debounce timeout is the one of the current text. *)
Definition timer_current (s : state) : Prop :=
  forall d q,
    debounceTimer s = Some (d, q) ->
    q = foodName s /\ (0 < d <= debounce_delay)%N.

(** A list of suggestions that is hidden is empty. *)
Definition hidden_is_empty (s : state) : Prop :=
  showSuggestions s = false -> suggestions s = [].

(** What JSON text keeps of a number: one that is not finite is written
    [null], and the negative zero is written [0]. *)
Definition json_of_number (x : number) : jsval :=
  match x with
  | S754_zero _ => JNum (S754_zero false)
  | S754_finite _ _ _ => JNum x
  | _ => JNull
  end.

(** What the exported text keeps of an item. *)
Definition exported (e : FoodItem.t) : jsval :=
  JObj [(js "name", JStr (FoodItem.name e));
        (js "calories", json_of_number (FoodItem.calories e));
        (js "protein", json_of_number (FoodItem.protein e));
        (js "carbs", json_of_number (FoodItem.carbs e));
        (js "fat", json_of_number (FoodItem.fat e));
        (js "weight", json_of_number (FoodItem.weight e))].

Definition item_finite (e : FoodItem.t) : bool :=
  is_finite (FoodItem.calories e) && is_finite (FoodItem.protein e)
  && is_finite (FoodItem.carbs e) && is_finite (FoodItem.fat e)
  && is_finite (FoodItem.weight e).

(** An item whose five numbers are binary64 values. *)
Definition wf_item (e : FoodItem.t) : Prop :=
  wf_number (FoodItem.calories e) /\ wf_number (FoodItem.protein e)
  /\ wf_number (FoodItem.carbs e) /\ wf_number (FoodItem.fat e)
  /\ wf_number (FoodItem.weight e).

(** An item whose weight is the negative zero. *)
Definition spill : FoodItem.t :=
  {| FoodItem.name := js "Spill";
     FoodItem.calories := num_zero;
     FoodItem.protein := num_zero;
     FoodItem.carbs := num_zero;
     FoodItem.fat := num_zero;
     FoodItem.weight := S754_zero true |}.

(** Black coffee: no calories, 0.3 g of protein. *)
Definition coffee : FoodItem.t :=
  {| FoodItem.name := js "Coffee";
     FoodItem.calories := num_zero;
     FoodItem.protein := decimal_to_double false 3 (-1);
     FoodItem.carbs := num_zero;
     FoodItem.fat := num_zero;
     FoodItem.weight := decimal_to_double false 240 0 |}.

(** The text has no backtick. *)
Definition no_backtick (t : jsstring) : Prop :=
  forallb (fun c => negb (N.eqb c 96)) t = true.

(** The shares the legend shows when nothing can be divided. *)
Definition no_share : list jsstring :=
  [js "NaN"; js "Infinity"; js "-Infinity"].

(** [p / q] in tenths, rounded to the nearest integer, a half going up. *)
Definition tenths (p q : Z) : Z := (2 * p * 10 + q) / (2 * q).

(** The rest of a lexer's result, before the text [w]. *)
Definition with_rest {A : Type} (w : jsstring) (o : option (A * jsstring))
    : option (A * jsstring) :=
  match o with
  | Some (a, r) => Some (a, r ++ w)
  | None => None
  end.

Definition lexed_with (w : jsstring) (l : lexed) : lexed :=
  match l with
  | LexTok t r => LexTok t (r ++ w)
  | _ => l
  end.

(* ================================================================== *)
(** * Part II: properties *)
(* ================================================================== *)

(** ** Strings *)

Lemma str_eqb_spec (a b : jsstring) : str_eqb a b = true <-> a = b.
Proof.
  revert b; induction a as [|x a IH]; intros [|y b]; simpl; split;
    try congruence; try reflexivity.
  - intros H. apply andb_true_iff in H as [Hx Hr].
    apply N.eqb_eq in Hx. apply IH in Hr. now subst.
  - intros H. injection H as -> ->. rewrite N.eqb_refl. simpl. now apply IH.
Qed.

Lemma str_eqb_neq (a b : jsstring) : a <> b -> str_eqb a b = false.
Proof.
  intros H. destruct (str_eqb a b) eqn:E; [|reflexivity].
  apply str_eqb_spec in E. contradiction.
Qed.

(** ** Import: what [item_valid] accepts *)

(** The test of [importDiet] accepts exactly the values that have the six
    properties of a [FoodItem] with their types; it throws on [null]. *)
Lemma item_valid_spec (v : jsval) :
  item_valid v =
    match v with
    | JNull => Throw TypeError
    | _ => Ok (match FoodItem.of_value v with Some _ => true | None => false end)
    end.
Proof.
  destruct v as [| b | x | s | items | props]; try reflexivity.
  unfold item_valid, has_type, and_then, bind, get, FoodItem.of_value.
  destruct (lookup (js "name") props) as [[]|]; try reflexivity.
  destruct (lookup (js "calories") props) as [[]|]; try reflexivity.
  destruct (lookup (js "protein") props) as [[]|]; try reflexivity.
  destruct (lookup (js "carbs") props) as [[]|]; try reflexivity.
  destruct (lookup (js "fat") props) as [[]|]; try reflexivity.
  destruct (lookup (js "weight") props) as [[]|]; reflexivity.
Qed.

(** The element [every item_valid] stops at lacks one of the six typed
    properties (or is [null]); the test passes when there is none. *)
Lemma first_invalid_none (items : list jsval) :
  first_invalid items = None -> every item_valid items = Ok true.
Proof.
  induction items as [|x r IH]; simpl; [reflexivity|].
  destruct (item_valid x) as [[|]|e]; try discriminate.
  intros H. simpl. now apply IH.
Qed.

Lemma first_invalid_some (items : list jsval) (v : jsval) :
  first_invalid items = Some v ->
  every item_valid items =
    match v with JNull => Throw TypeError | _ => Ok false end
  /\ FoodItem.of_value v = None.
Proof.
  induction items as [|x r IH]; simpl; [discriminate|].
  destruct (item_valid x) as [[|]|e] eqn:E; simpl.
  - apply IH.
  - intros [= ->]. rewrite item_valid_spec in E.
    destruct v; try discriminate E; (split; [reflexivity|]);
      try reflexivity.
    destruct (FoodItem.of_value (JObj props)); [discriminate E|reflexivity].
  - intros [= ->]. rewrite item_valid_spec in E.
    destruct v; try discriminate E. now split.
Qed.

Lemma first_invalid_typed (items : list jsval) :
  Forall (fun v => FoodItem.of_value v <> None) items ->
  first_invalid items = None.
Proof.
  induction 1 as [|x r Hx _ IH]; [reflexivity|].
  cbn [first_invalid]. rewrite item_valid_spec.
  destruct x; try (exfalso; apply Hx; reflexivity).
  destruct (FoodItem.of_value (JObj props)); [exact IH|congruence].
Qed.

(** What [reader.onload] does, case by case. *)
Lemma importDiet_onload_cases (content : jsstring) (s : state) :
  importDiet_onload content s =
    match JSON_parse content with
    | Throw _ => setError import_failed_message s
    | Ok (JArr items) =>
        match first_invalid items with
        | None => setFoodItems items s
        | Some JNull => setError import_failed_message s
        | Some _ => setError invalid_format_message s
        end
    | Ok _ => setError import_failed_message s
    end.
Proof.
  unfold importDiet_onload.
  destruct (JSON_parse content) as [v|e]; simpl; [|reflexivity].
  destruct v as [| b | x | t | items | props]; try reflexivity.
  simpl. destruct (first_invalid items) as [v|] eqn:E.
  - apply first_invalid_some in E as [-> _]. now destruct v.
  - now rewrite (first_invalid_none _ E).
Qed.

(** ** Frame of the state setters *)

Lemma setFoodName_frame (v : jsstring) (s : state) :
  foodItems (setFoodName v s) = foodItems s
  /\ isLoading (setFoodName v s) = isLoading s
  /\ error (setFoodName v s) = error s
  /\ suggestions (setFoodName v s) = suggestions s
  /\ suggestionFetches (setFoodName v s) = suggestionFetches s
  /\ nutritionFetches (setFoodName v s) = nutritionFetches s.
Proof. unfold setFoodName. now destruct (str_eqb v (foodName s)). Qed.

Lemma fetchSuggestions_frame (q : jsstring) (s : state) :
  foodItems (fetchSuggestions q s) = foodItems s
  /\ isLoading (fetchSuggestions q s) = isLoading s
  /\ error (fetchSuggestions q s) = error s
  /\ nutritionFetches (fetchSuggestions q s) = nutritionFetches s.
Proof. unfold fetchSuggestions. now destruct (trim q). Qed.

Lemma debounce_fire_frame (q : jsstring) (s : state) :
  foodItems (debounce_fire q s) = foodItems s
  /\ isLoading (debounce_fire q s) = isLoading s
  /\ error (debounce_fire q s) = error s
  /\ nutritionFetches (debounce_fire q s) = nutritionFetches s.
Proof.
  destruct q as [|c q]; [now cbn|]. apply fetchSuggestions_frame.
Qed.

Lemma fetchSuggestions_settle_frame (r : reply) (s : state) :
  foodItems (fetchSuggestions_settle r s) = foodItems s
  /\ isLoading (fetchSuggestions_settle r s) = isLoading s
  /\ error (fetchSuggestions_settle r s) = error s
  /\ nutritionFetches (fetchSuggestions_settle r s) = nutritionFetches s.
Proof. unfold fetchSuggestions_settle. now destruct (suggestions_of_reply r). Qed.

Lemma handleSelectSuggestion_frame (n : jsstring) (s : state) :
  foodItems (handleSelectSuggestion n s) = foodItems s
  /\ isLoading (handleSelectSuggestion n s) = isLoading s
  /\ error (handleSelectSuggestion n s) = error s
  /\ nutritionFetches (handleSelectSuggestion n s) = nutritionFetches s.
Proof.
  unfold handleSelectSuggestion. cbn.
  destruct (setFoodName_frame n s) as (H1 & H2 & H3 & _ & _ & H6). auto.
Qed.

Lemma importDiet_frame (file : option jsstring) (s : state) :
  isLoading (importDiet file s) = isLoading s
  /\ nutritionFetches (importDiet file s) = nutritionFetches s
  /\ (error (importDiet file s) = error s
      \/ error (importDiet file s) = invalid_format_message
      \/ error (importDiet file s) = import_failed_message).
Proof.
  destruct file as [content|]; cbn [importDiet]; [|auto].
  rewrite importDiet_onload_cases.
  destruct (JSON_parse content) as [[| | | | items |]|]; cbn; auto.
  destruct (first_invalid items) as [[]|]; cbn; auto.
Qed.

(** ** C8: a blank name *)

(** C8. For every state whose food name is blank after trimming (the empty
    name included), [handleAddFood] only sets the error message "Please
    enter a food name": no lookup is started, and the ledger, the loading
    flag and everything else stay as they were. *)
Theorem handleAddFood_blank_name (s : state) :
  trim (foodName s) = [] ->
  handleAddFood s = setError empty_name_message s
  /\ error (handleAddFood s) <> []
  /\ nutritionFetches (handleAddFood s) = nutritionFetches s
  /\ foodItems (handleAddFood s) = foodItems s
  /\ isLoading (handleAddFood s) = isLoading s.
Proof.
  intros H. unfold handleAddFood. rewrite H. cbn.
  repeat split. discriminate.
Qed.

(** The empty name, and a name of white space only, in the initial state. *)
Lemma handleAddFood_blank_name_witness :
  (handleAddFood initial_state = setError empty_name_message initial_state
   /\ nutritionFetches (handleAddFood initial_state) = [])
  /\ nutritionFetches
       (handleAddFood (setFoodName [32; 9; 160; 10]%N initial_state)) = [].
Proof.
  split.
  - destruct (handleAddFood_blank_name initial_state) as (H1 & _ & H3 & _);
      [reflexivity|]. split; [exact H1|exact H3].
  - destruct (handleAddFood_blank_name
                (setFoodName [32; 9; 160; 10]%N initial_state))
      as (_ & _ & H3 & _); [reflexivity|exact H3].
Defined.

(** ** C3: the two ways an import fails *)

(** C3, where the code departs from the claim: the files [[null]] and
    [[{}]] are both well-formed JSON whose only entry has none of the six
    fields. For [[{}]] the validation answers [false] and the message is
    "Invalid diet plan format". For [[null]] the validation callback throws
    on [item.name], the [catch] that is there for [JSON.parse] takes the
    exception, and the message is that of a parse failure. The ledger is
    left as it was by both. *)
Lemma import_null_entry_reported_as_parse_failure :
  (JSON_parse (js "[{}]") = Ok (JArr [JObj []])
   /\ FoodItem.of_value (JObj []) = None
   /\ item_valid (JObj []) = Ok false
   /\ error (importDiet_onload (js "[{}]") initial_state)
      = invalid_format_message)
  /\ (JSON_parse (js "[null]") = Ok (JArr [JNull])
      /\ FoodItem.of_value JNull = None
      /\ item_valid JNull = Throw TypeError
      /\ error (importDiet_onload (js "[null]") initial_state)
         = import_failed_message)
  /\ foodItems (importDiet_onload (js "[null]") initial_state)
     = foodItems initial_state
  /\ import_failed_message <> invalid_format_message.
Proof. repeat split; try reflexivity; discriminate. Qed.

(** C3, the code as it is. An import fails in one of two ways, told apart
    by their message, and neither touches the ledger. "Invalid diet plan
    format" is set when the first entry that is not a valid item is a value
    other than [null]. "Failed to import diet plan..." is set when the text
    is not JSON and when it is JSON but not an array; it is also set when
    that first entry is [null], which is the case in which the code does
    not do what the claim says. Otherwise the import succeeds. *)
Theorem importDiet_failure_kinds (content : jsstring) (s : state) :
  importDiet_onload content s =
    match JSON_parse content with
    | Throw _ => setError import_failed_message s
    | Ok (JArr items) =>
        match first_invalid items with
        | None => setFoodItems items s
        | Some JNull => setError import_failed_message s
        | Some _ => setError invalid_format_message s
        end
    | Ok _ => setError import_failed_message s
    end
  /\ (forall items v,
        first_invalid items = Some v ->
        In v items /\ FoodItem.of_value v = None)
  /\ (forall items,
        first_invalid items = None <->
        Forall (fun v => FoodItem.of_value v <> None) items)
  /\ foodItems (setError import_failed_message s) = foodItems s
  /\ foodItems (setError invalid_format_message s) = foodItems s
  /\ invalid_format_message <> import_failed_message.
Proof.
  split; [apply importDiet_onload_cases|].
  split.
  { intros items v H. split; [|now apply first_invalid_some in H].
    induction items as [|x r IH]; [discriminate|]. cbn in H.
    destruct (item_valid x) as [[|]|];
      [right; now apply IH | left; congruence | left; congruence]. }
  split.
  { intros items. split; [|apply first_invalid_typed].
    induction items as [|x r IH]; [constructor|]. cbn [first_invalid].
    rewrite item_valid_spec. intros H. destruct x; try discriminate H;
      try (destruct (FoodItem.of_value _) eqn:E in H; [|discriminate H]).
    all: try discriminate E.
    constructor; [rewrite E; discriminate|now apply IH]. }
  repeat split. discriminate.
Qed.

(** ** C9: the import checks types only *)

(** C9. Whatever text parses to an array whose elements all have the six
    properties with their JavaScript types is imported: the ledger becomes
    that array and nothing else changes. Nothing is asked of the values:
    the name may be empty and the numbers negative. *)
Theorem importDiet_checks_types_only
    (content : jsstring) (items : list jsval) (s : state) :
  JSON_parse content = Ok (JArr items) ->
  Forall (fun v => FoodItem.of_value v <> None) items ->
  importDiet_onload content s = setFoodItems items s.
Proof.
  intros Hp Ht. rewrite importDiet_onload_cases, Hp.
  now rewrite (first_invalid_typed _ Ht).
Qed.

(** A file whose item has the empty name and negative numbers. *)
Definition odd_file : jsstring :=
  jsq "[{'name':'','calories':-5,'protein':-1.5,'carbs':-0.1,'fat':-2,'weight':-100}]".

Definition odd_item : FoodItem.t :=
  {| FoodItem.name := [];
     FoodItem.calories := decimal_to_double true 5 0;
     FoodItem.protein := decimal_to_double true 15 (-1);
     FoodItem.carbs := decimal_to_double true 1 (-1);
     FoodItem.fat := decimal_to_double true 2 0;
     FoodItem.weight := decimal_to_double true 100 0 |}.

Lemma importDiet_checks_types_only_witness :
  foodItems (importDiet_onload odd_file initial_state)
  = [FoodItem.to_value odd_item]
  /\ error (importDiet_onload odd_file initial_state) = [].
Proof.
  rewrite (importDiet_checks_types_only odd_file
             [FoodItem.to_value odd_item] initial_state).
  - split; reflexivity.
  - vm_compute. reflexivity.
  - repeat constructor. discriminate.
Defined.

(** ** C10: who touches the error message *)

(** C10. A successful import changes the ledger and nothing else: an error
    message set before it is still there after it. An event leaves an empty
    error message behind a non-empty one only when it is a click on Add
    that starts a lookup ([fetchNutritionInfo], with nothing loading and a
    name that is not blank). *)
Theorem error_cleared_only_by_add (s : state) :
  (forall content items,
      JSON_parse content = Ok (JArr items) ->
      first_invalid items = None ->
      importDiet_onload content s = setFoodItems items s
      /\ error (importDiet_onload content s) = error s)
  /\ (forall e,
        error s <> [] -> error (step s e) = [] ->
        e = ClickAdd /\ isLoading s = false /\ trim (foodName s) <> []).
Proof.
  split.
  - intros content items Hp Hv.
    rewrite importDiet_onload_cases, Hp, Hv. now split.
  - intros e Hne Hclr. destruct e; cbn [step] in Hclr.
    + destruct (setFoodName_frame text s) as (_ & _ & H & _). congruence.
    + cbn in Hclr. congruence.
    + cbn in Hclr. congruence.
    + cbn in Hclr. congruence.
    + destruct (isLoading s) eqn:L; [congruence|].
      unfold handleAddFood in Hclr.
      destruct (trim (foodName s)) eqn:T; [discriminate Hclr|].
      repeat split. discriminate.
    + destruct (showSuggestions s); [|congruence].
      destruct (nth_error (suggestions s) i) as [[[]]|]; try congruence.
      destruct (handleSelectSuggestion_frame s0 s) as (_ & _ & H & _).
      congruence.
    + destruct (importDiet_frame file s) as (_ & _ & [H|[H|H]]);
        rewrite H in Hclr; [congruence|discriminate|discriminate].
    + destruct (debounceTimer s) as [[delay name]|]; [|congruence].
      destruct (delay <=? dt)%N; [|cbn in Hclr; congruence].
      destruct (debounce_fire_frame name (with_debounceTimer None s))
        as (_ & _ & H & _). cbn in H. congruence.
    + destruct (nth_error (suggestionFetches s) i); [|congruence].
      match type of Hclr with
      | error (fetchSuggestions_settle ?r ?t) = _ =>
          destruct (fetchSuggestions_settle_frame r t) as (_ & _ & H & _)
      end.
      cbn in H. congruence.
    + destruct (nth_error (nutritionFetches s) i) as [c|]; [|congruence].
      unfold handleAddFood_settle in Hclr.
      destruct (reply_payload r); [|discriminate Hclr].
      cbn in Hclr.
      match type of Hclr with
      | error (setFoodName ?v ?t) = _ =>
          destruct (setFoodName_frame v t) as (_ & _ & H & _)
      end.
      cbn in H. congruence.
Qed.

(** An import that fails, then one that succeeds: the message of the first
    is still shown; then a click on Add with a name clears it. *)
Lemma error_cleared_only_by_add_witness :
  let s1 := step initial_state (ImportFile (Some (js "oops"))) in
  let s2 := step s1 (ImportFile (Some odd_file)) in
  let s3 := step (setFoodName (js "egg") s2) ClickAdd in
  error s1 = import_failed_message
  /\ error s2 = import_failed_message
  /\ foodItems s2 = [FoodItem.to_value odd_item]
  /\ error s3 = []
  /\ isLoading (setFoodName (js "egg") s2) = false.
Proof.
  cbv zeta.
  set (s1 := step initial_state (ImportFile (Some (js "oops")))).
  set (s2 := step s1 (ImportFile (Some odd_file))).
  set (s3 := step (setFoodName (js "egg") s2) ClickAdd).
  assert (E1 : error s1 = import_failed_message) by reflexivity.
  destruct (error_cleared_only_by_add s1) as [Himp _].
  destruct (Himp odd_file [FoodItem.to_value odd_item]) as [Hs He];
    [vm_compute; reflexivity | reflexivity |].
  destruct (error_cleared_only_by_add (setFoodName (js "egg") s2))
    as [_ Hclr].
  destruct (Hclr ClickAdd) as (_ & Hl & _);
    [vm_compute; discriminate | vm_compute; reflexivity |].
  refine (conj E1 (conj _ (conj _ (conj _ Hl)))).
  - change (error s2) with (error (importDiet_onload odd_file s1)).
    rewrite He. exact E1.
  - change (foodItems s2) with (foodItems (importDiet_onload odd_file s1)).
    rewrite Hs. reflexivity.
  - vm_compute. reflexivity.
Defined.

(** ** C4: a lookup that fails *)

Lemma nth_error_last {A : Type} (l : list A) (x : A) :
  nth_error (l ++ [x]) (List.length l) = Some x.
Proof. induction l; simpl; auto. Qed.

Lemma remove_nth_last {A : Type} (l : list A) (x : A) :
  remove_nth (List.length l) (l ++ [x]) = l.
Proof. induction l; simpl; congruence. Qed.

(** C4, the claim at a reply whose text is JSON but no food item, here
    the object with a name only: the provider's response is malformed, yet
    no exception is raised anywhere, the object goes into the ledger and no
    error message is set. *)
Lemma malformed_reply_is_appended :
  let s := setFoodName (js "Tea") initial_state in
  let s' := run s [ClickAdd; NutritionReply 0 reply_name_only] in
  reply_payload reply_name_only = Ok (JObj [(js "name", JStr (js "Tea"))])
  /\ FoodItem.of_value (JObj [(js "name", JStr (js "Tea"))]) = None
  /\ foodItems s = []
  /\ foodItems s' = [JObj [(js "name", JStr (js "Tea"))]]
  /\ error s' = []
  /\ isLoading s' = false.
Proof. vm_compute. repeat split. Qed.

(** C4 (amended). A click on Add with a name that is not blank, when
    nothing is loading, starts a lookup, and the reply to it is treated in
    one of two ways. If an exception is raised on the way to the parsed
    payload (the fetch rejects, the body is no JSON, the body has not the
    expected shape, or its text is no JSON), then once it has failed the
    ledger and its totals are what they were before the click, the error
    message is the non-empty "Failed to fetch nutrition information. Please
    try again.", and nothing is loading; and whatever happened in between,
    the failure itself leaves the ledger of the state it arrives in as it
    is. If the text is JSON, then its value, which is not looked at, is what
    [setFoodItems] is given after the ledger of the click, no error message
    is set, and nothing is loading. *)
Theorem add_food_failure (s : state) (r : reply) :
  isLoading s = false ->
  trim (foodName s) <> [] ->
  let s' :=
    run s [ClickAdd; NutritionReply (List.length (nutritionFetches s)) r] in
  match reply_payload r with
  | Throw _ =>
      (foodItems s' = foodItems s
       /\ shown_totals s' = shown_totals s
       /\ error s' = fetch_failed_message
       /\ error s' <> []
       /\ isLoading s' = false
       /\ nutritionFetches s' = nutritionFetches s)
      /\ (forall c t,
            foodItems (handleAddFood_settle c r t) = foodItems t
            /\ shown_totals (handleAddFood_settle c r t) = shown_totals t
            /\ error (handleAddFood_settle c r t) = fetch_failed_message
            /\ isLoading (handleAddFood_settle c r t) = false)
  | Ok v =>
      foodItems s' = foodItems s ++ [v]
      /\ error s' = []
      /\ isLoading s' = false
      /\ nutritionFetches s' = nutritionFetches s
  end.
Proof.
  intros Hl Hn. cbv zeta. cbn [run fold_left step]. rewrite Hl.
  unfold handleAddFood. destruct (trim (foodName s)) eqn:T; [congruence|].
  cbn [nutritionFetches with_nutritionFetches].
  rewrite nth_error_last, remove_nth_last.
  unfold handleAddFood_settle.
  destruct (reply_payload r) as [v|e].
  - unfold setFoodName. cbn.
    destruct (foodName s) as [|c q]; [discriminate T|]. cbn. repeat split.
  - split.
    + unfold shown_totals. cbn. repeat split. discriminate.
    + intros c t. unfold shown_totals. cbn. repeat split.
Qed.

(** The four ways to fail, each after typing "egg" in the initial state. *)
Lemma add_food_failure_witness :
  let s := setFoodName (js "egg") initial_state in
  Forall
    (fun r =>
       let s' := run s [ClickAdd; NutritionReply 0 r] in
       foodItems s' = [] /\ error s' = fetch_failed_message
       /\ isLoading s' = false)
    [FetchFailed; reply_not_json; FetchBody (js "{}"); reply_prose].
Proof.
  cbv zeta.
  assert (H : forall r e, reply_payload r = Throw e ->
    let s' := run (setFoodName (js "egg") initial_state)
                [ClickAdd; NutritionReply 0 r] in
    foodItems s' = [] /\ error s' = fetch_failed_message
    /\ isLoading s' = false).
  { intros r e Hr.
    pose proof (add_food_failure (setFoodName (js "egg") initial_state) r
                  eq_refl) as H.
    cbv zeta in H. rewrite Hr in H.
    destruct H as ((H1 & _ & H3 & _ & H5 & _) & _);
      [vm_compute; discriminate|].
    cbv zeta. auto. }
  apply Forall_cons; [apply (H FetchFailed FetchError); reflexivity|].
  apply Forall_cons;
    [apply (H reply_not_json SyntaxError); vm_compute; reflexivity|].
  apply Forall_cons;
    [apply (H (FetchBody (js "{}")) TypeError); vm_compute; reflexivity|].
  apply Forall_cons;
    [apply (H reply_prose SyntaxError); vm_compute; reflexivity|].
  apply Forall_nil.
Defined.

(** ** C5: single flight *)

Lemma single_flight_frame (s t : state) :
  isLoading t = isLoading s ->
  nutritionFetches t = nutritionFetches s ->
  single_flight s -> single_flight t.
Proof. unfold single_flight. intros -> ->. auto. Qed.

Lemma step_single_flight (s : state) (e : event) :
  single_flight s -> single_flight (step s e).
Proof.
  intros H. destruct e; cbn [step].
  - destruct (setFoodName_frame text s) as (_ & H2 & _ & _ & _ & H6).
    now apply (single_flight_frame s).
  - now apply (single_flight_frame s).
  - now apply (single_flight_frame s).
  - now apply (single_flight_frame s).
  - destruct (isLoading s) eqn:L; [exact H|].
    destruct H as [[_ Hf]|[Hl _]]; [|congruence].
    unfold handleAddFood. destruct (trim (foodName s)).
    + left. now split.
    + right. split; [reflexivity|]. cbn. rewrite Hf. cbn. eauto.
  - destruct (showSuggestions s); [|exact H].
    destruct (nth_error (suggestions s) i) as [[[]]|]; try exact H.
    destruct (handleSelectSuggestion_frame s0 s) as (_ & H2 & _ & H4).
    now apply (single_flight_frame s).
  - destruct (importDiet_frame file s) as (H1 & H2 & _).
    now apply (single_flight_frame s).
  - destruct (debounceTimer s) as [[delay name]|]; [|exact H].
    destruct (delay <=? dt)%N; [|now apply (single_flight_frame s)].
    destruct (debounce_fire_frame name (with_debounceTimer None s))
      as (_ & H2 & _ & H4).
    now apply (single_flight_frame s).
  - destruct (nth_error (suggestionFetches s) i); [|exact H].
    match goal with
    | |- single_flight (fetchSuggestions_settle ?r ?t) =>
        destruct (fetchSuggestions_settle_frame r t) as (_ & H2 & _ & H4)
    end.
    now apply (single_flight_frame s).
  - destruct (nth_error (nutritionFetches s) i) as [c|] eqn:N; [|exact H].
    left. destruct H as [[_ Hf]|[_ [c' Hf]]]; rewrite Hf in N.
    + destruct i; discriminate N.
    + destruct i as [|[|i]]; try discriminate N.
      rewrite Hf. unfold handleAddFood_settle.
      destruct (reply_payload r); cbn [remove_nth].
      * cbn.
        match goal with
        | |- context [setFoodName ?v ?t] =>
            destruct (setFoodName_frame v t) as (_ & H2 & _ & _ & _ & H6)
        end.
        now rewrite H2, H6.
      * now cbn.
Qed.

Lemma run_single_flight (es : list event) (s : state) :
  single_flight s -> single_flight (run s es).
Proof.
  revert s; induction es as [|e es IH]; intros s H; [exact H|].
  apply IH. now apply step_single_flight.
Qed.

(** C5. At every point of every execution of the component at most one
    nutrition lookup is under way, and one is under way exactly while
    [isLoading] is set; a click on Add in that time starts nothing, the
    button being disabled: the state stays as it is. *)
Theorem add_is_single_flight (es : list event) :
  let s := run initial_state es in
  single_flight s
  /\ (List.length (nutritionFetches s) <= 1)%nat
  /\ (isLoading s = true -> step s ClickAdd = s).
Proof.
  cbv zeta.
  assert (H : single_flight (run initial_state es)).
  { apply run_single_flight. left. now split. }
  split; [exact H|]. split.
  - destruct H as [[_ ->]|[_ [c ->]]]; cbn; lia.
  - intros L. cbn [step]. now rewrite L.
Qed.

(** ** C6: a reply that comes late *)

(** C6, the claim on a trace: "a" is typed and its lookup starts, "ap" is
    typed and its lookup starts, the reply for "ap" comes and then the reply
    for "a". The late reply replaces the suggestions found for "ap" while
    the query still is "ap". *)
Lemma late_reply_overwrites :
  let s := run initial_state
             [ChangeFoodName (js "a"); Elapse 300;
              ChangeFoodName (js "ap"); Elapse 300;
              SuggestionsReply 1 reply_for_ap] in
  let s' := step s (SuggestionsReply 0 reply_for_a) in
  foodName s = js "ap"
  /\ suggestions s = named ["Apple"%string; "Apricot"%string]
  /\ suggestionFetches s = [js "a"]
  /\ foodName s' = js "ap"
  /\ suggestions s' = named ["Avocado"%string; "Almond"%string]
  /\ showSuggestions s' = true.
Proof. vm_compute. repeat split. Qed.

(** C6 (amended). A change of the query cancels the outstanding debounce
    timeout, replacing it by one for the new text, and leaves the lookups
    under way as they are. The reply of a lookup under way is written to
    the suggestions whenever it comes, whatever the query is by then. *)
Theorem change_cancels_timer_only (s : state) :
  (forall text,
      text <> foodName s ->
      debounceTimer (step s (ChangeFoodName text)) = Some (debounce_delay, text)
      /\ suggestionFetches (step s (ChangeFoodName text)) = suggestionFetches s)
  /\ (forall i q r found,
        nth_error (suggestionFetches s) i = Some q ->
        suggestions_of_reply r = Ok found ->
        suggestions (step s (SuggestionsReply i r)) = found
        /\ showSuggestions (step s (SuggestionsReply i r)) = true
        /\ foodName (step s (SuggestionsReply i r)) = foodName s).
Proof.
  split.
  - intros text H. cbn [step]. unfold setFoodName.
    rewrite (str_eqb_neq _ _ H). now split.
  - intros i q r found Hq Hr. cbn [step]. rewrite Hq.
    unfold fetchSuggestions_settle. rewrite Hr. now cbn.
Qed.

Lemma change_cancels_timer_only_witness :
  let s := run initial_state [ChangeFoodName (js "a"); Elapse 300; Elapse 10] in
  debounceTimer s = None
  /\ debounceTimer (step s (ChangeFoodName (js "ap")))
     = Some (debounce_delay, js "ap")
  /\ suggestionFetches (step s (ChangeFoodName (js "ap"))) = [js "a"]
  /\ suggestions
       (step (step s (ChangeFoodName (js "ap"))) (SuggestionsReply 0 reply_for_a))
     = named ["Avocado"%string; "Almond"%string].
Proof.
  cbv zeta.
  set (s := run initial_state [ChangeFoodName (js "a"); Elapse 300; Elapse 10]).
  destruct (change_cancels_timer_only s) as [Hc _].
  destruct (Hc (js "ap")) as [Ht Hf]; [vm_compute; discriminate|].
  destruct (change_cancels_timer_only (step s (ChangeFoodName (js "ap"))))
    as [_ Hr].
  destruct (Hr 0%nat (js "a") reply_for_a (named ["Avocado"%string; "Almond"%string]))
    as (Hs & _ & _); [vm_compute; reflexivity | vm_compute; reflexivity |].
  refine (conj _ (conj Ht (conj _ Hs))).
  - vm_compute. reflexivity.
  - rewrite Hf. vm_compute. reflexivity.
Defined.

(** ** C7: the debounce *)

Lemma change_facts (s : state) (q : jsstring) :
  q <> foodName s ->
  foodName (step s (ChangeFoodName q)) = q
  /\ debounceTimer (step s (ChangeFoodName q)) = Some (debounce_delay, q)
  /\ suggestionFetches (step s (ChangeFoodName q)) = suggestionFetches s.
Proof.
  intros H. cbn [step]. unfold setFoodName.
  rewrite (str_eqb_neq _ _ H). now cbn.
Qed.

Lemma elapse_short (s : state) (dt d : N) (q : jsstring) :
  debounceTimer s = Some (d, q) -> (dt < d)%N ->
  foodName (step s (Elapse dt)) = foodName s
  /\ debounceTimer (step s (Elapse dt)) = Some ((d - dt)%N, q)
  /\ suggestionFetches (step s (Elapse dt)) = suggestionFetches s.
Proof.
  intros H Hlt. cbn [step]. rewrite H.
  destruct (N.leb_spec d dt) as [Hle|_]; [lia|]. now cbn.
Qed.

Lemma elapse_fire (s : state) (T d : N) (q : jsstring) :
  debounceTimer s = Some (d, q) -> (d <= T)%N ->
  suggestionFetches (step s (Elapse T))
  = suggestionFetches s
      ++ match q, trim q with
         | _ :: _, _ :: _ => [q]
         | _, _ => []
         end.
Proof.
  intros H Hle. cbn [step]. rewrite H.
  destruct (N.leb_spec d T) as [_|Hlt]; [|lia].
  destruct q as [|c q]; cbn [debounce_fire].
  - cbn. now rewrite app_nil_r.
  - unfold fetchSuggestions. destruct (trim (c :: q)); cbn.
    + now rewrite app_nil_r.
    + reflexivity.
Qed.

Lemma debounce_two_changes (s : state) (q1 q2 : jsstring) (dt T : N) :
  q1 <> foodName s -> q2 <> q1 -> (dt < debounce_delay)%N ->
  suggestionFetches
    (run s [ChangeFoodName q1; Elapse dt; ChangeFoodName q2; Elapse T])
  = suggestionFetches s
      ++ (if (debounce_delay <=? T)%N
          then match q2, trim q2 with
               | _ :: _, _ :: _ => [q2]
               | _, _ => []
               end
          else []).
Proof.
  intros H1 H2 Hdt. cbn [run fold_left].
  destruct (change_facts s q1 H1) as (N1 & T1 & F1).
  set (s1 := step s (ChangeFoodName q1)) in *.
  destruct (elapse_short s1 dt _ _ T1 Hdt) as (N2 & _ & F2).
  set (s2 := step s1 (Elapse dt)) in *.
  destruct (change_facts s2 q2) as (_ & T3 & F3); [congruence|].
  set (s3 := step s2 (ChangeFoodName q2)) in *.
  destruct (N.leb_spec debounce_delay T) as [Hle|Hlt].
  - rewrite (elapse_fire s3 T _ _ T3 Hle). congruence.
  - destruct (elapse_short s3 T _ _ T3 Hlt) as (_ & _ & F4).
    rewrite F4, app_nil_r. congruence.
Qed.

(** C7. From a state whose query is not yet "a": the query becomes "a" and,
    less than 300 time units later, "ap". Whatever time passes after that,
    the lookups that have been started are those of before and at most one
    more, for "ap", started once 300 time units have passed since the
    second change; none is started for "a". *)
Theorem debounce_a_then_ap (s : state) (dt T : N) :
  foodName s <> js "a" -> (dt < 300)%N ->
  suggestionFetches
    (run s [ChangeFoodName (js "a"); Elapse dt;
            ChangeFoodName (js "ap"); Elapse T])
  = suggestionFetches s ++ (if (300 <=? T)%N then [js "ap"] else []).
Proof.
  intros H Hdt.
  rewrite debounce_two_changes; [reflexivity|congruence|discriminate|exact Hdt].
Qed.

Lemma debounce_a_then_ap_witness :
  suggestionFetches
    (run initial_state [ChangeFoodName (js "a"); Elapse 299;
                        ChangeFoodName (js "ap"); Elapse 300])
  = [js "ap"]
  /\ suggestionFetches
       (run initial_state [ChangeFoodName (js "a"); Elapse 120;
                           ChangeFoodName (js "ap"); Elapse 299])
     = [].
Proof.
  split.
  - rewrite (debounce_a_then_ap initial_state 299 300);
      [reflexivity | discriminate | reflexivity].
  - rewrite (debounce_a_then_ap initial_state 120 299);
      [reflexivity | discriminate | reflexivity].
Defined.

(** ** C2: the totals *)

(** C2, the claim on a ledger of two pinches (0.04 g of protein each): the
    sum 0.08 rounds to 0.1, but the total shown is 0, each partial sum
    having been rounded on the way. *)
Lemma totals_round_every_step :
  Totals.protein (totals [pinch; pinch]) = num_zero
  /\ Totals.protein (totals_spec [pinch; pinch]) = decimal_to_double false 1 (-1)
  /\ totals [pinch; pinch] <> totals_spec [pinch; pinch].
Proof.
  split; [vm_compute; reflexivity|].
  split; [vm_compute; reflexivity|].
  intros H. apply (f_equal Totals.protein) in H. vm_compute in H.
  discriminate H.
Qed.

Lemma totals_fold (l : list FoodItem.t) (acc : Totals.t) :
  let t := fold_left totals_step l acc in
  Totals.calories t
  = fold_left num_add (List.map FoodItem.calories l) (Totals.calories acc)
  /\ Totals.protein t
     = fold_left add_fixed1 (List.map FoodItem.protein l) (Totals.protein acc)
  /\ Totals.carbs t
     = fold_left add_fixed1 (List.map FoodItem.carbs l) (Totals.carbs acc)
  /\ Totals.fat t
     = fold_left add_fixed1 (List.map FoodItem.fat l) (Totals.fat acc)
  /\ Totals.weight t
     = fold_left add_fixed1 (List.map FoodItem.weight l) (Totals.weight acc).
Proof.
  revert acc; induction l as [|x l IH]; intros acc; cbn zeta.
  - repeat split.
  - cbn [fold_left List.map]. apply (IH (totals_step acc x)).
Qed.

(** C2 (amended). For every ledger, appending an entry takes the totals
    through one step of the reduction; so the calories total is the
    left-to-right sum of the entries' calories, unrounded, and each of the
    protein, carbs, fat and weight totals is the running sum of that field
    in which every partial sum is rounded to one decimal. For the empty
    ledger all totals are zero. *)
Theorem totals_running_sums (entries : list FoodItem.t) (e : FoodItem.t) :
  totals [] = totals_zero
  /\ totals (entries ++ [e]) = totals_step (totals entries) e
  /\ Totals.calories (totals entries)
     = sum_numbers (List.map FoodItem.calories entries)
  /\ Totals.protein (totals entries)
     = running_fixed1 (List.map FoodItem.protein entries)
  /\ Totals.carbs (totals entries)
     = running_fixed1 (List.map FoodItem.carbs entries)
  /\ Totals.fat (totals entries)
     = running_fixed1 (List.map FoodItem.fat entries)
  /\ Totals.weight (totals entries)
     = running_fixed1 (List.map FoodItem.weight entries).
Proof.
  split; [reflexivity|]. split.
  - unfold totals. now rewrite fold_left_app.
  - apply (totals_fold entries totals_zero).
Qed.

(** ** Numbers: rounding *)

Lemma pow2_pos (n : Z) : 0 < 2 ^ n \/ 2 ^ n = 0.
Proof.
  destruct (Z.le_gt_cases 0 n) as [H|H].
  - left. now apply Z.pow_pos_nonneg.
  - right. now apply Z.pow_neg_r.
Qed.

Lemma pow_pos_max (b n : Z) : 0 < b -> 0 < b ^ Z.max 0 n.
Proof. intros H. apply Z.pow_pos_nonneg; lia. Qed.

Lemma ratio_ge_pow2_mono (p q a b : Z) :
  0 < p -> 0 < q -> a <= b -> ratio_ge_pow2 p q b -> ratio_ge_pow2 p q a.
Proof.
  unfold ratio_ge_pow2. intros Hp Hq Hab H.
  destruct (Z.le_gt_cases 0 a) as [Ha|Ha].
  - rewrite !Z.max_r, !Z.max_l in * by lia. rewrite Z.pow_0_r in *.
    assert (2 ^ a <= 2 ^ b) by (apply Z.pow_le_mono_r; lia). nia.
  - destruct (Z.le_gt_cases 0 b) as [Hb|Hb].
    + rewrite (Z.max_r 0 b), (Z.max_l 0 (- b)) in H by lia.
      rewrite (Z.max_l 0 a), (Z.max_r 0 (- a)) by lia.
      rewrite Z.pow_0_r in *.
      assert (0 < 2 ^ b) by (apply Z.pow_pos_nonneg; lia).
      assert (0 < 2 ^ (- a)) by (apply Z.pow_pos_nonneg; lia). nia.
    + rewrite (Z.max_l 0 b), (Z.max_r 0 (- b)) in H by lia.
      rewrite (Z.max_l 0 a), (Z.max_r 0 (- a)) by lia.
      rewrite Z.pow_0_r in *.
      assert (2 ^ (- b) <= 2 ^ (- a)) by (apply Z.pow_le_mono_r; lia). nia.
Qed.

Lemma ratio_ge_pow2_intro (p q x y : Z) :
  0 <= x -> 0 <= y -> 2 ^ x <= p -> q <= 2 ^ y -> 0 < q ->
  ratio_ge_pow2 p q (x - y).
Proof.
  unfold ratio_ge_pow2. intros Hx Hy Hpx Hqy Hq.
  assert (0 < 2 ^ x) by (apply Z.pow_pos_nonneg; lia).
  destruct (Z.le_gt_cases 0 (x - y)) as [H0|H0].
  - rewrite Z.max_r, Z.max_l by lia. rewrite Z.pow_0_r.
    assert (E : 2 ^ x = 2 ^ y * 2 ^ (x - y)).
    { rewrite <- Z.pow_add_r by lia. f_equal. lia. }
    assert (0 < 2 ^ (x - y)) by (apply Z.pow_pos_nonneg; lia). nia.
  - rewrite Z.max_l, Z.max_r by lia. rewrite Z.pow_0_r.
    assert (E : 2 ^ y = 2 ^ x * 2 ^ (- (x - y))).
    { rewrite <- Z.pow_add_r by lia. f_equal. lia. }
    assert (0 < 2 ^ (- (x - y))) by (apply Z.pow_pos_nonneg; lia). nia.
Qed.

Lemma ratio_lt_pow2_intro (p q x y : Z) :
  0 <= x -> 0 <= y -> p < 2 ^ x -> 2 ^ y <= q -> 0 < p ->
  ~ ratio_ge_pow2 p q (x - y).
Proof.
  unfold ratio_ge_pow2. intros Hx Hy Hpx Hqy Hp.
  assert (0 < 2 ^ y) by (apply Z.pow_pos_nonneg; lia).
  destruct (Z.le_gt_cases 0 (x - y)) as [H0|H0].
  - rewrite Z.max_r, Z.max_l by lia. rewrite Z.pow_0_r.
    assert (E : 2 ^ x = 2 ^ y * 2 ^ (x - y)).
    { rewrite <- Z.pow_add_r by lia. f_equal. lia. }
    assert (0 < 2 ^ (x - y)) by (apply Z.pow_pos_nonneg; lia). nia.
  - rewrite Z.max_l, Z.max_r by lia. rewrite Z.pow_0_r.
    assert (E : 2 ^ y = 2 ^ x * 2 ^ (- (x - y))).
    { rewrite <- Z.pow_add_r by lia. f_equal. lia. }
    assert (0 < 2 ^ (- (x - y))) by (apply Z.pow_pos_nonneg; lia). nia.
Qed.

(** [floor_log2_ratio p q] is the [l] with [2 ^ l <= p / q < 2 ^ (l + 1)]. *)
Lemma floor_log2_ratio_spec (p q : Z) :
  0 < p -> 0 < q ->
  ratio_ge_pow2 p q (floor_log2_ratio p q)
  /\ ~ ratio_ge_pow2 p q (floor_log2_ratio p q + 1).
Proof.
  intros Hp Hq. unfold floor_log2_ratio.
  destruct (Z.log2_spec p Hp) as [Hp1 Hp2].
  destruct (Z.log2_spec q Hq) as [Hq1 Hq2].
  pose proof (Z.log2_nonneg p) as Ha. pose proof (Z.log2_nonneg q) as Hb.
  set (a := Z.log2 p) in *. set (b := Z.log2 q) in *.
  destruct (Z.ltb_spec (p * 2 ^ Z.max 0 (- (a - b))) (q * 2 ^ Z.max 0 (a - b)))
    as [Hlt|Hge].
  - split.
    + replace (a - b - 1) with (a - (b + 1)) by lia.
      apply ratio_ge_pow2_intro; lia.
    + replace (a - b - 1 + 1) with (a - b) by lia.
      unfold ratio_ge_pow2. lia.
  - split.
    + unfold ratio_ge_pow2. lia.
    + replace (a - b + 1) with ((a + 1) - b) by lia.
      apply ratio_lt_pow2_intro; lia.
Qed.

Lemma floor_log2_ratio_unique (p q l : Z) :
  0 < p -> 0 < q ->
  ratio_ge_pow2 p q l -> ~ ratio_ge_pow2 p q (l + 1) ->
  floor_log2_ratio p q = l.
Proof.
  intros Hp Hq H1 H2.
  destruct (floor_log2_ratio_spec p q Hp Hq) as [H3 H4].
  destruct (Z.lt_trichotomy (floor_log2_ratio p q) l) as [H|[H|H]];
    [|exact H|].
  - exfalso. apply H4. apply (ratio_ge_pow2_mono p q _ l); auto. lia.
  - exfalso. apply H2.
    apply (ratio_ge_pow2_mono p q _ (floor_log2_ratio p q)); auto. lia.
Qed.

Lemma ratio_ge_pow2_scale (c p q l : Z) :
  0 < c -> (ratio_ge_pow2 (c * p) (c * q) l <-> ratio_ge_pow2 p q l).
Proof. unfold ratio_ge_pow2. intros Hc. split; intros H; nia. Qed.

Lemma floor_log2_ratio_scale (c p q : Z) :
  0 < c -> 0 < p -> 0 < q ->
  floor_log2_ratio (c * p) (c * q) = floor_log2_ratio p q.
Proof.
  intros Hc Hp Hq.
  destruct (floor_log2_ratio_spec p q Hp Hq) as [H1 H2].
  apply floor_log2_ratio_unique; try nia.
  - now apply ratio_ge_pow2_scale.
  - intros H. apply H2. now apply (ratio_ge_pow2_scale c).
Qed.

Lemma round_half_even_scale (c num den : Z) :
  0 < c -> 0 < den ->
  round_half_even (c * num) (c * den) = round_half_even num den.
Proof.
  intros Hc Hd. unfold round_half_even.
  rewrite Z.div_mul_cancel_l by lia.
  rewrite Z.mul_mod_distr_l by lia.
  assert (E : (2 * (c * (num mod den)) ?= c * den) = (2 * (num mod den) ?= den)).
  { destruct (Z.compare_spec (2 * (num mod den)) den);
      destruct (Z.compare_spec (2 * (c * (num mod den))) (c * den));
      try reflexivity; nia. }
  now rewrite E.
Qed.

(** The rounding depends on the ratio only. *)
Lemma nearest_double_scale (s : bool) (c p q : Z) :
  0 < c -> 0 < q ->
  nearest_double s (c * p) (c * q) = nearest_double s p q.
Proof.
  intros Hc Hq. unfold nearest_double.
  destruct (Z.leb_spec p 0) as [Hp|Hp].
  - destruct (Z.leb_spec (c * p) 0) as [_|H]; [reflexivity|nia].
  - destruct (Z.leb_spec (c * p) 0) as [H|_]; [nia|].
    rewrite floor_log2_ratio_scale by assumption.
    set (e := Z.max (floor_log2_ratio p q - 52) (-1074)).
    replace (c * p * 2 ^ Z.max 0 (- e)) with (c * (p * 2 ^ Z.max 0 (- e))) by lia.
    replace (c * q * 2 ^ Z.max 0 e) with (c * (q * 2 ^ Z.max 0 e)) by lia.
    rewrite round_half_even_scale; [reflexivity|lia|].
    pose proof (pow_pos_max 2 e). nia.
Qed.

Lemma nearest_double_ratio (s : bool) (p1 q1 p2 q2 : Z) :
  0 < q1 -> 0 < q2 -> p1 * q2 = p2 * q1 ->
  nearest_double s p1 q1 = nearest_double s p2 q2.
Proof.
  intros H1 H2 E.
  rewrite <- (nearest_double_scale s q2 p1 q1) by assumption.
  rewrite <- (nearest_double_scale s q1 p2 q2) by assumption.
  f_equal; lia.
Qed.

Lemma nearest_double_sign (s : bool) (p q : Z) :
  nearest_double s p q =
    match nearest_double false p q with
    | S754_zero _ => S754_zero s
    | S754_infinity _ => S754_infinity s
    | S754_nan => S754_nan
    | S754_finite _ m e => S754_finite s m e
    end.
Proof.
  unfold nearest_double. destruct (p <=? 0); [reflexivity|].
  destruct (round_half_even _ _ =? 2 ^ 53).
  - destruct (2 ^ 52); try reflexivity. now destruct (_ <=? 971).
  - destruct (round_half_even _ _); try reflexivity. now destruct (_ <=? 971).
Qed.

Lemma log2_digits2 (m : positive) :
  Zpos (digits2_pos m) = Z.log2 (Zpos m) + 1.
Proof.
  assert (H : forall p, digits2_pos p = Pos.size p).
  { induction p; simpl; congruence. }
  rewrite H. destruct m; simpl; lia.
Qed.

Lemma wf_finite (s : bool) (m : positive) (e : Z) :
  wf_number (S754_finite s m e) ->
  Z.max (Z.log2 (Zpos m) - 52 + e) (-1074) = e /\ e <= 971.
Proof.
  unfold wf_number, valid_binary, bounded, canonical_mantissa, fexp, emin,
    prec, emax.
  intros H. apply andb_true_iff in H as [H1 H2].
  apply Z.eqb_eq in H1. apply Z.leb_le in H2. rewrite log2_digits2 in H1.
  split; lia.
Qed.

Lemma round_half_even_exact (m : Z) : round_half_even m 1 = m.
Proof.
  unfold round_half_even. rewrite Z.div_1_r, Z.mod_1_r. reflexivity.
Qed.

(** A binary64 number is the nearest one to itself. *)
Lemma nearest_double_exact (m : positive) (e : Z) :
  wf_number (S754_finite false m e) ->
  nearest_double false (Zpos m * 2 ^ Z.max 0 e) (2 ^ Z.max 0 (- e))
  = S754_finite false m e.
Proof.
  intros Hwf. destruct (wf_finite _ _ _ Hwf) as [Hc He].
  pose proof (pow_pos_max 2 e eq_refl) as Hp1.
  pose proof (pow_pos_max 2 (- e) eq_refl) as Hp2.
  assert (Hm : 0 < Zpos m) by lia.
  destruct (Z.log2_spec _ Hm) as [Hl1 Hl2].
  pose proof (Z.log2_nonneg (Zpos m)) as Ha.
  set (a := Z.log2 (Zpos m)) in *.
  assert (HL : floor_log2_ratio (Zpos m * 2 ^ Z.max 0 e) (2 ^ Z.max 0 (- e))
               = a + e).
  { assert (Hs : 2 ^ Z.succ a = 2 * 2 ^ a) by (apply Z.pow_succ_r; lia).
    apply floor_log2_ratio_unique; try nia.
    - destruct (Z.le_gt_cases 0 e) as [H|H].
      + rewrite (Z.max_r 0 e), (Z.max_l 0 (- e)) by lia.
        assert (0 < 2 ^ e) by (apply Z.pow_pos_nonneg; lia).
        replace (a + e) with ((a + e) - 0) by lia.
        apply ratio_ge_pow2_intro;
          rewrite ?Z.pow_0_r, ?Z.pow_add_r by lia; try lia; nia.
      + rewrite (Z.max_l 0 e), (Z.max_r 0 (- e)) by lia.
        assert (0 < 2 ^ (- e)) by (apply Z.pow_pos_nonneg; lia).
        replace (a + e) with (a - (- e)) by lia.
        apply ratio_ge_pow2_intro;
          rewrite ?Z.pow_0_r by lia; try lia.
    - destruct (Z.le_gt_cases 0 e) as [H|H].
      + rewrite (Z.max_r 0 e), (Z.max_l 0 (- e)) by lia.
        assert (0 < 2 ^ e) by (apply Z.pow_pos_nonneg; lia).
        replace (a + e + 1) with ((Z.succ a + e) - 0) by lia.
        apply ratio_lt_pow2_intro;
          rewrite ?Z.pow_0_r, ?Z.pow_add_r by lia; try lia; nia.
      + rewrite (Z.max_l 0 e), (Z.max_r 0 (- e)) by lia.
        assert (0 < 2 ^ (- e)) by (apply Z.pow_pos_nonneg; lia).
        replace (a + e + 1) with (Z.succ a - (- e)) by lia.
        apply ratio_lt_pow2_intro;
          rewrite ?Z.pow_0_r by lia; try lia. }
  unfold nearest_double.
  destruct (Z.leb_spec (Zpos m * 2 ^ Z.max 0 e) 0) as [H|_]; [nia|].
  rewrite HL. replace (a + e - 52) with (a - 52 + e) by lia. rewrite Hc.
  assert (HR : round_half_even (Zpos m * 2 ^ Z.max 0 e * 2 ^ Z.max 0 (- e))
                 (2 ^ Z.max 0 (- e) * 2 ^ Z.max 0 e) = Zpos m).
  { replace (Zpos m * 2 ^ Z.max 0 e * 2 ^ Z.max 0 (- e))
      with ((2 ^ Z.max 0 (- e) * 2 ^ Z.max 0 e) * Zpos m) by lia.
    replace (2 ^ Z.max 0 (- e) * 2 ^ Z.max 0 e)
      with ((2 ^ Z.max 0 (- e) * 2 ^ Z.max 0 e) * 1) at 2 by lia.
    rewrite round_half_even_scale by nia. apply round_half_even_exact. }
  rewrite HR.
  assert (Hlt : Zpos m < 2 ^ 53).
  { apply Z.lt_le_trans with (2 ^ Z.succ a); [exact Hl2|].
    apply Z.pow_le_mono_r; lia. }
  destruct (Z.eqb_spec (Zpos m) (2 ^ 53)) as [E|_]; [lia|].
  destruct (Z.leb_spec e 971) as [_|H]; [reflexivity|lia].
Qed.

Lemma num_same_eq (x y : number) : num_same x y = true -> x = y.
Proof.
  destruct x, y; simpl; try discriminate; try reflexivity.
  - intros H. now apply Bool.eqb_prop in H as ->.
  - intros H. now apply Bool.eqb_prop in H as ->.
  - intros H. apply andb_true_iff in H as [H H3].
    apply andb_true_iff in H as [H1 H2].
    apply Bool.eqb_prop in H1. apply Pos.eqb_eq in H2. apply Z.eqb_eq in H3.
    now subst.
Qed.

Lemma pow10_split (n : Z) : 0 <= n -> 10 ^ n = 2 ^ n * 5 ^ n.
Proof. intros H. now rewrite <- Z.pow_mul_l. Qed.

Lemma exact_decimal_reads_back (m : positive) (e : Z) :
  wf_number (S754_finite false m e) ->
  reads_back (S754_finite false m e) (fst (exact_decimal m e))
    (snd (exact_decimal m e)) = true.
Proof.
  intros Hwf. unfold reads_back.
  assert (E : decimal_to_double false (fst (exact_decimal m e))
                (snd (exact_decimal m e)) = S754_finite false m e).
  { rewrite <- (nearest_double_exact m e Hwf) at 1.
    unfold exact_decimal, decimal_to_double.
    destruct (Z.leb_spec 0 e) as [H|H]; cbn [fst snd].
    - apply nearest_double_ratio.
      + now apply pow_pos_max.
      + now apply pow_pos_max.
      + rewrite (Z.max_r 0 e), (Z.max_l 0 (- e)) by lia.
        rewrite Z.max_l by lia. change (- 0) with 0.
        rewrite Z.max_l by lia. lia.
    - apply nearest_double_ratio.
      + now apply pow_pos_max.
      + now apply pow_pos_max.
      + rewrite (Z.max_l 0 e), (Z.max_r 0 (- e)) by lia.
        rewrite (pow10_split (- e)) by lia. rewrite !Z.pow_0_r. lia. }
  rewrite E. destruct m; simpl; rewrite ?Pos.eqb_refl, ?Z.eqb_refl; reflexivity.
Qed.

Lemma try_digits_reads_back (x : number) (p q n0 k s t : Z) :
  try_digits x p q n0 k = Some (s, t) -> reads_back x s t = true.
Proof.
  unfold try_digits.
  destruct (match _ ?= _ with Lt => false | Gt => true | Eq => _ end).
  - destruct (reads_back x (scaled_floor p q (n0 - k) + 1) (n0 - k)) eqn:E1.
    + now intros [= <- <-].
    + destruct (reads_back x (scaled_floor p q (n0 - k)) (n0 - k)) eqn:E2;
        [now intros [= <- <-]|discriminate].
  - destruct (reads_back x (scaled_floor p q (n0 - k)) (n0 - k)) eqn:E1.
    + now intros [= <- <-].
    + destruct (reads_back x (scaled_floor p q (n0 - k) + 1) (n0 - k)) eqn:E2;
        [now intros [= <- <-]|discriminate].
Qed.

Lemma shortest_from_reads_back (fuel : nat) (x : number) (p q n0 k : Z)
    (exact : Z * Z) :
  reads_back x (fst exact) (snd exact) = true ->
  reads_back x (fst (shortest_from fuel x p q n0 k exact))
    (snd (shortest_from fuel x p q n0 k exact)) = true.
Proof.
  intros He. revert k; induction fuel as [|f IH]; intros k; cbn; [exact He|].
  destruct (try_digits x p q n0 k) as [[s t]|] eqn:E.
  - cbn. now apply try_digits_reads_back in E.
  - apply IH.
Qed.

(** *** Digits *)

Lemma digits_value_acc (ds : list N) (acc : N) :
  (fold_left (fun a d => 10 * a + d) ds acc
   = acc * 10 ^ N.of_nat (List.length ds) + digits_value ds)%N.
Proof.
  unfold digits_value. revert acc; induction ds as [|d ds IH]; intros acc.
  - cbn. lia.
  - cbn [fold_left List.length]. rewrite IH, (IH (10 * 0 + d)%N).
    rewrite Nat2N.inj_succ, N.pow_succ_r'. lia.
Qed.

Lemma digits_value_app (a b : list N) :
  (digits_value (a ++ b)
   = digits_value a * 10 ^ N.of_nat (List.length b) + digits_value b)%N.
Proof.
  unfold digits_value at 1. rewrite fold_left_app.
  fold (digits_value a). apply digits_value_acc.
Qed.

Lemma digits_value_zeros (z : nat) : digits_value (zeros z) = 0%N.
Proof.
  induction z as [|z IH]; [reflexivity|].
  change (zeros (S z)) with ([0%N] ++ zeros z).
  rewrite digits_value_app, IH. cbn. lia.
Qed.

Lemma zeros_length (z : nat) : List.length (zeros z) = z.
Proof. apply repeat_length. Qed.

Lemma digits_aux_spec (fuel : nat) (n : N) (acc : list N) :
  (n < 2 ^ N.of_nat fuel)%N -> (0 < n)%N ->
  exists d ds,
    digits_aux fuel n acc = (d :: ds) ++ acc
    /\ (0 < d)%N /\ is_digits (d :: ds) /\ digits_value (d :: ds) = n.
Proof.
  revert n acc; induction fuel as [|f IH]; intros n acc Hn Hp.
  - cbn in Hn. lia.
  - cbn [digits_aux]. destruct (N.ltb_spec n 10) as [H|H].
    + exists n, []. refine (conj eq_refl (conj Hp (conj _ _))).
      * constructor; [assumption|constructor].
      * cbn. lia.
    + assert (Hd : (n / 10 < 2 ^ N.of_nat f)%N).
      { rewrite Nat2N.inj_succ, N.pow_succ_r' in Hn.
        apply N.Div0.div_lt_upper_bound. lia. }
      assert (Hq : (0 < n / 10)%N).
      { apply N.div_str_pos. lia. }
      destruct (IH (n / 10)%N ((n mod 10)%N :: acc) Hd Hq)
        as (d & ds & E & Hd0 & Hds & Hv).
      exists d, (ds ++ [(n mod 10)%N]). refine (conj _ (conj Hd0 (conj _ _))).
      * rewrite E. cbn. now rewrite <- app_assoc.
      * change (d :: ds ++ [(n mod 10)%N]) with ((d :: ds) ++ [(n mod 10)%N]).
        apply Forall_app. split; [exact Hds|].
        constructor; [|constructor]. apply N.mod_lt. lia.
      * change (d :: ds ++ [(n mod 10)%N]) with ((d :: ds) ++ [(n mod 10)%N]).
        rewrite digits_value_app, Hv. cbn.
        pose proof (N.div_mod n 10). lia.
Qed.

(** The digits of a positive number: no leading zero, and they denote it. *)
Lemma digits_of_spec (n : N) :
  (0 < n)%N ->
  exists d ds,
    digits_of n = d :: ds
    /\ (0 < d)%N /\ is_digits (d :: ds) /\ digits_value (d :: ds) = n.
Proof.
  intros Hp. unfold digits_of.
  destruct (digits_aux_spec (S (N.to_nat (N.log2 n))) n []) as (d & ds & E & H);
    [|exact Hp|].
  - rewrite Nat2N.inj_succ, N2Nat.id.
    apply N.log2_spec. exact Hp.
  - exists d, ds. rewrite E, app_nil_r. auto.
Qed.

Lemma digits_of_value (n : N) : digits_value (digits_of n) = n.
Proof.
  destruct (N.eq_0_gt_0_cases n) as [->|H]; [reflexivity|].
  destruct (digits_of_spec n H) as (d & ds & -> & _ & _ & E). exact E.
Qed.

Lemma digits_of_digits (n : N) : is_digits (digits_of n) /\ digits_of n <> [].
Proof.
  destruct (N.eq_0_gt_0_cases n) as [->|H].
  - split; [|discriminate]. repeat constructor.
  - destruct (digits_of_spec n H) as (d & ds & -> & _ & E & _).
    split; [exact E|discriminate].
Qed.

Lemma strip_zeros_spec (ds : list N) :
  exists z, ds = zeros z ++ strip_zeros ds.
Proof.
  induction ds as [|d ds [z IH]]; [now exists 0%nat|].
  destruct d as [|p].
  - exists (S z). cbn [strip_zeros]. cbn. now f_equal.
  - now exists 0%nat.
Qed.

Lemma rev_zeros (z : nat) : rev (zeros z) = zeros z.
Proof.
  apply rev_repeat.
Qed.

Lemma strip_trailing_zeros_spec (ds : list N) :
  exists z, ds = strip_trailing_zeros ds ++ zeros z.
Proof.
  destruct (strip_zeros_spec (rev ds)) as [z E]. exists z.
  unfold strip_trailing_zeros.
  rewrite <- (rev_involutive ds) at 1. rewrite E at 1.
  now rewrite rev_app_distr, rev_zeros.
Qed.

Lemma strip_trailing_zeros_head (d : N) (ds : list N) :
  (0 < d)%N ->
  exists r z, strip_trailing_zeros (d :: ds) = d :: r
              /\ d :: ds = (d :: r) ++ zeros z.
Proof.
  intros Hd. destruct (strip_trailing_zeros_spec (d :: ds)) as [z E].
  destruct (strip_trailing_zeros (d :: ds)) as [|d' r] eqn:S.
  - cbn in E. destruct z; [discriminate|]. cbn in E. injection E as E _. lia.
  - cbn in E. injection E as -> E. exists r, z. split; [reflexivity|].
    cbn. now rewrite <- E.
Qed.

Lemma decimal_shift (s : bool) (d t z : Z) :
  0 <= z ->
  decimal_to_double s (d * 10 ^ z) t = decimal_to_double s d (t + z).
Proof.
  intros Hz. unfold decimal_to_double. apply nearest_double_ratio.
  - now apply pow_pos_max.
  - now apply pow_pos_max.
  - destruct (Z.le_gt_cases 0 t) as [Ht|Ht].
    + rewrite (Z.max_r 0 t), (Z.max_r 0 (t + z)) by lia.
      rewrite !Z.max_l by lia. rewrite Z.pow_add_r by lia. lia.
    + destruct (Z.le_gt_cases 0 (t + z)) as [Htz|Htz].
      * rewrite (Z.max_l 0 t), (Z.max_r 0 (t + z)), (Z.max_r 0 (- t)) by lia.
        rewrite (Z.max_l 0 (- (t + z))) by lia.
        rewrite !Z.pow_0_r.
        replace z with ((t + z) + (- t)) at 1 by lia.
        rewrite Z.pow_add_r by lia. lia.
      * rewrite (Z.max_l 0 t), (Z.max_l 0 (t + z)), (Z.max_r 0 (- t)) by lia.
        rewrite (Z.max_r 0 (- (t + z))) by lia.
        rewrite !Z.pow_0_r.
        replace (- t) with (z + (- (t + z))) by lia.
        rewrite Z.pow_add_r by lia. lia.
Qed.

(** The digits [Number::toString] chooses for a positive number have no
    leading zero and read back as that number. *)
Lemma shortest_digits_spec (m : positive) (e : Z) :
  wf_number (S754_finite false m e) ->
  exists d ds n,
    shortest_digits m e = (d :: ds, n)
    /\ (0 < d)%N /\ is_digits (d :: ds)
    /\ decimal_to_double false (Z.of_N (digits_value (d :: ds)))
         (n - Z.of_nat (List.length (d :: ds)))
       = S754_finite false m e.
Proof.
  intros Hwf. unfold shortest_digits.
  pose proof (shortest_from_reads_back 17 (S754_finite false m e)
                (Zpos m * 2 ^ Z.max 0 e) (2 ^ Z.max 0 (- e))
                (decimal_exponent 700 (Zpos m * 2 ^ Z.max 0 e)
                   (2 ^ Z.max 0 (- e)) (-330))
                1 (exact_decimal m e) (exact_decimal_reads_back m e Hwf))
    as Hr.
  destruct (shortest_from _ _ _ _ _ _ _) as [s10 t]. cbn [fst snd] in Hr.
  apply num_same_eq in Hr.
  assert (Hs : 0 < s10).
  { destruct (Z.lt_ge_cases 0 s10) as [H|H]; [exact H|exfalso].
    unfold decimal_to_double, nearest_double in Hr.
    pose proof (pow_pos_max 10 t eq_refl).
    destruct (Z.leb_spec (s10 * 10 ^ Z.max 0 t) 0) as [_|H']; [discriminate|nia]. }
  destruct (digits_of_spec (Z.to_N s10)) as (d & ds0 & E & Hd & Hds & Hv); [lia|].
  rewrite E.
  destruct (strip_trailing_zeros_head d ds0 Hd) as (r & z & Es & Ez).
  exists d, r, (Z.of_nat (List.length (d :: ds0)) + t).
  rewrite Es. refine (conj eq_refl (conj Hd (conj _ _))).
  - rewrite Ez in Hds. now apply Forall_app in Hds.
  - rewrite <- Hr. rewrite Ez at 1. rewrite length_app, zeros_length.
    replace (Z.of_nat (List.length (d :: r) + z) + t
             - Z.of_nat (List.length (d :: r))) with (t + Z.of_nat z) by lia.
    rewrite <- decimal_shift by lia. f_equal.
    rewrite Ez, digits_value_app, digits_value_zeros, zeros_length in Hv.
    rewrite N.add_0_r in Hv.
    apply (f_equal Z.of_N) in Hv. rewrite Z2N.id in Hv by lia.
    rewrite <- Hv, N2Z.inj_mul, N2Z.inj_pow. cbn. now rewrite nat_N_Z.
Qed.

(** *** Reading a printed number back *)

Arguments is_digit : simpl never.
Arguments is_exp_char : simpl never.
Arguments digit_char : simpl never.
Arguments decimal_value : simpl never.
Arguments decimal_to_double : simpl never.

Lemma digit_char_digit (d : N) :
  (d < 10)%N -> is_digit (digit_char d) = true /\ (digit_char d - 48 = d)%N.
Proof.
  intros H. unfold is_digit, digit_char. split; [|lia].
  apply andb_true_iff. split; apply N.leb_le; lia.
Qed.

Lemma take_digits_chars (ds : list N) (rest : jsstring) :
  is_digits ds -> starts_with is_digit rest = false ->
  take_digits (digit_chars ds ++ rest) = (ds, rest).
Proof.
  intros Hds Hr. induction Hds as [|d ds Hd _ IH]; cbn.
  - destruct rest as [|c r]; [reflexivity|]. cbn in Hr.
    cbn [take_digits]. now rewrite Hr.
  - destruct (digit_char_digit d Hd) as [-> ->].
    unfold digit_chars in IH. now rewrite IH.
Qed.

Lemma num_delimited_cases (rest : jsstring) :
  num_delimited rest ->
  starts_with is_digit rest = false
  /\ starts_with (fun c => N.eqb c ch_dot) rest = false
  /\ starts_with is_exp_char rest = false.
Proof.
  unfold num_delimited. destruct rest as [|c r]; cbn; [auto|].
  intros H. apply orb_false_iff in H as [H H3].
  apply orb_false_iff in H as [H1 H2]. auto.
Qed.

Lemma lex_fraction_none (rest : jsstring) :
  starts_with (fun c => N.eqb c ch_dot) rest = false ->
  lex_fraction rest = Some ([], rest).
Proof. destruct rest as [|c r]; cbn; [reflexivity|]. now intros ->. Qed.

Lemma lex_fraction_some (f : list N) (rest : jsstring) :
  is_digits f -> f <> [] -> starts_with is_digit rest = false ->
  lex_fraction (ch_dot :: digit_chars f ++ rest) = Some (f, rest).
Proof.
  intros Hf Hne Hr. cbn [lex_fraction]. rewrite N.eqb_refl.
  rewrite (take_digits_chars f rest Hf Hr). now destruct f.
Qed.

Lemma lex_exponent_none (rest : jsstring) :
  starts_with is_exp_char rest = false -> lex_exponent rest = Some (0, rest).
Proof. destruct rest as [|c r]; cbn; [reflexivity|]. now intros ->. Qed.

Lemma signed_digits_printed (x : Z) (rest : jsstring) :
  starts_with is_digit rest = false ->
  signed_digits
    ((if 0 <? x then ch_plus else ch_minus)
       :: decimal_string (Z.to_N (Z.abs x)) ++ rest)
  = Some (x, rest).
Proof.
  intros Hr. unfold signed_digits, decimal_string.
  destruct (digits_of_digits (Z.to_N (Z.abs x))) as [Hd Hne].
  destruct (Z.ltb_spec 0 x) as [H|H].
  - rewrite N.eqb_refl. rewrite (take_digits_chars _ _ Hd Hr).
    pose proof (digits_of_value (Z.to_N (Z.abs x))) as Hv.
    destruct (digits_of (Z.to_N (Z.abs x))); [congruence|].
    rewrite Hv. f_equal. f_equal. lia.
  - change (N.eqb ch_minus ch_plus) with false. rewrite N.eqb_refl.
    rewrite (take_digits_chars _ _ Hd Hr).
    pose proof (digits_of_value (Z.to_N (Z.abs x))) as Hv.
    destruct (digits_of (Z.to_N (Z.abs x))); [congruence|].
    rewrite Hv. f_equal. f_equal. lia.
Qed.

Lemma lex_exponent_some (x : Z) (rest : jsstring) :
  starts_with is_digit rest = false ->
  lex_exponent
    (ch_e :: (if 0 <? x then ch_plus else ch_minus)
       :: decimal_string (Z.to_N (Z.abs x)) ++ rest)
  = Some (x, rest).
Proof. intros Hr. cbn [lex_exponent]. now apply signed_digits_printed. Qed.

Lemma lex_unsigned_parts (neg : bool) (s : jsstring) (d : N) (i f : list N)
    (x : Z) (r1 r2 r3 : jsstring) :
  (0 < d)%N \/ i = [] ->
  take_digits s = (d :: i, r1) ->
  lex_fraction r1 = Some (f, r2) ->
  lex_exponent r2 = Some (x, r3) ->
  lex_unsigned neg s = Some (decimal_value neg (d :: i) f x, r3).
Proof.
  intros Hd Ht Hf Hx. unfold lex_unsigned. rewrite Ht, Hf, Hx.
  destruct Hd as [Hd| ->]; [destruct d; [lia|reflexivity]|].
  now destruct d.
Qed.

(** [lex_unsigned] on integer digits [d :: i] and fraction digits [f],
    with no exponent. *)
Lemma lex_unsigned_plain (neg : bool) (d : N) (i : list N) (rest : jsstring) :
  (0 < d)%N \/ i = [] -> is_digits (d :: i) -> num_delimited rest ->
  lex_unsigned neg (digit_chars (d :: i) ++ rest)
  = Some (decimal_value neg (d :: i) [] 0, rest).
Proof.
  intros Hd Hi Hr. destruct (num_delimited_cases rest Hr) as (R1 & R2 & R3).
  apply (lex_unsigned_parts neg _ d i [] 0 rest rest rest Hd).
  - now apply take_digits_chars.
  - now apply lex_fraction_none.
  - now apply lex_exponent_none.
Qed.

Lemma lex_unsigned_frac (neg : bool) (d : N) (i f : list N) (rest : jsstring) :
  (0 < d)%N \/ i = [] -> is_digits (d :: i) -> is_digits f -> f <> [] ->
  num_delimited rest ->
  lex_unsigned neg (digit_chars (d :: i) ++ ch_dot :: digit_chars f ++ rest)
  = Some (decimal_value neg (d :: i) f 0, rest).
Proof.
  intros Hd Hi Hf Hne Hr.
  destruct (num_delimited_cases rest Hr) as (R1 & R2 & R3).
  apply (lex_unsigned_parts neg _ d i f 0
           (ch_dot :: digit_chars f ++ rest) rest rest Hd).
  - now apply take_digits_chars.
  - now apply lex_fraction_some.
  - now apply lex_exponent_none.
Qed.

Lemma digit_chars_app (a b : list N) :
  digit_chars (a ++ b) = digit_chars a ++ digit_chars b.
Proof. apply map_app. Qed.

(** [lex_unsigned] for the exponent layouts. *)
Lemma lex_unsigned_exp (neg : bool) (d : N) (f : list N) (x : Z)
    (rest : jsstring) :
  is_digits (d :: f) -> num_delimited rest ->
  lex_unsigned neg
    (digit_char d
       :: match f with [] => [] | _ => ch_dot :: digit_chars f end
       ++ ch_e :: (if 0 <? x then ch_plus else ch_minus)
       :: decimal_string (Z.to_N (Z.abs x)) ++ rest)
  = Some (decimal_value neg [d] f x, rest).
Proof.
  intros Hd Hr. destruct (num_delimited_cases rest Hr) as (R1 & _ & _).
  inversion Hd as [|? ? Hd0 Hf]; subst.
  set (ex := ch_e :: (if 0 <? x then ch_plus else ch_minus)
               :: decimal_string (Z.to_N (Z.abs x)) ++ rest).
  assert (Hex : lex_exponent ex = Some (x, rest)) by now apply lex_exponent_some.
  assert (Hd1 : is_digits [d]) by (constructor; [assumption|constructor]).
  destruct f as [|f0 f].
  - apply (lex_unsigned_parts neg _ d [] [] x ex ex rest);
      [now right | | reflexivity | exact Hex].
    change (digit_char d :: [] ++ ex) with (digit_chars [d] ++ ex).
    now apply take_digits_chars.
  - apply (lex_unsigned_parts neg _ d [] (f0 :: f) x
             (ch_dot :: digit_chars (f0 :: f) ++ ex) ex rest);
      [now right | | | exact Hex].
    + change (digit_char d :: (ch_dot :: digit_chars (f0 :: f)) ++ ex)
        with (digit_chars [d] ++ ch_dot :: digit_chars (f0 :: f) ++ ex).
      now apply take_digits_chars.
    + now apply lex_fraction_some.
Qed.

Lemma decimal_value_eq (neg : bool) (i f : list N) (x : Z) :
  decimal_value neg i f x
  = decimal_to_double neg (Z.of_N (digits_value (i ++ f)))
      (x - Z.of_nat (List.length f)).
Proof. reflexivity. Qed.

Lemma digits_value_leading_zeros (z : nat) (ds : list N) :
  digits_value (zeros z ++ ds) = digits_value ds.
Proof. now rewrite digits_value_app, digits_value_zeros. Qed.

Lemma is_digits_zeros (z : nat) : is_digits (zeros z).
Proof. apply Forall_forall. intros x H. apply repeat_spec in H. now subst. Qed.

Lemma some_decimal_eq (neg : bool) (a b x y : Z) (rest : jsstring) :
  a = b -> x = y ->
  Some (decimal_to_double neg a x, rest) = Some (decimal_to_double neg b y, rest).
Proof. now intros -> ->. Qed.

(** The text [format_digits] lays out reads back as the decimal it
    denotes. *)
Lemma lex_unsigned_format (neg : bool) (d : N) (ds : list N) (n : Z)
    (rest : jsstring) :
  (0 < d)%N -> is_digits (d :: ds) -> num_delimited rest ->
  lex_unsigned neg (format_digits (d :: ds) n ++ rest)
  = Some (decimal_to_double neg (Z.of_N (digits_value (d :: ds)))
            (n - Z.of_nat (List.length (d :: ds))), rest).
Proof.
  intros Hd Hds Hr. unfold format_digits.
  set (k := Z.of_nat (List.length (d :: ds))).
  assert (Hk : k = Z.of_nat (List.length ds) + 1) by (unfold k; cbn [List.length]; lia).
  destruct (Z.leb_spec k n) as [H1|H1];
    [destruct (Z.leb_spec n 21) as [H2|H2]|]; cbn [andb].
  - (* digits and zeros *)
    unfold digit_chars. rewrite <- map_app. fold (digit_chars ((d :: ds) ++ zeros (Z.to_nat (n - k)))).
    pose proof (lex_unsigned_plain neg d (ds ++ zeros (Z.to_nat (n - k))) rest) as L.
    cbn [app] in L |- *. rewrite L; auto.
    + rewrite decimal_value_eq, app_nil_r. cbn [List.length].
      change (d :: ds ++ zeros (Z.to_nat (n - k)))
        with ((d :: ds) ++ zeros (Z.to_nat (n - k))).
      rewrite digits_value_app, digits_value_zeros, zeros_length, N.add_0_r.
      rewrite N2Z.inj_mul, N2Z.inj_pow, nat_N_Z. cbn [Z.of_N].
      rewrite decimal_shift by lia. apply some_decimal_eq; [reflexivity|lia].
    + change (d :: ds ++ zeros (Z.to_nat (n - k)))
        with ((d :: ds) ++ zeros (Z.to_nat (n - k))).
      apply Forall_app. split; [exact Hds|apply is_digits_zeros].
  - (* n > 21, with k <= n: exponent *)
    destruct (Z.ltb_spec 0 n) as [_|H3]; [|lia].
    destruct (Z.leb_spec n 21) as [H4|_]; [lia|]. cbn [andb].
    destruct (Z.ltb_spec (-6) n) as [_|H5]; [|lia].
    destruct (Z.leb_spec n 0) as [H6|_]; [lia|]. cbn [andb].
    pose proof (lex_unsigned_exp neg d ds (n - 1) rest Hds Hr) as L.
    destruct ds as [|d1 ds]; cbn [app] in L |- *.
    + rewrite L, decimal_value_eq.
      apply some_decimal_eq; [reflexivity|cbn; lia].
    + rewrite <- app_assoc. cbn [app]. rewrite L, decimal_value_eq.
      apply some_decimal_eq; [reflexivity|unfold k; cbn [List.length]; lia].
  - (* n < k *)
    destruct (Z.ltb_spec 0 n) as [H3|H3];
      [destruct (Z.leb_spec n 21) as [H4|H4]|]; cbn [andb].
    + (* digits, point, digits *)
      assert (E : Z.to_nat n = S (Z.to_nat (n - 1))) by lia.
      rewrite E. cbn [firstn skipn]. set (j := Z.to_nat (n - 1)).
      assert (Hj : (j < List.length ds)%nat) by lia.
      pose proof (firstn_skipn j ds) as Hfs.
      assert (Hsk : skipn j ds <> []).
      { intros Hn. apply (f_equal (@List.length N)) in Hn.
        rewrite length_skipn in Hn. cbn in Hn. lia. }
      rewrite <- app_assoc. cbn [app].
      change (digit_char d :: digit_chars (firstn j ds) ++ ?r)
        with (digit_chars (d :: firstn j ds) ++ r).
      assert (Hsp : is_digits (d :: firstn j ds) /\ is_digits (skipn j ds)).
      { rewrite <- Hfs in Hds.
        change (d :: firstn j ds ++ skipn j ds)
          with ((d :: firstn j ds) ++ skipn j ds) in Hds.
        now apply Forall_app in Hds. }
      rewrite lex_unsigned_frac; try tauto.
      rewrite decimal_value_eq. cbn [app]. rewrite Hfs.
      apply some_decimal_eq; [reflexivity|]. rewrite length_skipn. lia.
    + (* n > 21 and n < k: exponent *)
      destruct (Z.ltb_spec (-6) n) as [_|H5]; [|lia].
      destruct (Z.leb_spec n 0) as [H6|_]; [lia|]. cbn [andb].
      pose proof (lex_unsigned_exp neg d ds (n - 1) rest Hds Hr) as L.
      destruct ds as [|d1 ds]; cbn [app] in L |- *.
      * rewrite L, decimal_value_eq.
      apply some_decimal_eq; [reflexivity|cbn; lia].
      * rewrite <- app_assoc. cbn [app]. rewrite L, decimal_value_eq.
        apply some_decimal_eq; [reflexivity|unfold k; cbn [List.length]; lia].
    + (* n <= 0 *)
      destruct (Z.ltb_spec (-6) n) as [H5|H5];
        [destruct (Z.leb_spec n 0) as [H6|H6]; [|lia]|]; cbn [andb].
      * (* zero, point, zeros, digits *)
        cbn [app]. rewrite <- digit_chars_app.
        change (digit_char 0 :: ch_dot :: ?r) with (digit_chars [0%N] ++ ch_dot :: r).
        rewrite lex_unsigned_frac; auto.
        -- rewrite decimal_value_eq. cbn [app].
           change (0%N :: zeros (Z.to_nat (- n)) ++ d :: ds)
             with (zeros (S (Z.to_nat (- n))) ++ d :: ds).
           rewrite digits_value_leading_zeros, length_app, zeros_length.
           apply some_decimal_eq; [reflexivity|unfold k; lia].
        -- repeat constructor.
        -- apply Forall_app. split; [apply is_digits_zeros|exact Hds].
        -- destruct (zeros (Z.to_nat (- n))); discriminate.
      * (* n <= -6: exponent *)
        pose proof (lex_unsigned_exp neg d ds (n - 1) rest Hds Hr) as L.
        destruct ds as [|d1 ds]; cbn [app] in L |- *.
        -- rewrite L, decimal_value_eq.
      apply some_decimal_eq; [reflexivity|cbn; lia].
        -- rewrite <- app_assoc. cbn [app]. rewrite L, decimal_value_eq.
           apply some_decimal_eq; [reflexivity|unfold k; cbn [List.length]; lia].
Qed.

Lemma lex_number_of_unsigned (text : jsstring) (v : number * jsstring) :
  lex_unsigned false text = Some v -> lex_number text = Some v.
Proof.
  destruct text as [|c r]; [discriminate|]. cbn [lex_number].
  destruct (N.eqb_spec c ch_minus) as [->|_]; [|auto].
  discriminate.
Qed.

Lemma decimal_to_double_sign (s : bool) (d t : Z) (m : positive) (e : Z) :
  decimal_to_double false d t = S754_finite false m e ->
  decimal_to_double s d t = S754_finite s m e.
Proof.
  unfold decimal_to_double. intros H. now rewrite nearest_double_sign, H.
Qed.

(** [Number::toString] and the number lexer are inverse on the numbers of
    JSON. *)
Lemma lex_number_printed (x : number) (rest : jsstring) :
  json_number x -> num_delimited rest ->
  lex_number (Number_toString x ++ rest) = Some (x, rest).
Proof.
  intros (Hwf & Hfin & Hnz) Hr. destruct x as [s | s | | s m e];
    try discriminate Hfin.
  - destruct s; [congruence|].
    apply lex_number_of_unsigned.
    apply (lex_unsigned_plain false 0 [] rest); auto.
    all: repeat constructor.
  - destruct (shortest_digits_spec m e Hwf) as (d & ds & n & E & Hd & Hds & Hv).
    cbn [Number_toString]. rewrite E.
    pose proof (lex_unsigned_format s d ds n rest Hd Hds Hr) as L.
    rewrite (decimal_to_double_sign s _ _ _ _ Hv) in L.
    destruct s.
    + cbn [app lex_number]. now rewrite N.eqb_refl.
    + cbn [app]. now apply lex_number_of_unsigned.
Qed.

(** ** Strings: quoting and reading back *)

Lemma hex_value_digit (d : N) :
  (d < 16)%N -> hex_value (hex_digit_char d) = Some d.
Proof.
  intros H. unfold hex_value, radix_digit, hex_digit_char, is_digit.
  destruct (N.ltb_spec d 10) as [H10|H10].
  - replace (48 <=? 48 + d)%N with true by (symmetry; apply N.leb_le; lia).
    replace (48 + d <=? 57)%N with true by (symmetry; apply N.leb_le; lia).
    cbn [andb]. replace (48 + d - 48)%N with d by lia.
    now replace (d <? 16)%N with true by (symmetry; apply N.ltb_lt; lia).
  - replace (87 + d <=? 57)%N with false by (symmetry; apply N.leb_gt; lia).
    rewrite andb_false_r.
    replace (97 <=? 87 + d)%N with true by (symmetry; apply N.leb_le; lia).
    replace (87 + d <=? 102)%N with true by (symmetry; apply N.leb_le; lia).
    cbn [andb]. replace (87 + d - 87)%N with d by lia.
    now replace (d <? 16)%N with true by (symmetry; apply N.ltb_lt; lia).
Qed.

Lemma hex_digits_value (c : N) :
  (c < 65536)%N ->
  ((((c / 4096 mod 16) * 16 + c / 256 mod 16) * 16 + c / 16 mod 16) * 16
   + c mod 16 = c)%N.
Proof.
  intros H.
  replace (c / 256)%N with (c / 16 / 16)%N
    by (rewrite N.Div0.div_div; reflexivity).
  replace (c / 4096)%N with (c / 16 / 16 / 16)%N
    by (rewrite !N.Div0.div_div; reflexivity).
  pose proof (N.div_mod c 16) as H1.
  pose proof (N.div_mod (c / 16) 16) as H2.
  pose proof (N.div_mod (c / 16 / 16) 16) as H3.
  pose proof (N.mod_lt c 16) as B1.
  pose proof (N.mod_lt (c / 16) 16) as B2.
  pose proof (N.mod_lt (c / 16 / 16) 16) as B3.
  assert (B4 : (c / 16 / 16 / 16 < 16)%N).
  { rewrite !N.Div0.div_div. apply N.Div0.div_lt_upper_bound. exact H. }
  rewrite (N.mod_small _ _ B4). lia.
Qed.

Lemma lex_string_escape (c : N) (t : jsstring) :
  (c < 65536)%N ->
  lex_string (unicode_escape c ++ t) =
    match lex_string t with
    | Some (u, r) => Some (c :: u, r)
    | None => None
    end.
Proof.
  intros H. unfold unicode_escape. cbn [app lex_string N.eqb Pos.eqb].
  rewrite !hex_value_digit by (apply N.mod_lt; lia).
  rewrite hex_digits_value by exact H. reflexivity.
Qed.

Lemma lex_string_literal (c : N) (t : jsstring) :
  c <> 34%N -> c <> 92%N -> (32 <= c)%N ->
  lex_string (c :: t) =
    match lex_string t with
    | Some (u, r) => Some (c :: u, r)
    | None => None
    end.
Proof.
  intros H1 H2 H3. cbn [lex_string].
  destruct (N.eqb_spec c 34) as [?|_]; [contradiction|].
  destruct (N.eqb_spec c 92) as [?|_]; [contradiction|].
  destruct (N.ltb_spec c 32) as [?|_]; [lia|]. reflexivity.
Qed.

Lemma lex_string_quote_char (c : N) (t : jsstring) :
  lex_string (quote_char c ++ t) =
    match lex_string t with
    | Some (u, r) => Some (c :: u, r)
    | None => None
    end.
Proof.
  unfold quote_char.
  destruct (N.eqb_spec c 8) as [->|N1]; [reflexivity|].
  destruct (N.eqb_spec c 9) as [->|N2]; [reflexivity|].
  destruct (N.eqb_spec c 10) as [->|N3]; [reflexivity|].
  destruct (N.eqb_spec c 12) as [->|N4]; [reflexivity|].
  destruct (N.eqb_spec c 13) as [->|N5]; [reflexivity|].
  destruct (N.eqb_spec c 34) as [->|N6]; [reflexivity|].
  destruct (N.eqb_spec c 92) as [->|N7]; [reflexivity|].
  destruct (N.ltb_spec c 32) as [L|L]; cbn [orb].
  - apply lex_string_escape. lia.
  - destruct (is_high_surrogate c) eqn:Hh; cbn [orb].
    + apply lex_string_escape. unfold is_high_surrogate in Hh.
      apply andb_true_iff in Hh as [_ Hh]. apply N.leb_le in Hh. lia.
    + destruct (is_low_surrogate c) eqn:Hl.
      * apply lex_string_escape. unfold is_low_surrogate in Hl.
        apply andb_true_iff in Hl as [_ Hl]. apply N.leb_le in Hl. lia.
      * now apply lex_string_literal.
Qed.

Lemma lex_string_quoted_len (n : nat) (s rest : jsstring) :
  (List.length s <= n)%nat ->
  lex_string (quote_body s ++ 34%N :: rest) = Some (s, rest).
Proof.
  revert s; induction n as [|n IH]; intros s Hn.
  - destruct s; [reflexivity|cbn in Hn; lia].
  - destruct s as [|c r]; [reflexivity|]. cbn [quote_body].
    cbn in Hn.
    destruct (is_high_surrogate c) eqn:Hh.
    + assert (Hc : (55296 <= c /\ c <= 56319)%N).
      { unfold is_high_surrogate in Hh. apply andb_true_iff in Hh as [A B].
        apply N.leb_le in A. apply N.leb_le in B. lia. }
      destruct r as [|c2 r2].
      * cbn [app]. rewrite lex_string_escape by lia. reflexivity.
      * destruct (is_low_surrogate c2) eqn:Hl.
        -- assert (Hc2 : (56320 <= c2)%N).
           { unfold is_low_surrogate in Hl. apply andb_true_iff in Hl as [A _].
             apply N.leb_le in A. lia. }
           cbn [app]. rewrite lex_string_literal by lia.
           rewrite lex_string_literal by lia.
           rewrite IH by (cbn in Hn; lia). reflexivity.
        -- rewrite <- app_assoc. rewrite lex_string_escape by lia.
           rewrite IH by (cbn in Hn |- *; lia). reflexivity.
    + rewrite <- app_assoc. rewrite lex_string_quote_char.
      rewrite IH by lia. reflexivity.
Qed.

(** Quoting a string and reading the string literal back are inverse. *)
Lemma lex_string_quoted (s rest : jsstring) :
  lex_string (quote_body s ++ 34%N :: rest) = Some (s, rest).
Proof. now apply (lex_string_quoted_len (List.length s)). Qed.

(** ** The lexer: fuel *)

Lemma skip_ws_length (s : jsstring) :
  (List.length (skip_ws s) <= List.length s)%nat.
Proof.
  induction s as [|c r IH]; cbn; [lia|].
  destruct (is_json_ws c); cbn; lia.
Qed.

Lemma strip_prefix_length (p s r : jsstring) :
  strip_prefix p s = Some r ->
  (List.length r + List.length p = List.length s)%nat.
Proof.
  revert s; induction p as [|x p IH]; intros [|y s]; cbn;
    try discriminate; try (intros [= <-]; cbn; lia).
  destruct (N.eqb x y); [|discriminate]. intros H. apply IH in H. lia.
Qed.

Lemma lex_string_shorter_len (n : nat) (s t r : jsstring) :
  (List.length s <= n)%nat ->
  lex_string s = Some (t, r) -> (List.length r < List.length s)%nat.
Proof.
  revert s t r; induction n as [|n IH]; intros s t r Hn.
  - destruct s; [discriminate|cbn in Hn; lia].
  - destruct s as [|c s]; [discriminate|]. cbn in Hn. cbn [lex_string].
    destruct (N.eqb c 34); [intros [= <- <-]; cbn; lia|].
    destruct (N.eqb c 92).
    + destruct s as [|e r1]; [discriminate|]. cbn in Hn.
      assert (S1 : forall u : N,
        match lex_string r1 with
        | Some (t0, r') => Some (u :: t0, r')
        | None => None
        end = Some (t, r) ->
        (List.length r < List.length (c :: e :: r1))%nat).
      { intros u H. destruct (lex_string r1) as [[t0 r']|] eqn:E; [|discriminate].
        injection H as _ <-. apply IH in E; [cbn; lia|lia]. }
      repeat match goal with
             | |- (if ?b then _ else _) = _ -> _ => destruct b; [now apply S1|]
             end.
      destruct (N.eqb e 117); [|discriminate].
      destruct r1 as [|h1 [|h2 [|h3 [|h4 r2]]]]; try discriminate.
      destruct (hex_value h1), (hex_value h2), (hex_value h3), (hex_value h4);
        try discriminate.
      destruct (lex_string r2) as [[t0 r']|] eqn:E; [|discriminate].
      intros [= _ <-]. apply IH in E; [cbn; lia|cbn in Hn; lia].
    + destruct (c <? 32)%N; [discriminate|].
      destruct (lex_string s) as [[t0 r']|] eqn:E; [|discriminate].
      intros [= _ <-]. apply IH in E; [cbn; lia|lia].
Qed.

Lemma take_digits_length (s : jsstring) :
  (List.length (snd (take_digits s)) + List.length (fst (take_digits s))
   = List.length s)%nat.
Proof.
  induction s as [|c r IH]; [reflexivity|]. cbn [take_digits].
  destruct (is_digit c); [|cbn; lia].
  destruct (take_digits r) as [ds r']. cbn in *. lia.
Qed.

Lemma signed_digits_shorter (s r : jsstring) (x : Z) :
  signed_digits s = Some (x, r) -> (List.length r < List.length s)%nat.
Proof.
  unfold signed_digits.
  assert (H : forall u : jsstring,
    match take_digits u with
    | ([], _) => None
    | (d :: ds, r') =>
        Some (x, r') 
    end = Some (x, r) -> (List.length r < List.length u)%nat).
  { intros u. pose proof (take_digits_length u) as L.
    destruct (take_digits u) as [[|d ds] r']; [discriminate|].
    intros [= <-]. cbn in L. lia. }
  destruct s as [|c s'].
  - cbn. discriminate.
  - destruct (N.eqb c ch_plus); [|destruct (N.eqb c ch_minus)].
    + pose proof (take_digits_length s') as L.
      destruct (take_digits s') as [[|d ds] r']; [discriminate|].
      intros [= _ <-]. cbn in L |- *. lia.
    + pose proof (take_digits_length s') as L.
      destruct (take_digits s') as [[|d ds] r']; [discriminate|].
      intros [= _ <-]. cbn in L |- *. lia.
    + pose proof (take_digits_length (c :: s')) as L.
      destruct (take_digits (c :: s')) as [[|d ds] r']; [discriminate|].
      intros [= _ <-]. cbn in L |- *. lia.
Qed.

Lemma lex_fraction_length (s r : jsstring) (f : list N) :
  lex_fraction s = Some (f, r) -> (List.length r <= List.length s)%nat.
Proof.
  destruct s as [|c s']; cbn [lex_fraction]; [intros [= _ <-]; lia|].
  destruct (N.eqb c ch_dot); [|intros [= _ <-]; lia].
  pose proof (take_digits_length s') as L.
  destruct (take_digits s') as [[|f0 f'] r']; [discriminate|].
  intros [= _ <-]. cbn in L |- *. lia.
Qed.

Lemma lex_exponent_length (s r : jsstring) (x : Z) :
  lex_exponent s = Some (x, r) -> (List.length r <= List.length s)%nat.
Proof.
  destruct s as [|c s']; cbn [lex_exponent]; [intros [= _ <-]; lia|].
  destruct (is_exp_char c); [|intros [= _ <-]; lia].
  intros H. apply signed_digits_shorter in H. cbn. lia.
Qed.

Lemma lex_unsigned_shorter (neg : bool) (s r : jsstring) (x : number) :
  lex_unsigned neg s = Some (x, r) -> (List.length r < List.length s)%nat.
Proof.
  unfold lex_unsigned. pose proof (take_digits_length s) as L.
  destruct (take_digits s) as [i r1]. cbn [fst snd] in L.
  assert (Hi : i <> [] ->
    match lex_fraction r1 with
    | Some (f, r2) =>
        match lex_exponent r2 with
        | Some (ex, r3) => Some (decimal_value neg i f ex, r3)
        | None => None
        end
    | None => None
    end = Some (x, r) -> (List.length r < List.length s)%nat).
  { intros Hne.
    assert (Li : (0 < List.length i)%nat) by (destruct i; [congruence|cbn; lia]).
    destruct (lex_fraction r1) as [[f r2]|] eqn:Ef; [|discriminate].
    destruct (lex_exponent r2) as [[ex r3]|] eqn:Ex; [|discriminate].
    intros [= _ <-]. apply lex_fraction_length in Ef.
    apply lex_exponent_length in Ex. lia. }
  destruct i as [|d i']; [discriminate|].
  destruct d as [|p]; [destruct i' as [|d' i'']; [|discriminate]|];
    apply Hi; discriminate.
Qed.

Lemma lex_number_shorter (s r : jsstring) (x : number) :
  lex_number s = Some (x, r) -> (List.length r < List.length s)%nat.
Proof.
  destruct s as [|c s']; [discriminate|]. cbn [lex_number].
  destruct (N.eqb c ch_minus); intros H; apply lex_unsigned_shorter in H;
    cbn in *; lia.
Qed.

(** Every token takes a character or more. *)
Lemma next_token_shorter (s r : jsstring) (t : token) :
  next_token s = LexTok t r -> (List.length r < List.length s)%nat.
Proof.
  unfold next_token. pose proof (skip_ws_length s) as L.
  destruct (skip_ws s) as [|c u]; [discriminate|]. cbn [List.length] in L.
  repeat match goal with
         | |- (if N.eqb c ?k then LexTok _ u else _) = _ -> _ =>
             destruct (N.eqb c k); [intros [= _ <-]; lia|]
         end.
  destruct (N.eqb c 34).
  { destruct (lex_string u) as [[t0 r']|] eqn:E; [|discriminate].
    intros [= _ <-]. apply (lex_string_shorter_len (List.length u)) in E; lia. }
  destruct (N.eqb c ch_minus || is_digit c).
  { destruct (lex_number (c :: u)) as [[x r']|] eqn:E; [|discriminate].
    intros [= _ <-]. apply lex_number_shorter in E. cbn in E. lia. }
  destruct (strip_prefix (js "true") (c :: u)) as [r1|] eqn:E1.
  { intros [= _ <-]. apply strip_prefix_length in E1. cbn in E1. lia. }
  destruct (strip_prefix (js "false") (c :: u)) as [r2|] eqn:E2.
  { intros [= _ <-]. apply strip_prefix_length in E2. cbn in E2. lia. }
  destruct (strip_prefix (js "null") (c :: u)) as [r3|] eqn:E3; [|discriminate].
  intros [= _ <-]. apply strip_prefix_length in E3. cbn in E3. lia.
Qed.

Lemma lex_fuel (f1 f2 : nat) (s : jsstring) :
  (List.length s < f1)%nat -> (List.length s < f2)%nat ->
  lex f1 s = lex f2 s.
Proof.
  revert f2 s; induction f1 as [|f1 IH]; intros f2 s H1 H2; [lia|].
  destruct f2 as [|f2]; [lia|]. cbn [lex].
  destruct (next_token s) as [| |t r] eqn:E; try reflexivity.
  apply next_token_shorter in E. rewrite (IH f2 r); [reflexivity|lia|lia].
Qed.

Lemma tokenize_eq (s : jsstring) :
  tokenize s =
    match next_token s with
    | LexEnd => Some []
    | LexError => None
    | LexTok t r =>
        match tokenize r with
        | Some ts => Some (t :: ts)
        | None => None
        end
    end.
Proof.
  unfold tokenize. cbn [lex].
  destruct (next_token s) as [| |t r] eqn:E; try reflexivity.
  apply next_token_shorter in E.
  rewrite (lex_fuel (List.length s) (S (List.length r)) r); [reflexivity|lia|lia].
Qed.

(** ** The lexer on printed values *)

Lemma jsval_ind2 (P : jsval -> Prop) :
  P JNull ->
  (forall b, P (JBool b)) ->
  (forall x, P (JNum x)) ->
  (forall s, P (JStr s)) ->
  (forall items, Forall P items -> P (JArr items)) ->
  (forall props, Forall (fun kv => P (snd kv)) props -> P (JObj props)) ->
  forall v, P v.
Proof.
  intros Hn Hb Hx Hs Ha Ho.
  exact (fix IH (v : jsval) : P v :=
           match v with
           | JNull => Hn
           | JBool b => Hb b
           | JNum x => Hx x
           | JStr s => Hs s
           | JArr items =>
               Ha items
                 ((fix all (l : list jsval) : Forall P l :=
                     match l with
                     | [] => Forall_nil P
                     | x :: r => Forall_cons x (IH x) (all r)
                     end) items)
           | JObj props =>
               Ho props
                 ((fix all (l : list (jsstring * jsval))
                     : Forall (fun kv => P (snd kv)) l :=
                     match l with
                     | [] => Forall_nil _
                     | kv :: r =>
                         Forall_cons (P := fun kv => P (snd kv)) kv
                           (IH (snd kv)) (all r)
                     end) props)
           end).
Qed.

Lemma canonical_arr (items : list jsval) :
  canonical (JArr items) <-> Forall canonical items.
Proof.
  cbn [canonical]. induction items as [|x r IH].
  - split; constructor.
  - split.
    + intros [H1 H2]. constructor; [exact H1|now apply IH].
    + intros H. inversion H; subst. split; [assumption|now apply IH].
Qed.

Lemma canonical_obj (props : list (jsstring * jsval)) :
  canonical (JObj props) <->
  obj_of_members props = props /\ Forall (fun kv => canonical (snd kv)) props.
Proof.
  cbn [canonical].
  assert (E : (fix all (l : list (jsstring * jsval)) : Prop :=
                 match l with
                 | [] => True
                 | kv :: r => canonical (snd kv) /\ all r
                 end) props
              <-> Forall (fun kv => canonical (snd kv)) props).
  { induction props as [|x r IH].
    - split; constructor.
    - split.
      + intros [H1 H2]. constructor; [exact H1|now apply IH].
      + intros H. inversion H; subst. split; [assumption|now apply IH]. }
  tauto.
Qed.

Lemma prepend_app (a b : list token) (o : option (list token)) :
  prepend (a ++ b) o = prepend a (prepend b o).
Proof. destruct o; cbn; [now rewrite app_assoc|reflexivity]. Qed.

Lemma skip_ws_blank (w s : jsstring) : blank w -> skip_ws (w ++ s) = skip_ws s.
Proof.
  unfold blank. induction w as [|c w IH]; cbn; [reflexivity|].
  intros H. apply andb_true_iff in H as [-> H]. now apply IH.
Qed.

Lemma tokenize_blank (w s : jsstring) :
  blank w -> tokenize (w ++ s) = tokenize s.
Proof.
  intros H. rewrite (tokenize_eq (w ++ s)), (tokenize_eq s).
  unfold next_token. now rewrite skip_ws_blank.
Qed.

Lemma tokenize_quote (k s : jsstring) :
  tokenize (quote k ++ s) = prepend [TString k] (tokenize s).
Proof.
  rewrite tokenize_eq. unfold quote, next_token.
  cbn [app skip_ws is_json_ws N.eqb Pos.eqb orb].
  rewrite <- app_assoc. cbn [app]. rewrite lex_string_quoted.
  now destruct (tokenize s).
Qed.

Lemma lex_number_head (s r : jsstring) (x : number) :
  lex_number s = Some (x, r) ->
  exists c u, s = c :: u /\ (c = ch_minus \/ is_digit c = true).
Proof.
  destruct s as [|c u]; [discriminate|]. cbn [lex_number].
  intros H. exists c, u. split; [reflexivity|].
  destruct (N.eqb_spec c ch_minus) as [->|_]; [now left|right].
  unfold lex_unsigned in H. cbn [take_digits] in H.
  destruct (is_digit c); [reflexivity|discriminate].
Qed.

Lemma tokenize_number (x : number) (s : jsstring) :
  json_number x -> num_delimited s ->
  tokenize (Number_toString x ++ s) = prepend [TNumber x] (tokenize s).
Proof.
  intros Hx Hs. pose proof (lex_number_printed x s Hx Hs) as L.
  destruct (lex_number_head _ _ _ L) as (c & u & E & Hc).
  rewrite tokenize_eq. unfold next_token. rewrite E in L |- *.
  assert (Hc' : c = 45%N \/ (48 <= c <= 57)%N).
  { destruct Hc as [->|Hc]; [now left|right].
    unfold is_digit in Hc. apply andb_true_iff in Hc as [A B].
    apply N.leb_le in A. apply N.leb_le in B. lia. }
  assert (Hws : is_json_ws c = false).
  { unfold is_json_ws.
    repeat (apply orb_false_iff; split); apply N.eqb_neq; lia. }
  cbn [skip_ws]. rewrite Hws.
  repeat match goal with
         | |- context [N.eqb c ?k] =>
             replace (N.eqb c k) with false by (symmetry; apply N.eqb_neq; lia)
         end.
  assert (Hd : N.eqb c ch_minus || is_digit c = true).
  { destruct Hc as [-> | ->]; [reflexivity|apply orb_true_r]. }
  rewrite Hd, L. now destruct (tokenize s).
Qed.

Lemma tokenize_punct (c : N) (t : token) (s : jsstring) :
  next_token [c] = LexTok t [] -> is_json_ws c = false ->
  In c [123; 125; 91; 93; 58; 44]%N ->
  tokenize (c :: s) = prepend [t] (tokenize s).
Proof.
  intros H Hws Hin. rewrite tokenize_eq.
  assert (E : next_token (c :: s) = LexTok t s).
  { cbn in Hin.
    destruct Hin as [<-|[<-|[<-|[<-|[<-|[<-|[]]]]]]];
      cbn in H |- *; congruence. }
  rewrite E. now destruct (tokenize s).
Qed.

Lemma tokenize_comma (s : jsstring) :
  tokenize (44%N :: s) = prepend [TComma] (tokenize s).
Proof. apply tokenize_punct; cbn; auto 10. Qed.

Lemma tokenize_colon (s : jsstring) :
  tokenize (58%N :: s) = prepend [TColon] (tokenize s).
Proof. apply tokenize_punct; cbn; auto 10. Qed.

Lemma join_cons2 {A : Type} (sep p p' : list A) (ps : list (list A)) :
  join sep (p :: p' :: ps) = p ++ sep ++ join sep (p' :: ps).
Proof. reflexivity. Qed.

Lemma tokenize_join (nl : jsstring) (parts : list jsstring)
    (toks : list (list token)) (tail : jsstring) :
  blank nl -> Forall2 reads_as parts toks -> parts <> [] ->
  num_delimited tail ->
  tokenize (nl ++ join (44%N :: nl) parts ++ tail)
  = prepend (join [TComma] toks) (tokenize tail).
Proof.
  intros Hnl HF. induction HF as [|p t ps ts Hp HF IH]; [congruence|].
  intros _ Ht. rewrite tokenize_blank by exact Hnl.
  destruct HF as [|p' t' ps' ts' Hp' HF'].
  - cbn [join]. now apply Hp.
  - rewrite (join_cons2 (44%N :: nl)), (join_cons2 [TComma]).
    rewrite <- !app_assoc. rewrite Hp by reflexivity.
    cbn [app]. rewrite tokenize_comma.
    rewrite IH by (congruence || assumption).
    destruct (tokenize tail); cbn; [|reflexivity].
    now rewrite <- app_assoc.
Qed.

Lemma wrap_eq (lb rb : N) (gap indent : jsstring) (parts : list jsstring) :
  wrap lb rb gap indent parts =
    match parts with
    | [] => [lb; rb]
    | _ =>
        lb :: match gap with [] => [] | _ => 10%N :: indent ++ gap end
          ++ join (44%N :: match gap with
                           | [] => []
                           | _ => 10%N :: indent ++ gap
                           end) parts
          ++ match gap with [] => [] | _ => 10%N :: indent end ++ [rb]
    end.
Proof.
  destruct parts as [|p ps]; [reflexivity|].
  destruct gap as [|g gap]; cbn [wrap app]; reflexivity.
Qed.

Lemma blank_app (a b : jsstring) : blank a -> blank b -> blank (a ++ b).
Proof. unfold blank. intros Ha Hb. now rewrite forallb_app, Ha, Hb. Qed.

Lemma blank_newline (w : jsstring) : blank w -> blank (10%N :: w).
Proof. unfold blank. intros H. cbn. exact H. Qed.

Lemma tokenize_wrap (lb rb : N) (tl tr : token) (gap indent : jsstring)
    (parts : list jsstring) (toks : list (list token)) :
  (forall s, tokenize (lb :: s) = prepend [tl] (tokenize s)) ->
  (forall s, tokenize (rb :: s) = prepend [tr] (tokenize s)) ->
  (forall s, num_delimited (rb :: s)) ->
  blank gap -> blank indent ->
  Forall2 reads_as parts toks ->
  reads_as (wrap lb rb gap indent parts) (tl :: join [TComma] toks ++ [tr]).
Proof.
  intros Hlb Hrb Hrd Hg Hi HF rest _. rewrite wrap_eq.
  destruct HF as [|p t ps ts Hp HF].
  - cbn [app]. rewrite Hlb, Hrb. now destruct (tokenize rest).
  - set (nl := match gap with [] => [] | _ => 10%N :: indent ++ gap end).
    set (nlo := match gap with [] => [] | _ => 10%N :: indent end).
    assert (Hnl : blank nl).
    { unfold nl. destruct gap; [reflexivity|].
      apply blank_newline. now apply blank_app. }
    assert (Hnlo : blank nlo).
    { unfold nlo. destruct gap; [reflexivity|]. now apply blank_newline. }
    cbn [app]. rewrite Hlb. rewrite <- !app_assoc.
    rewrite (tokenize_join nl (p :: ps) (t :: ts)); try assumption.
    + rewrite tokenize_blank by exact Hnlo. cbn [app]. rewrite Hrb.
      destruct (tokenize rest); cbn; [|reflexivity].
      now rewrite <- !app_assoc.
    + now constructor.
    + discriminate.
    + unfold nlo. destruct gap; cbn [app]; [apply Hrd|reflexivity].
Qed.

(** A printed value reads as its tokens. *)
Lemma tokenize_serialize (v : jsval) :
  forall gap indent,
    blank gap -> blank indent -> canonical v ->
    reads_as (serialize gap indent v) (tokens v).
Proof.
  induction v as [| b | x | s | items IH | props IH] using jsval_ind2;
    intros gap indent Hg Hi Hc rest Hr.
  - rewrite tokenize_eq. cbn. now destruct (tokenize rest).
  - rewrite tokenize_eq. destruct b; cbn; now destruct (tokenize rest).
  - cbn [serialize tokens]. destruct Hc as (Hw & Hf & Hz). rewrite Hf.
    apply tokenize_number; [now repeat split|exact Hr].
  - cbn [serialize tokens]. apply tokenize_quote.
  - cbn [serialize tokens]. apply canonical_arr in Hc.
    apply tokenize_wrap; try assumption.
    + intros s0. apply tokenize_punct; cbn; auto 10.
    + intros s0. apply tokenize_punct; cbn; auto 10.
    + reflexivity.
    + clear Hr rest. induction items as [|y r IHr]; [constructor|].
      inversion IH; subst. inversion Hc; subst. cbn [List.map].
      constructor; [|now apply IHr].
      intros rest Hr. apply H1; auto. now apply blank_app.
  - cbn [serialize tokens]. apply canonical_obj in Hc as [_ Hc].
    apply tokenize_wrap; try assumption.
    + intros s0. apply tokenize_punct; cbn; auto 10.
    + intros s0. apply tokenize_punct; cbn; auto 10.
    + reflexivity.
    + clear Hr rest. induction props as [|[k y] r IHr]; [constructor|].
      inversion IH; subst. inversion Hc; subst. cbn [List.map fst snd].
      constructor; [|now apply IHr].
      intros rest Hr. rewrite <- !app_assoc. rewrite tokenize_quote.
      cbn [app]. rewrite tokenize_colon. rewrite <- app_assoc.
      rewrite tokenize_blank by (destruct gap; reflexivity).
      cbn [snd] in *. rewrite H1; auto; [|now apply blank_app].
      now destruct (tokenize rest).
Qed.

(** ** The parser on the tokens of a value *)

Lemma tokens_head (v : jsval) :
  exists t l, tokens v = t :: l /\ opens_value t = true.
Proof. destruct v as [| [|] | | | |]; cbn; eauto. Qed.

Lemma parse_value_array (f : nat) (t : token) (ts : list token) :
  opens_value t = true ->
  parse_value (S f) (TLBracket :: t :: ts) =
    match parse_elements f (t :: ts) with
    | Some (vs, r) => Some (JArr vs, r)
    | None => None
    end.
Proof. now destruct t. Qed.

Lemma parse_elements_tokens (items : list jsval) :
  Forall parses items -> items <> [] ->
  forall fuel rest,
    (list_sum (List.map (fun x => S (size x)) items) <= fuel)%nat ->
    parse_elements fuel
      (join [TComma] (List.map tokens items) ++ TRBracket :: rest)
    = Some (items, rest).
Proof.
  induction 1 as [|x r Hx HF IH]; [congruence|]. intros _ fuel rest Hf.
  cbn [List.map list_sum fold_right] in Hf. destruct fuel as [|g]; [lia|].
  cbn [parse_elements]. destruct r as [|y r'].
  - cbn [List.map join]. cbn in Hf. rewrite Hx by lia. reflexivity.
  - cbn [List.map]. rewrite join_cons2, <- !app_assoc.
    cbn [List.map list_sum fold_right] in Hf.
    rewrite Hx by lia. cbn [app].
    change (tokens y :: List.map tokens r') with (List.map tokens (y :: r')).
    rewrite IH by (try discriminate; cbn [List.map list_sum fold_right]; lia).
    reflexivity.
Qed.

Lemma parse_members_tokens (props : list (jsstring * jsval)) :
  Forall (fun kv => parses (snd kv)) props -> props <> [] ->
  forall fuel rest,
    (list_sum (List.map (fun kv => S (size (snd kv))) props) <= fuel)%nat ->
    parse_members fuel
      (join [TComma]
         (List.map (fun kv => TString (fst kv) :: TColon :: tokens (snd kv))
            props)
       ++ TRBrace :: rest)
    = Some (props, rest).
Proof.
  induction 1 as [|[k x] r Hx HF IH]; [congruence|]. intros _ fuel rest Hf.
  cbn [List.map list_sum fold_right fst snd] in Hf, Hx.
  destruct fuel as [|g]; [lia|].
  destruct r as [|y r'].
  - cbn [List.map join fst snd app parse_members].
    cbn in Hf. rewrite Hx by lia. reflexivity.
  - cbn [List.map]. rewrite join_cons2, <- !app_assoc.
    cbn [List.map list_sum fold_right] in Hf.
    cbn [fst snd app parse_members].
    rewrite Hx by lia. cbn [app].
    change ((TString (fst y) :: TColon :: tokens (snd y))
              :: List.map (fun kv => TString (fst kv) :: TColon :: tokens (snd kv)) r')
      with (List.map (fun kv => TString (fst kv) :: TColon :: tokens (snd kv))
              (y :: r')).
    rewrite IH by (try discriminate; cbn [List.map list_sum fold_right]; lia).
    reflexivity.
Qed.

(** The parser gives a canonical value back from its tokens. *)
Lemma parse_value_tokens (v : jsval) : canonical v -> parses v.
Proof.
  induction v as [| b | x | s | items IH | props IH] using jsval_ind2;
    intros Hc fuel rest Hf.
  - destruct fuel; [cbn in Hf; lia|reflexivity].
  - destruct fuel; [cbn in Hf; lia|]. now destruct b.
  - destruct fuel; [cbn in Hf; lia|reflexivity].
  - destruct fuel; [cbn in Hf; lia|reflexivity].
  - apply canonical_arr in Hc. cbn [size] in Hf.
    destruct fuel as [|g]; [lia|]. cbn [tokens].
    assert (HP : Forall parses items).
    { clear Hf. induction items as [|y r IHr]; [constructor|].
      inversion IH; subst. inversion Hc; subst. constructor; auto. }
    destruct items as [|x r]; [reflexivity|].
    pose proof (parse_elements_tokens (x :: r) HP ltac:(discriminate) g rest
                  ltac:(lia)) as E.
    cbn [app]. rewrite <- app_assoc. cbn [app].
    destruct (tokens_head x) as (t & l & Et & Ho).
    assert (Ej : exists l', join [TComma] (List.map tokens (x :: r))
                            ++ TRBracket :: rest = t :: l').
    { cbn [List.map]. destruct r as [|y r'].
      - cbn [join List.map]. rewrite Et. cbn. eauto.
      - cbn [List.map]. rewrite join_cons2, Et. cbn. eauto. }
    destruct Ej as [l' Ej]. rewrite Ej in E |- *.
    rewrite parse_value_array by exact Ho. now rewrite E.
  - apply canonical_obj in Hc as [Ho Hc]. cbn [size] in Hf.
    destruct fuel as [|g]; [lia|]. cbn [tokens].
    assert (HP : Forall (fun kv => parses (snd kv)) props).
    { clear Hf Ho. induction props as [|y r IHr]; [constructor|].
      inversion IH; subst. inversion Hc; subst. constructor; auto. }
    destruct props as [|[k x] r]; [reflexivity|].
    pose proof (parse_members_tokens ((k, x) :: r) HP ltac:(discriminate) g rest
                  ltac:(lia)) as E.
    cbn [app]. rewrite <- app_assoc. cbn [app].
    assert (Ej : exists l', join [TComma]
                   (List.map (fun kv => TString (fst kv) :: TColon :: tokens (snd kv))
                      ((k, x) :: r))
                 ++ TRBrace :: rest = TString k :: l').
    { cbn [List.map fst snd]. destruct r as [|y r'].
      - cbn [join List.map]. cbn. eauto.
      - cbn [List.map]. rewrite join_cons2. cbn. eauto. }
    destruct Ej as [l' Ej]. rewrite Ej in E |- *.
    cbn [parse_value]. rewrite E, Ho. reflexivity.
Qed.

Lemma join_length {A : Type} (sep : list A) (parts : list (list A)) :
  parts <> [] ->
  (List.length (join sep parts) + List.length sep
   = list_sum (List.map (fun p => List.length p + List.length sep) parts))%nat.
Proof.
  induction parts as [|p ps IH]; [congruence|]. intros _.
  destruct ps as [|p' ps'].
  - cbn [join List.map list_sum fold_right]. lia.
  - rewrite join_cons2, !length_app.
    specialize (IH ltac:(discriminate)).
    change (list_sum (List.map (fun p0 => (List.length p0 + List.length sep)%nat)
                        (p :: p' :: ps')))
      with ((List.length p + List.length sep)
            + list_sum (List.map (fun p0 => (List.length p0 + List.length sep)%nat)
                          (p' :: ps')))%nat.
    lia.
Qed.

Lemma list_sum_le {A : Type} (f g : A -> nat) (l : list A) :
  Forall (fun x => f x <= g x)%nat l ->
  (list_sum (List.map f l) <= list_sum (List.map g l))%nat.
Proof.
  induction 1 as [|x r Hx _ IH]; [reflexivity|].
  change (f x + list_sum (List.map f r) <= g x + list_sum (List.map g r))%nat.
  lia.
Qed.

Lemma size_tokens (v : jsval) : (size v <= List.length (tokens v))%nat.
Proof.
  induction v as [| b | x | s | items IH | props IH] using jsval_ind2;
    try (cbn; lia).
  - now destruct b.
  - cbn [size tokens List.length]. rewrite length_app. cbn [List.length].
    destruct items as [|x r]; [cbn; lia|].
    pose proof (join_length [TComma] (List.map tokens (x :: r))
                  ltac:(discriminate)) as J.
    cbn [List.length] in J. rewrite map_map in J.
    pose proof (list_sum_le (fun x => S (size x))
                  (fun x => List.length (tokens x) + 1)%nat (x :: r)) as L.
    cbv beta in L. rewrite <- J in L.
    assert (Forall (fun x0 => (S (size x0) <= List.length (tokens x0) + 1)%nat)
              (x :: r)) as HF.
    { eapply Forall_impl; [|exact IH]. cbv beta. intros; lia. }
    specialize (L HF). lia.
  - cbn [size tokens List.length]. rewrite length_app. cbn [List.length].
    destruct props as [|x r]; [cbn; lia|].
    pose proof (join_length [TComma]
                  (List.map (fun kv => TString (fst kv) :: TColon :: tokens (snd kv))
                     (x :: r)) ltac:(discriminate)) as J.
    cbn [List.length] in J. rewrite map_map in J.
    pose proof (list_sum_le (fun kv => S (size (snd kv)))
                  (fun kv => List.length
                               (TString (fst kv) :: TColon :: tokens (snd kv)) + 1)%nat
                  (x :: r)) as L.
    cbv beta in L. rewrite <- J in L.
    assert (Forall (fun kv => (S (size (snd kv))
                               <= List.length
                                    (TString (fst kv) :: TColon :: tokens (snd kv)) + 1)%nat)
              (x :: r)) as HF.
    { eapply Forall_impl; [|exact IH]. cbv beta. intros; cbn [List.length]; lia. }
    specialize (L HF). lia.
Qed.

(** [JSON.parse] undoes [JSON.stringify] on canonical values, whatever the
    indentation. *)
Lemma JSON_parse_stringify (v : jsval) (space : nat) :
  canonical v -> JSON_parse (JSON_stringify v space) = Ok v.
Proof.
  intros Hc. unfold JSON_parse, JSON_stringify.
  set (gap := repeat 32%N (Nat.min space 10)).
  assert (Hg : blank gap).
  { unfold blank, gap. induction (Nat.min space 10); cbn; auto. }
  pose proof (tokenize_serialize v gap [] Hg eq_refl Hc [] eq_refl) as T.
  rewrite app_nil_r in T. unfold tokenize at 1 in T. rewrite T.
  cbn [prepend tokenize lex next_token skip_ws List.length].
  rewrite app_nil_r.
  pose proof (parse_value_tokens v Hc (S (List.length (tokens v))) []) as P.
  rewrite app_nil_r in P. rewrite P; [reflexivity|].
  pose proof (size_tokens v). lia.
Qed.

(** ** C1: export, then import *)

Lemma of_value_to_value (e : FoodItem.t) :
  FoodItem.of_value (FoodItem.to_value e) = Some e.
Proof. now destruct e. Qed.

Lemma canonical_item (e : FoodItem.t) :
  exact_item e -> canonical (FoodItem.to_value e).
Proof.
  intros (H1 & H2 & H3 & H4 & H5). apply canonical_obj. split.
  - reflexivity.
  - repeat (apply Forall_cons || apply Forall_nil); cbn [snd canonical];
      trivial.
Qed.

(** C1, the claim on the ledger that holds [feast]: the item has its six
    fields with their types (the ledger comes from importing [feast_file]),
    the export writes its calories as [null], and importing that text fails
    with "Invalid diet plan format", the ledger of the importing state
    staying empty. *)
Lemma export_import_loses_infinity :
  let s := importDiet_onload feast_file initial_state in
  foodItems s = [FoodItem.to_value feast]
  /\ FoodItem.of_value (FoodItem.to_value feast) = Some feast
  /\ JSON_parse (exportDiet s)
     = Ok (JArr [JObj [(js "name", JStr (js "Feast"));
                       (js "calories", JNull);
                       (js "protein", JNum num_zero);
                       (js "carbs", JNum num_zero);
                       (js "fat", JNum num_zero);
                       (js "weight", JNum num_zero)]])
  /\ importDiet_onload (exportDiet s) initial_state
     = setError invalid_format_message initial_state.
Proof. vm_compute. repeat split. Qed.

(** C1 (amended). For every list of items whose numbers are finite and not
    the negative zero, importing the text that export produces for the
    ledger holding them succeeds and makes the ledger of the importing
    state that same list, in the same order; nothing else changes. *)
Theorem export_import_roundtrip
    (entries : list FoodItem.t) (s s' : state) :
  Forall exact_item entries ->
  foodItems s = List.map FoodItem.to_value entries ->
  importDiet_onload (exportDiet s) s'
  = setFoodItems (List.map FoodItem.to_value entries) s'.
Proof.
  intros He Hs. rewrite importDiet_onload_cases. unfold exportDiet.
  rewrite Hs, JSON_parse_stringify.
  - rewrite first_invalid_typed; [reflexivity|].
    apply Forall_forall. intros v Hv. apply in_map_iff in Hv as (e & <- & _).
    rewrite of_value_to_value. discriminate.
  - apply canonical_arr. apply Forall_forall. intros v Hv.
    apply in_map_iff in Hv as (e & <- & Hin). apply canonical_item.
    now apply (proj1 (Forall_forall _ _) He).
Qed.

Lemma json_number_decimal (d e : Z) :
  wf_number (decimal_to_double false d e) ->
  is_finite (decimal_to_double false d e) = true ->
  json_number (decimal_to_double false d e).
Proof.
  intros Hw Hf. refine (conj Hw (conj Hf _)).
  unfold decimal_to_double. rewrite nearest_double_sign.
  destruct (nearest_double false _ _); discriminate.
Qed.

(** A ledger of a banana and a pinch of salt comes back from its export. *)
Lemma export_import_roundtrip_witness :
  let s := setFoodItems (List.map FoodItem.to_value [banana; pinch])
             initial_state in
  importDiet_onload (exportDiet s) initial_state = s.
Proof.
  cbv zeta.
  apply (export_import_roundtrip [banana; pinch]); [|reflexivity].
  assert (Hz : json_number num_zero) by (repeat split; discriminate).
  repeat (apply Forall_cons || apply Forall_nil);
    refine (conj _ (conj _ (conj _ (conj _ _))));
    first [ exact Hz | apply json_number_decimal; vm_compute; reflexivity ].
Defined.

(* ================================================================== *)
(** * Part III: the rest of the component *)
(* ================================================================== *)

(** ** Helpers: white space, runs, lists *)

Lemma trim_start_nil (s : jsstring) :
  trim_start s = [] <-> all_space s = true.
Proof.
  unfold all_space. induction s as [|c r IH]; cbn; [tauto|].
  destruct (is_js_space c); cbn; [exact IH|]. split; discriminate.
Qed.

Lemma trim_start_head (s : jsstring) (c : N) (r : jsstring) :
  trim_start s = c :: r -> is_js_space c = false.
Proof.
  induction s as [|x s IH]; cbn; [discriminate|].
  destruct (is_js_space x) eqn:E; [exact IH|]. intros [= <- _]. exact E.
Qed.

(** [trim] empties exactly the strings of white space. *)
Lemma trim_nil (s : jsstring) : trim s = [] <-> all_space s = true.
Proof.
  unfold trim. split.
  - intros H. apply (f_equal (@rev N)) in H. rewrite rev_involutive in H.
    cbn in H. apply trim_start_nil in H.
    destruct (trim_start s) as [|c r] eqn:E; [now apply trim_start_nil|].
    apply trim_start_head in E. unfold all_space in H.
    rewrite forallb_forall in H. specialize (H c).
    rewrite H in E; [discriminate|]. apply in_rev. rewrite rev_involutive.
    now left.
  - intros H. apply trim_start_nil in H. now rewrite H.
Qed.

Lemma trim_start_spaces (ws s : jsstring) :
  all_space ws = true -> trim_start (ws ++ s) = trim_start s.
Proof.
  unfold all_space. induction ws as [|c r IH]; cbn; [reflexivity|].
  destruct (is_js_space c); [exact IH|discriminate].
Qed.

Lemma trim_start_app (s u : jsstring) :
  starts_with is_js_space u = false -> u <> [] ->
  trim_start (s ++ u) = trim_start s ++ u.
Proof.
  intros Hu Hne. induction s as [|c r IH]; cbn.
  - destruct u as [|x u]; [congruence|]. cbn in Hu. cbn. now rewrite Hu.
  - destruct (is_js_space c); [exact IH|reflexivity].
Qed.

Lemma trim_start_idem (s : jsstring) :
  trim_start (trim_start s) = trim_start s.
Proof.
  induction s as [|c r IH]; cbn; [reflexivity|].
  destruct (is_js_space c) eqn:E; [exact IH|]. cbn. now rewrite E.
Qed.

Lemma trim_trim_start (s : jsstring) : trim (trim_start s) = trim s.
Proof. unfold trim. now rewrite trim_start_idem. Qed.

Lemma trim_start_length (t : jsstring) :
  (List.length (trim_start t) <= List.length t)%nat.
Proof.
  induction t as [|c r IH]; cbn; [lia|]. destruct (is_js_space c); cbn; lia.
Qed.

Lemma trim_start_id (s : jsstring) :
  starts_with is_js_space s = false -> trim_start s = s.
Proof. destruct s as [|c r]; cbn; [reflexivity|]. now intros ->. Qed.

(** [trim] leaves a string that neither starts nor ends with white space. *)
Lemma trim_id (s : jsstring) :
  starts_with is_js_space s = false ->
  starts_with is_js_space (rev s) = false ->
  trim s = s.
Proof.
  intros H1 H2. unfold trim. rewrite (trim_start_id s H1).
  rewrite (trim_start_id _ H2). apply rev_involutive.
Qed.

(** What every step keeps, every run keeps. *)
Lemma run_invariant (P : state -> Prop) :
  (forall s e, P s -> P (step s e)) ->
  forall es s, P s -> P (run s es).
Proof.
  intros Hstep es. induction es as [|e es IH]; intros s H; [exact H|].
  apply IH. now apply Hstep.
Qed.

Lemma Forall_remove_nth {A : Type} (P : A -> Prop) (i : nat) (l : list A) :
  Forall P l -> Forall P (remove_nth i l).
Proof.
  revert i; induction l as [|x l IH]; intros i H; [now destruct i|].
  inversion H; subst. destruct i; cbn; auto.
Qed.

Lemma setFoodName_pending (v : jsstring) (s : state) :
  suggestionFetches (setFoodName v s) = suggestionFetches s
  /\ nutritionFetches (setFoodName v s) = nutritionFetches s.
Proof. unfold setFoodName. now destruct (str_eqb v (foodName s)). Qed.

Lemma setFoodName_shown (v : jsstring) (s : state) :
  showSuggestions (setFoodName v s) = showSuggestions s
  /\ suggestions (setFoodName v s) = suggestions s.
Proof. unfold setFoodName. now destruct (str_eqb v (foodName s)). Qed.

(** ** Adding: a lookup that succeeds *)

(** A click on Add and the reply to the lookup it starts, together. *)
Lemma click_then_reply (s : state) (r : reply) :
  isLoading s = false ->
  trim (foodName s) <> [] ->
  run s [ClickAdd; NutritionReply (List.length (nutritionFetches s)) r]
  = handleAddFood_settle (call_of s) r (setError [] (setIsLoading true s)).
Proof.
  intros Hl Hn. cbn [run fold_left step]. rewrite Hl.
  unfold handleAddFood. destruct (trim (foodName s)) eqn:T; [congruence|].
  cbn [nutritionFetches with_nutritionFetches].
  now rewrite nth_error_last, remove_nth_last.
Qed.

Lemma handleAddFood_pending (s : state) :
  trim (foodName s) <> [] ->
  nutritionFetches (handleAddFood s) = nutritionFetches s ++ [call_of s].
Proof.
  intros H. unfold handleAddFood. now destruct (trim (foodName s)).
Qed.

Lemma step_nutrition_reply (s : state) (i : nat) (c : add_call) (r : reply) :
  nth_error (nutritionFetches s) i = Some c ->
  step s (NutritionReply i r)
  = handleAddFood_settle c r
      (with_nutritionFetches (remove_nth i (nutritionFetches s)) s).
Proof. intros H. cbn [step]. now rewrite H. Qed.

(** The ledger after a reply whose text is JSON, whatever the state it
    comes in. *)
Lemma settle_success_ledger (c : add_call) (r : reply) (v : jsval)
    (t : state) :
  reply_payload r = Ok v ->
  foodItems (handleAddFood_settle c r t) = call_foodItems c ++ [v].
Proof.
  intros H. unfold handleAddFood_settle. rewrite H.
  cbn [foodItems setShowSuggestions setSuggestions].
  now destruct (setFoodName_frame []
                  (setFoodItems (call_foodItems c ++ [v])
                     (setIsLoading false t)))
    as (-> & _).
Qed.

Lemma food_items_app (l : list jsval) (entries : list FoodItem.t)
    (v : jsval) (e : FoodItem.t) :
  food_items l = Some entries ->
  FoodItem.of_value v = Some e ->
  food_items (l ++ [v]) = Some (entries ++ [e]).
Proof.
  revert entries. induction l as [|x l IH]; intros entries Hl Hv.
  - injection Hl as <-. cbn. now rewrite Hv.
  - cbn in Hl |- *. destruct (FoodItem.of_value x) as [i|]; [|discriminate].
    destruct (food_items l) as [rest|]; [|discriminate].
    injection Hl as <-. now rewrite (IH rest eq_refl Hv).
Qed.

(** X1. The ledger holds food items, the name is not blank and nothing is
    loading. A click on Add, followed by a reply whose text is a JSON
    object with the six properties of a food item, each of its type: that
    object goes at the end of the ledger, and the totals shown are those
    of the items with the new one after them; the name is emptied (which
    sets the debounce timeout anew), the error message and the suggestions
    are cleared, nothing is loading any more, and unit and quantity stay. *)
Theorem add_food_success
    (s : state) (entries : list FoodItem.t) (r : reply) (v : jsval)
    (e : FoodItem.t) :
  isLoading s = false ->
  trim (foodName s) <> [] ->
  food_items (foodItems s) = Some entries ->
  reply_payload r = Ok v ->
  FoodItem.of_value v = Some e ->
  let s' :=
    run s [ClickAdd; NutritionReply (List.length (nutritionFetches s)) r] in
  foodItems s' = foodItems s ++ [v]
  /\ food_items (foodItems s') = Some (entries ++ [e])
  /\ shown_totals s' = Some (totals (entries ++ [e]))
  /\ foodName s' = []
  /\ error s' = []
  /\ isLoading s' = false
  /\ suggestions s' = []
  /\ showSuggestions s' = false
  /\ debounceTimer s' = Some (debounce_delay, [])
  /\ nutritionFetches s' = nutritionFetches s
  /\ unit s' = unit s /\ quantity s' = quantity s.
Proof.
  intros Hl Hn Hs Hr Hv. cbv zeta. rewrite (click_then_reply s r Hl Hn).
  pose proof (food_items_app _ _ _ _ Hs Hv) as Hf.
  unfold shown_totals.
  unfold handleAddFood_settle. rewrite Hr.
  unfold setFoodName. cbn.
  destruct (foodName s) as [|c q] eqn:Q; [now destruct Hn|].
  cbn. rewrite Hf. repeat split.
Qed.

(** The banana of the provider, one piece: it becomes the only entry of the
    ledger, and the calories total is 105. *)
Lemma add_food_success_witness :
  let s := run (setFoodName (js "Banana") initial_state)
             [ChangeQuantity (js "1"); ChangeUnit (js "piece"); ClickAdd;
              NutritionReply 0 banana_reply] in
  foodItems s = [FoodItem.to_value banana]
  /\ foodName s = [] /\ error s = [] /\ isLoading s = false
  /\ option_map Totals.calories (shown_totals s)
     = Some (decimal_to_double false 105 0).
Proof.
  cbv zeta.
  destruct (add_food_success
              (run (setFoodName (js "Banana") initial_state)
                 [ChangeQuantity (js "1"); ChangeUnit (js "piece")])
              [] banana_reply (FoodItem.to_value banana) banana)
    as (H1 & _ & _ & H2 & H3 & H4 & _);
    [reflexivity | vm_compute; discriminate | reflexivity
    | vm_compute; reflexivity | reflexivity |].
  refine (conj H1 (conj H2 (conj H3 (conj H4 _)))).
  vm_compute. reflexivity.
Defined.

(** X2. The item of a lookup goes after the ledger as it was at the click:
    an import that succeeds while the lookup is under way is in the ledger
    until the reply comes, and gone after it. *)
Theorem import_during_lookup_is_lost
    (s : state) (content : jsstring) (items : list jsval) (r : reply)
    (v : jsval) :
  isLoading s = false ->
  trim (foodName s) <> [] ->
  JSON_parse content = Ok (JArr items) ->
  first_invalid items = None ->
  reply_payload r = Ok v ->
  let s1 := run s [ClickAdd; ImportFile (Some content)] in
  let s2 := step s1 (NutritionReply (List.length (nutritionFetches s)) r) in
  foodItems s1 = items /\ foodItems s2 = foodItems s ++ [v].
Proof.
  intros Hl Hn Hp Hv Hr. cbv zeta.
  assert (E1 : run s [ClickAdd; ImportFile (Some content)]
               = setFoodItems items (handleAddFood s)).
  { change (run s [ClickAdd; ImportFile (Some content)])
      with (importDiet_onload content (step s ClickAdd)).
    rewrite importDiet_onload_cases, Hp, Hv. cbn [step]. now rewrite Hl. }
  rewrite E1. split; [reflexivity|].
  rewrite (step_nutrition_reply _ _ (call_of s)).
  - now rewrite (settle_success_ledger _ _ v).
  - change (nutritionFetches (setFoodItems items (handleAddFood s)))
      with (nutritionFetches (handleAddFood s)).
    rewrite (handleAddFood_pending s Hn). apply nth_error_last.
Qed.

(** A pinch of salt is in the ledger; Add is clicked for a banana, a file
    is imported, the banana comes. *)
Lemma import_during_lookup_is_lost_witness :
  let s := setFoodItems [FoodItem.to_value pinch]
             (setFoodName (js "Banana") initial_state) in
  foodItems (run s [ClickAdd; ImportFile (Some odd_file)])
  = [FoodItem.to_value odd_item]
  /\ foodItems
       (run s [ClickAdd; ImportFile (Some odd_file);
               NutritionReply 0 banana_reply])
     = [FoodItem.to_value pinch; FoodItem.to_value banana].
Proof.
  cbv zeta.
  apply (import_during_lookup_is_lost
           (setFoodItems [FoodItem.to_value pinch]
              (setFoodName (js "Banana") initial_state))
           odd_file [FoodItem.to_value odd_item] banana_reply
           (FoodItem.to_value banana)).
  - reflexivity.
  - vm_compute. discriminate.
  - vm_compute. reflexivity.
  - reflexivity.
  - vm_compute. reflexivity.
Defined.






(** ** Export, then import: every ledger of items *)

Lemma serialize_json_of_number (gap indent : jsstring) (x : number) :
  serialize gap indent (json_of_number x) = serialize gap indent (JNum x).
Proof. destruct x as [s | [|] | | s m e]; reflexivity. Qed.

Lemma serialize_exported (gap indent : jsstring) (e : FoodItem.t) :
  serialize gap indent (exported e)
  = serialize gap indent (FoodItem.to_value e).
Proof.
  unfold exported, FoodItem.to_value. cbn [serialize List.map fst snd].
  now rewrite !serialize_json_of_number.
Qed.

Lemma canonical_json_of_number (x : number) :
  wf_number x -> canonical (json_of_number x).
Proof.
  destruct x as [s | s | | s m e]; cbn; trivial.
  - intros _. repeat split. discriminate.
  - intros H. repeat split; [exact H|discriminate].
Qed.

Lemma canonical_exported (e : FoodItem.t) :
  wf_item e -> canonical (exported e).
Proof.
  intros (H1 & H2 & H3 & H4 & H5). apply canonical_obj. split.
  - reflexivity.
  - repeat (apply Forall_cons || apply Forall_nil); cbn [snd];
      try (now apply canonical_json_of_number). exact I.
Qed.

Lemma item_valid_exported (e : FoodItem.t) :
  item_valid (exported e) = Ok (item_finite e).
Proof.
  rewrite item_valid_spec. destruct e as [n c p cb f w].
  unfold item_finite. cbn [FoodItem.calories FoodItem.protein FoodItem.carbs
    FoodItem.fat FoodItem.weight].
  destruct c; try reflexivity; destruct p; try reflexivity;
    destruct cb; try reflexivity; destruct f; try reflexivity;
    destruct w; reflexivity.
Qed.

Lemma first_invalid_exported (entries : list FoodItem.t) :
  match first_invalid (List.map exported entries) with
  | None => forallb item_finite entries = true
  | Some v => forallb item_finite entries = false /\ v <> JNull
  end.
Proof.
  induction entries as [|e r IH]; [reflexivity|].
  cbn [List.map first_invalid forallb]. rewrite item_valid_exported.
  destruct (item_finite e); [exact IH|]. split; [reflexivity|discriminate].
Qed.

(** X4. For every ledger of items, the text that export writes is JSON for
    the array of the items, each number that is not finite replaced by
    [null] and each negative zero by zero. Importing that text never fails
    as a parse failure: it succeeds when all the numbers are finite, and
    sets "Invalid diet plan format" when one of them is not. *)
Theorem export_then_import (entries : list FoodItem.t) (s s' : state) :
  Forall wf_item entries ->
  foodItems s = List.map FoodItem.to_value entries ->
  JSON_parse (exportDiet s) = Ok (JArr (List.map exported entries))
  /\ importDiet_onload (exportDiet s) s'
     = if forallb item_finite entries
       then setFoodItems (List.map exported entries) s'
       else setError invalid_format_message s'.
Proof.
  intros Hw Hs.
  assert (P : JSON_parse (exportDiet s)
              = Ok (JArr (List.map exported entries))).
  { unfold exportDiet. rewrite Hs.
    replace (JSON_stringify (JArr (List.map FoodItem.to_value entries)) 2)
      with (JSON_stringify (JArr (List.map exported entries)) 2).
    - apply JSON_parse_stringify. apply canonical_arr.
      apply Forall_forall. intros v Hv.
      apply in_map_iff in Hv as (e & <- & Hin). apply canonical_exported.
      now apply (proj1 (Forall_forall _ _) Hw).
    - unfold JSON_stringify. cbn [serialize]. f_equal.
      rewrite !map_map. apply map_ext. intros e. apply serialize_exported. }
  split; [exact P|].
  rewrite importDiet_onload_cases, P.
  pose proof (first_invalid_exported entries) as F.
  destruct (first_invalid (List.map exported entries)) as [v|].
  - destruct F as [-> Hv]. now destruct v.
  - now rewrite F.
Qed.

(** A ledger with a negative zero comes back with a zero in its place; one
    with an infinite number does not come back. *)
Lemma export_then_import_witness :
  let s := setFoodItems (List.map FoodItem.to_value [banana; spill])
             initial_state in
  let t := setFoodItems (List.map FoodItem.to_value [banana; feast])
             initial_state in
  foodItems (importDiet_onload (exportDiet s) initial_state)
  = [FoodItem.to_value banana;
     FoodItem.to_value
       {| FoodItem.name := js "Spill"; FoodItem.calories := num_zero;
          FoodItem.protein := num_zero; FoodItem.carbs := num_zero;
          FoodItem.fat := num_zero; FoodItem.weight := num_zero |}]
  /\ importDiet_onload (exportDiet t) initial_state
     = setError invalid_format_message initial_state.
Proof.
  cbv zeta. split.
  - destruct (export_then_import [banana; spill]
                (setFoodItems (List.map FoodItem.to_value [banana; spill])
                   initial_state) initial_state) as [_ H].
    + repeat (apply Forall_cons || apply Forall_nil);
        refine (conj _ (conj _ (conj _ (conj _ _)))); vm_compute; reflexivity.
    + reflexivity.
    + rewrite H. reflexivity.
  - destruct (export_then_import [banana; feast]
                (setFoodItems (List.map FoodItem.to_value [banana; feast])
                   initial_state) initial_state) as [_ H].
    + repeat (apply Forall_cons || apply Forall_nil);
        refine (conj _ (conj _ (conj _ (conj _ _)))); vm_compute; reflexivity.
    + reflexivity.
    + rewrite H. reflexivity.
Defined.

(** ** Import: white space around the text *)

Lemma json_ws_cases (c : N) :
  is_json_ws c = true -> (c = 9 \/ c = 10 \/ c = 13 \/ c = 32)%N.
Proof.
  unfold is_json_ws. intros H.
  repeat (apply orb_true_iff in H as [H|H]); apply N.eqb_eq in H; auto.
Qed.

Lemma blank_cons (c : N) (w : jsstring) :
  blank (c :: w) -> is_json_ws c = true /\ blank w.
Proof. unfold blank. cbn. intros H. now apply andb_true_iff in H. Qed.

Lemma take_digits_blank (s w : jsstring) :
  blank w ->
  take_digits (s ++ w) = (fst (take_digits s), snd (take_digits s) ++ w).
Proof.
  intros Hw. induction s as [|c r IH]; cbn [app take_digits].
  - destruct w as [|c w]; [reflexivity|].
    apply blank_cons in Hw as [Hc _]. cbn [take_digits].
    replace (is_digit c) with false; [reflexivity|].
    apply json_ws_cases in Hc as [->|[->|[->| ->]]]; reflexivity.
  - destruct (is_digit c); [|reflexivity].
    rewrite IH. now destruct (take_digits r).
Qed.

Lemma lex_string_blank (w : jsstring) : blank w -> lex_string w = None.
Proof.
  induction w as [|c w IH]; intros H; [reflexivity|].
  apply blank_cons in H as [Hc Hw]. specialize (IH Hw).
  apply json_ws_cases in Hc as [->|[->|[->| ->]]]; cbn; try reflexivity.
  now rewrite IH.
Qed.

Lemma hex_value_ws (c : N) : is_json_ws c = true -> hex_value c = None.
Proof.
  intros H. apply json_ws_cases in H as [->|[->|[->| ->]]]; reflexivity.
Qed.

Lemma lex_string_app (w : jsstring) :
  blank w ->
  forall n u, (List.length u <= n)%nat ->
  lex_string (u ++ w) = with_rest w (lex_string u).
Proof.
  intros Hw. induction n as [|n IH]; intros u Hn.
  - destruct u; [|cbn in Hn; lia]. cbn [app with_rest lex_string].
    now apply lex_string_blank.
  - destruct u as [|c r]; [now apply lex_string_blank|].
    cbn [List.length] in Hn. cbn [app lex_string].
    destruct (N.eqb c 34); [reflexivity|].
    destruct (N.eqb c 92).
    + destruct r as [|e r1].
      * cbn [app with_rest]. destruct w as [|e w']; [reflexivity|].
        apply blank_cons in Hw as [He _].
        apply json_ws_cases in He as [->|[->|[->| ->]]]; reflexivity.
      * cbn [app List.length] in *.
        assert (S1 : forall x,
          match lex_string (r1 ++ w) with
          | Some (t, r') => Some (x :: t, r')
          | None => None
          end
          = with_rest w
              match lex_string r1 with
              | Some (t, r') => Some (x :: t, r')
              | None => None
              end).
        { intros x. rewrite (IH r1) by lia.
          now destruct (lex_string r1) as [[t r']|]. }
        repeat match goal with
               | |- context [if N.eqb e ?k then _ else _] =>
                   destruct (N.eqb e k); [apply S1|]
               end.
        destruct (N.eqb e 117); [|reflexivity].
        destruct r1 as [|h1 [|h2 [|h3 [|h4 r2]]]]; cbn [app with_rest].
        -- destruct w as [|a w1]; [reflexivity|].
           apply blank_cons in Hw as [Ha Hw1].
           destruct w1 as [|b [|c' [|d w4]]]; try reflexivity.
           now rewrite (hex_value_ws a Ha).
        -- destruct w as [|a [|b [|c' w3]]]; try reflexivity.
           apply blank_cons in Hw as [Ha _].
           destruct (hex_value h1); [|reflexivity].
           now rewrite (hex_value_ws a Ha).
        -- destruct w as [|a [|b w2]]; try reflexivity.
           apply blank_cons in Hw as [Ha _].
           destruct (hex_value h1); [|reflexivity].
           destruct (hex_value h2); [|reflexivity].
           now rewrite (hex_value_ws a Ha).
        -- destruct w as [|a w1]; try reflexivity.
           apply blank_cons in Hw as [Ha _].
           destruct (hex_value h1); [|reflexivity].
           destruct (hex_value h2); [|reflexivity].
           destruct (hex_value h3); [|reflexivity].
           now rewrite (hex_value_ws a Ha).
        -- destruct (hex_value h1); [|reflexivity].
           destruct (hex_value h2); [|reflexivity].
           destruct (hex_value h3); [|reflexivity].
           destruct (hex_value h4); [|reflexivity].
           cbn [List.length] in Hn. rewrite (IH r2) by lia.
           now destruct (lex_string r2) as [[t r']|].
    + destruct (c <? 32)%N; [reflexivity|].
      rewrite (IH r) by lia. now destruct (lex_string r) as [[t r']|].
Qed.

Lemma ws_head (c : N) :
  is_json_ws c = true ->
  is_digit c = false /\ is_exp_char c = false
  /\ N.eqb c ch_dot = false /\ N.eqb c ch_plus = false
  /\ N.eqb c ch_minus = false.
Proof.
  intros H. apply json_ws_cases in H as [->|[->|[->| ->]]]; repeat split.
Qed.

Lemma signed_digits_app (s w : jsstring) :
  blank w ->
  signed_digits (s ++ w) = with_rest w (signed_digits s).
Proof.
  intros Hw. unfold signed_digits.
  destruct s as [|c r].
  - cbn [app]. destruct w as [|c w']; [reflexivity|].
    pose proof Hw as Hw'. apply blank_cons in Hw' as [Hc _].
    destruct (ws_head c Hc) as (Hd & _ & _ & -> & ->).
    cbn [take_digits]. now rewrite Hd.
  - cbn [app].
    destruct (N.eqb c ch_plus); [|destruct (N.eqb c ch_minus)].
    + rewrite (take_digits_blank r w Hw).
      destruct (take_digits r) as [[|d ds] r']; reflexivity.
    + rewrite (take_digits_blank r w Hw).
      destruct (take_digits r) as [[|d ds] r']; reflexivity.
    + change (c :: r ++ w) with ((c :: r) ++ w).
      rewrite (take_digits_blank (c :: r) w Hw).
      destruct (take_digits (c :: r)) as [[|d ds] r']; reflexivity.
Qed.

Lemma lex_fraction_app (s w : jsstring) :
  blank w -> lex_fraction (s ++ w) = with_rest w (lex_fraction s).
Proof.
  intros Hw. destruct s as [|c r]; cbn [app lex_fraction].
  - destruct w as [|c w']; [reflexivity|].
    pose proof Hw as Hw'. apply blank_cons in Hw' as [Hc _].
    destruct (ws_head c Hc) as (_ & _ & E & _).
    cbn [lex_fraction with_rest app]. now rewrite E.
  - destruct (N.eqb c ch_dot); [|reflexivity].
    rewrite (take_digits_blank r w Hw).
    destruct (take_digits r) as [[|d ds] r']; reflexivity.
Qed.

Lemma lex_exponent_app (s w : jsstring) :
  blank w -> lex_exponent (s ++ w) = with_rest w (lex_exponent s).
Proof.
  intros Hw. destruct s as [|c r]; cbn [app lex_exponent].
  - destruct w as [|c w']; [reflexivity|].
    pose proof Hw as Hw'. apply blank_cons in Hw' as [Hc _].
    destruct (ws_head c Hc) as (_ & E & _).
    cbn [lex_exponent with_rest app]. now rewrite E.
  - destruct (is_exp_char c); [|reflexivity]. now apply signed_digits_app.
Qed.

Lemma lex_unsigned_app (neg : bool) (s w : jsstring) :
  blank w -> lex_unsigned neg (s ++ w) = with_rest w (lex_unsigned neg s).
Proof.
  intros Hw. unfold lex_unsigned. rewrite (take_digits_blank s w Hw).
  destruct (take_digits s) as [i r1]. cbn [fst snd].
  destruct i as [|d i]; [reflexivity|].
  assert (E :
    match lex_fraction (r1 ++ w) with
    | Some (f, r2) =>
        match lex_exponent r2 with
        | Some (ex, r3) => Some (decimal_value neg (d :: i) f ex, r3)
        | None => None
        end
    | None => None
    end
    = with_rest w
        match lex_fraction r1 with
        | Some (f, r2) =>
            match lex_exponent r2 with
            | Some (ex, r3) => Some (decimal_value neg (d :: i) f ex, r3)
            | None => None
            end
        | None => None
        end).
  { rewrite (lex_fraction_app r1 w Hw).
    destruct (lex_fraction r1) as [[f r2]|]; [|reflexivity]. cbn [with_rest].
    rewrite (lex_exponent_app r2 w Hw).
    now destruct (lex_exponent r2) as [[ex r3]|]. }
  destruct d as [|p]; [destruct i as [|d' i']; [exact E|reflexivity]|exact E].
Qed.

Lemma lex_number_app (c : N) (s w : jsstring) :
  blank w ->
  lex_number ((c :: s) ++ w) = with_rest w (lex_number (c :: s)).
Proof.
  intros Hw. cbn [app lex_number].
  destruct (N.eqb c ch_minus); [now apply lex_unsigned_app|].
  exact (lex_unsigned_app false (c :: s) w Hw).
Qed.

Lemma strip_prefix_blank (p s w : jsstring) :
  forallb (fun c => negb (is_json_ws c)) p = true ->
  blank w ->
  strip_prefix p (s ++ w)
  = match strip_prefix p s with
    | Some r => Some (r ++ w)
    | None => None
    end.
Proof.
  intros Hp Hw. revert s; induction p as [|x p IH]; intros s;
    [reflexivity|].
  cbn in Hp. apply andb_true_iff in Hp as [Hx Hp].
  destruct s as [|y s]; cbn [app strip_prefix].
  - destruct w as [|c w']; [reflexivity|].
    apply blank_cons in Hw as [Hc _]. cbn [strip_prefix].
    destruct (N.eqb_spec x c) as [->|_]; [|reflexivity].
    rewrite Hc in Hx. discriminate.
  - destruct (N.eqb x y); [now apply IH|reflexivity].
Qed.

Lemma skip_ws_app (s w : jsstring) :
  blank w ->
  skip_ws (s ++ w)
  = match skip_ws s with
    | [] => []
    | u => u ++ w
    end.
Proof.
  intros Hw. induction s as [|c r IH]; cbn [app skip_ws].
  - rewrite <- (app_nil_r w). rewrite (skip_ws_blank w [] Hw). reflexivity.
  - destruct (is_json_ws c); [exact IH|reflexivity].
Qed.

Lemma next_token_app (s w : jsstring) :
  blank w -> next_token (s ++ w) = lexed_with w (next_token s).
Proof.
  intros Hw. unfold next_token. rewrite (skip_ws_app s w Hw).
  destruct (skip_ws s) as [|c u]; [reflexivity|]. cbn [app].
  repeat match goal with
         | |- context [if N.eqb c ?k then LexTok _ _ else _] =>
             destruct (N.eqb c k); [reflexivity|]
         end.
  destruct (N.eqb c 34).
  { rewrite (lex_string_app w Hw (List.length u) u (le_n _)).
    now destruct (lex_string u) as [[t r]|]. }
  destruct (N.eqb c ch_minus || is_digit c).
  { change (c :: u ++ w) with ((c :: u) ++ w).
    rewrite (lex_number_app c u w Hw).
    now destruct (lex_number (c :: u)) as [[x r]|]. }
  change (c :: u ++ w) with ((c :: u) ++ w).
  rewrite !strip_prefix_blank by (reflexivity || exact Hw).
  destruct (strip_prefix (js "true") (c :: u)); [reflexivity|].
  destruct (strip_prefix (js "false") (c :: u)); [reflexivity|].
  destruct (strip_prefix (js "null") (c :: u)); reflexivity.
Qed.

Lemma tokenize_app_blank (w : jsstring) :
  blank w ->
  forall n s, (List.length s <= n)%nat -> tokenize (s ++ w) = tokenize s.
Proof.
  intros Hw. induction n as [|n IH]; intros s Hn.
  - destruct s; [|cbn in Hn; lia]. cbn [app].
    rewrite <- (app_nil_r w). now rewrite tokenize_blank.
  - rewrite (tokenize_eq (s ++ w)), (tokenize_eq s).
    rewrite (next_token_app s w Hw).
    destruct (next_token s) as [| |t r] eqn:E; try reflexivity.
    cbn [lexed_with]. apply next_token_shorter in E.
    rewrite (IH r) by lia. reflexivity.
Qed.

(** [JSON.parse] does not see the white space around its text. *)
Lemma JSON_parse_blank (w1 w2 text : jsstring) :
  blank w1 -> blank w2 ->
  JSON_parse (w1 ++ text ++ w2) = JSON_parse text.
Proof.
  intros H1 H2. unfold JSON_parse.
  change (lex (S (List.length (w1 ++ text ++ w2))) (w1 ++ text ++ w2))
    with (tokenize (w1 ++ text ++ w2)).
  change (lex (S (List.length text)) text) with (tokenize text).
  rewrite (tokenize_blank w1 _ H1).
  now rewrite (tokenize_app_blank w2 H2 (List.length text) text (le_n _)).
Qed.

(** X22. White space around the text of a file does not matter to the
    import: with tabs, line feeds, carriage returns and spaces before and
    after it, a text is imported, or refused, exactly as without them. *)
Theorem import_ignores_surrounding_space
    (w1 w2 content : jsstring) (s : state) :
  blank w1 -> blank w2 ->
  importDiet_onload (w1 ++ content ++ w2) s = importDiet_onload content s.
Proof.
  intros H1 H2. unfold importDiet_onload.
  now rewrite (JSON_parse_blank w1 w2 content H1 H2).
Qed.

(** Two spaces before the file and a line feed after it; a no-break space is
    no white space of JSON. *)
Lemma import_ignores_surrounding_space_witness :
  importDiet_onload (js "  " ++ odd_file ++ [10%N]) initial_state
  = setFoodItems [FoodItem.to_value odd_item] initial_state
  /\ importDiet_onload ([160%N] ++ odd_file) initial_state
     = setError import_failed_message initial_state.
Proof.
  split.
  - rewrite (import_ignores_surrounding_space (js "  ") [10%N] odd_file);
      reflexivity.
  - vm_compute. reflexivity.
Defined.

(** ** Import: twice, and what else touches the ledger *)

(** X5. Importing the same text a second time changes nothing: the state
    after the two imports is the state after the first. *)
Theorem importDiet_idempotent (content : jsstring) (s : state) :
  importDiet_onload content (importDiet_onload content s)
  = importDiet_onload content s.
Proof.
  rewrite !importDiet_onload_cases.
  destruct (JSON_parse content) as [[| | | | items |]|]; try reflexivity.
  destruct (first_invalid items) as [[]|]; reflexivity.
Qed.

(** X6. The ledger changes in two ways only. An event leaves it as it is,
    or it is an import of a text that is an array of valid items, which
    replaces the ledger by that array, or it is the reply to a lookup under
    way whose text is JSON, which makes the ledger the one of the click
    followed by the value of the reply. No event removes or edits an
    entry. *)
Theorem ledger_changes (s : state) (e : event) :
  foodItems (step s e) = foodItems s
  \/ (exists content items,
        e = ImportFile (Some content)
        /\ JSON_parse content = Ok (JArr items)
        /\ first_invalid items = None
        /\ foodItems (step s e) = items)
  \/ (exists i r c v,
        e = NutritionReply i r
        /\ nth_error (nutritionFetches s) i = Some c
        /\ reply_payload r = Ok v
        /\ foodItems (step s e) = call_foodItems c ++ [v]).
Proof.
  destruct e; cbn [step].
  - left. apply setFoodName_frame.
  - now left.
  - now left.
  - now left.
  - left. destruct (isLoading s); [reflexivity|]. unfold handleAddFood.
    now destruct (trim (foodName s)).
  - left. destruct (showSuggestions s); [|reflexivity].
    destruct (nth_error (suggestions s) i) as [[[]]|]; try reflexivity.
    apply handleSelectSuggestion_frame.
  - destruct file as [content|]; [|now left]. cbn [importDiet].
    rewrite importDiet_onload_cases.
    destruct (JSON_parse content) as [[| | | | items |]|] eqn:P;
      try (now left).
    destruct (first_invalid items) as [[]|] eqn:F; try (now left).
    right. left. exists content, items. auto.
  - left. destruct (debounceTimer s) as [[delay name]|]; [|reflexivity].
    destruct (delay <=? dt)%N; [|reflexivity].
    now destruct (debounce_fire_frame name (with_debounceTimer None s))
      as (-> & _).
  - left. destruct (nth_error (suggestionFetches s) i); [|reflexivity].
    match goal with
    | |- foodItems (fetchSuggestions_settle ?r ?t) = _ =>
        now destruct (fetchSuggestions_settle_frame r t) as (-> & _)
    end.
  - destruct (nth_error (nutritionFetches s) i) as [c|] eqn:N; [|now left].
    unfold handleAddFood_settle. destruct (reply_payload r) as [v|x] eqn:R;
      [|now left].
    right. right. exists i, r, c, v.
    refine (conj eq_refl (conj N (conj R _))).
    cbn. match goal with
         | |- foodItems (setFoodName ?a ?t) = _ =>
             now destruct (setFoodName_frame a t) as (-> & _)
         end.
Qed.

(** ** The error message *)

Lemma step_known_message (s : state) (e : event) :
  In (error s) known_messages -> In (error (step s e)) known_messages.
Proof.
  intros H. destruct e; cbn [step].
  - destruct (setFoodName_frame text s) as (_ & _ & -> & _). exact H.
  - exact H.
  - exact H.
  - exact H.
  - destruct (isLoading s); [exact H|]. unfold handleAddFood.
    destruct (trim (foodName s)); cbn; auto.
  - destruct (showSuggestions s); [|exact H].
    destruct (nth_error (suggestions s) i) as [[[]]|]; try exact H.
    destruct (handleSelectSuggestion_frame s0 s) as (_ & _ & -> & _). exact H.
  - destruct (importDiet_frame file s) as (_ & _ & [-> | [-> | ->]]);
      [exact H | cbn; auto | cbn; auto 6].
  - destruct (debounceTimer s) as [[delay name]|]; [|exact H].
    destruct (delay <=? dt)%N; [|exact H].
    destruct (debounce_fire_frame name (with_debounceTimer None s))
      as (_ & _ & -> & _). exact H.
  - destruct (nth_error (suggestionFetches s) i); [|exact H].
    match goal with
    | |- In (error (fetchSuggestions_settle ?r ?t)) _ =>
        destruct (fetchSuggestions_settle_frame r t) as (_ & _ & -> & _)
    end. exact H.
  - destruct (nth_error (nutritionFetches s) i) as [c|]; [|exact H].
    unfold handleAddFood_settle. destruct (reply_payload r).
    + cbn [error setShowSuggestions setSuggestions].
      match goal with
      | |- In (error (setFoodName ?a ?t)) _ =>
          destruct (setFoodName_frame a t) as (_ & _ & -> & _)
      end. exact H.
    + cbn. auto.
Qed.

(** X7. Whatever happens to the component, the error message is empty or
    one of its four fixed texts; nothing that comes from a file or from the
    provider is ever shown as the error. *)
Theorem error_is_a_known_message (es : list event) :
  In (error (run initial_state es)) known_messages.
Proof.
  apply (run_invariant (fun s => In (error s) known_messages)).
  - exact step_known_message.
  - now left.
Qed.

(** ** Replies: the envelope and the code fence *)

(** X8. A response whose body is a JSON object with no [candidates], or
    with an empty array of them, makes the fetcher throw a [TypeError]: it
    is a failed lookup. *)
Theorem reply_without_candidate (body : jsstring)
    (props : list (jsstring * jsval)) :
  JSON_parse body = Ok (JObj props) ->
  lookup (js "candidates") props = None
  \/ lookup (js "candidates") props = Some (JArr []) ->
  reply_payload (FetchBody body) = Throw TypeError.
Proof.
  intros Hp H. unfold reply_payload. rewrite Hp. cbn [bind get].
  destruct H as [-> | ->]; reflexivity.
Qed.

(** The body of an error of the service, and a body with no candidate. *)
Lemma reply_without_candidate_witness :
  reply_payload
    (FetchBody (jsq "{'error':{'code':429,'status':'RESOURCE_EXHAUSTED'}}"))
  = Throw TypeError
  /\ reply_payload (FetchBody (jsq "{'candidates':[]}")) = Throw TypeError.
Proof.
  split.
  - eapply reply_without_candidate; [vm_compute; reflexivity|].
    left. reflexivity.
  - eapply reply_without_candidate; [vm_compute; reflexivity|].
    right. reflexivity.
Defined.

Lemma no_backtick_trim_start (t : jsstring) :
  no_backtick t -> no_backtick (trim_start t).
Proof.
  unfold no_backtick. induction t as [|c r IH]; cbn; [trivial|].
  destruct (is_js_space c); [|trivial].
  intros H. apply andb_true_iff in H as [_ H]. now apply IH.
Qed.

Lemma strip_fences_plain (fuel : nat) (t : jsstring) :
  no_backtick t -> strip_fences fuel t = t.
Proof.
  unfold no_backtick. revert t; induction fuel as [|f IH]; intros t H;
    [reflexivity|].
  destruct t as [|c r]; [reflexivity|]. cbn in H.
  apply andb_true_iff in H as [Hc Hr]. apply negb_true_iff in Hc.
  rewrite N.eqb_sym in Hc. cbn [strip_fences].
  change (js "```json") with [96; 96; 96; 106; 115; 111; 110]%N.
  change (js "```") with [96; 96; 96]%N.
  cbn [strip_prefix]. rewrite Hc. now rewrite IH.
Qed.

Lemma strip_fences_closing (fuel : nat) (t : jsstring) :
  no_backtick t -> (List.length t < fuel)%nat ->
  strip_fences fuel (t ++ js "```") = t.
Proof.
  unfold no_backtick. revert t; induction fuel as [|f IH]; intros t H Hf;
    [lia|].
  destruct t as [|c r].
  - cbn. now destruct f.
  - cbn in H. apply andb_true_iff in H as [Hc Hr]. apply negb_true_iff in Hc.
    rewrite N.eqb_sym in Hc. cbn [app strip_fences].
    change (js "```json") with [96; 96; 96; 106; 115; 111; 110]%N.
    change (js "```") with [96; 96; 96]%N at 2.
    cbn [strip_prefix]. rewrite Hc.
    rewrite IH; [reflexivity|exact Hr|]. cbn in Hf. lia.
Qed.

Lemma strip_fences_json (fuel : nat) (r : jsstring) :
  strip_fences (S fuel) (js "```json" ++ r) = strip_fences fuel (trim_start r).
Proof. reflexivity. Qed.

Lemma strip_prefix_app (p a b : jsstring) :
  strip_prefix (p ++ a) (p ++ b) = strip_prefix a b.
Proof.
  induction p as [|x p IH]; cbn [app strip_prefix]; [reflexivity|].
  now rewrite N.eqb_refl.
Qed.

Lemma strip_fences_bare (fuel : nat) (r : jsstring) :
  strip_prefix (js "json") r = None ->
  strip_fences (S fuel) (js "```" ++ r) = strip_fences fuel r.
Proof.
  intros H. cbn [strip_fences].
  change (js "```json") with (js "```" ++ js "json").
  rewrite strip_prefix_app, H.
  rewrite <- (app_nil_r (js "```")) at 1.
  now rewrite strip_prefix_app.
Qed.

Lemma strip_prefix_json_fence (t : jsstring) :
  strip_prefix (js "json") t = None ->
  strip_prefix (js "json") (t ++ js "```") = None.
Proof.
  change (js "json") with [106; 115; 111; 110]%N.
  change (js "```") with [96; 96; 96]%N.
  destruct t as [|a [|b [|c [|d r]]]]; cbn [app strip_prefix].
  - reflexivity.
  - destruct (N.eqb 106 a); reflexivity.
  - destruct (N.eqb 106 a); [|reflexivity].
    destruct (N.eqb 115 b); reflexivity.
  - destruct (N.eqb 106 a); [|reflexivity].
    destruct (N.eqb 115 b); [|reflexivity].
    destruct (N.eqb 111 c); reflexivity.
  - destruct (N.eqb 106 a); [|reflexivity].
    destruct (N.eqb 115 b); [|reflexivity].
    destruct (N.eqb 111 c); [|reflexivity].
    destruct (N.eqb 110 d); [discriminate|reflexivity].
Qed.

(** X9. The text of a reply is read the same with and without a code
    fence around it. For a text [t] with no backtick: the replacement leaves
    [t] as it is; around [t], an opening fence with [json] and white space,
    and a closing fence, are dropped; so are bare fences, when [t] does not
    begin with [json]. In each case what goes to [JSON.parse] is [t]
    trimmed. *)
Theorem fence_is_ignored (t ws : jsstring) :
  no_backtick t ->
  all_space ws = true ->
  trim (replace_fences t) = trim t
  /\ trim (replace_fences (js "```json" ++ ws ++ t ++ js "```")) = trim t
  /\ (strip_prefix (js "json") t = None ->
      trim (replace_fences (js "```" ++ t ++ js "```")) = trim t).
Proof.
  intros Ht Hws. split; [|split].
  - unfold replace_fences. now rewrite strip_fences_plain.
  - unfold replace_fences. rewrite strip_fences_json.
    rewrite trim_start_spaces by exact Hws.
    rewrite trim_start_app by (reflexivity || discriminate).
    rewrite strip_fences_closing.
    + apply trim_trim_start.
    + now apply no_backtick_trim_start.
    + rewrite !length_app. change (List.length (js "```")) with 3%nat.
      pose proof (trim_start_length t). lia.
  - intros Hj. unfold replace_fences. rewrite strip_fences_bare.
    + rewrite strip_fences_closing; [reflexivity|exact Ht|].
      rewrite !length_app. change (List.length (js "```")) with 3%nat. lia.
    + now apply strip_prefix_json_fence.
Qed.

(** The array of two names, on a line of its own inside either fence. *)
Lemma fence_is_ignored_witness :
  let t := jsq "['Apple','Apricot']" ++ [10%N] in
  trim (replace_fences (js "```json" ++ [10%N] ++ t ++ js "```"))
  = jsq "['Apple','Apricot']"
  /\ trim (replace_fences (js "```" ++ t ++ js "```"))
     = jsq "['Apple','Apricot']".
Proof.
  cbv zeta.
  destruct (fence_is_ignored (jsq "['Apple','Apricot']" ++ [10%N]) [10%N])
    as (_ & H2 & H3); [reflexivity | reflexivity |].
  split; [rewrite H2; reflexivity | rewrite H3; reflexivity].
Defined.

(** ** Requests *)

Lemma canonical_request (text : jsstring) (t m : number) :
  json_number t -> json_number m -> canonical (generate_request text t m).
Proof.
  intros Ht Hm.
  assert (N32 : json_number (num_lit 32))
    by (apply json_number_decimal; vm_compute; reflexivity).
  assert (N1 : json_number (num_lit 1))
    by (apply json_number_decimal; vm_compute; reflexivity).
  cbn. repeat split; trivial; try apply Ht; try apply Hm; try apply N32;
    try apply N1.
Qed.

(** X10. Whatever the query, and whatever name, quantity and unit, the body
    of the request that is sent is JSON text: it reads back as the object
    that holds the prompt, with the typed text inside it unchanged, and the
    generation settings of the fetcher. *)
Theorem requests_are_json (query : jsstring) (c : add_call) :
  JSON_parse (suggestions_request query)
  = Ok (generate_request (suggestions_prompt query)
          (decimal_to_double false 4 (-1)) (num_lit 100))
  /\ JSON_parse (nutrition_request c)
     = Ok (generate_request
             (nutrition_prompt (call_foodName c) (call_quantity c)
                (call_unit c))
             (decimal_to_double false 2 (-1)) (num_lit 150)).
Proof.
  split; apply JSON_parse_stringify; apply canonical_request;
    apply json_number_decimal; vm_compute; reflexivity.
Qed.

(** ** Suggestions *)

(** X11. A suggestion lookup that fails does so silently. When the fetch
    rejects, the body or the text is no JSON, or the text is JSON but no
    array, the reply empties the suggestions, so that no list is shown, and
    it leaves the error message, the flag of the list, the name, the ledger
    and the loading flag as they were. *)
Theorem suggestions_failure_is_silent
    (s : state) (i : nat) (q : jsstring) (r : reply) :
  nth_error (suggestionFetches s) i = Some q ->
  (forall names, reply_payload r <> Ok (JArr names)) ->
  let s' := step s (SuggestionsReply i r) in
  suggestions s' = []
  /\ dropdown_visible s' = false
  /\ error s' = error s
  /\ showSuggestions s' = showSuggestions s
  /\ foodName s' = foodName s
  /\ foodItems s' = foodItems s
  /\ isLoading s' = isLoading s.
Proof.
  intros Hq Hr. cbn [step]. rewrite Hq.
  unfold fetchSuggestions_settle, suggestions_of_reply.
  destruct (reply_payload r) as [[| | | | names |]|]; cbn;
    try (unfold dropdown_visible; cbn; rewrite andb_false_r; repeat split).
  now destruct (Hr names).
Qed.

(** A fetch that rejects, a body that is no JSON, a text that is prose, and
    a text that is an object. *)
Lemma suggestions_failure_is_silent_witness :
  let s := run initial_state [ChangeFoodName (js "a"); Elapse 300] in
  Forall
    (fun r =>
       suggestions (step s (SuggestionsReply 0 r)) = []
       /\ error (step s (SuggestionsReply 0 r)) = [])
    [FetchFailed; reply_not_json; reply_prose; banana_reply].
Proof.
  cbv zeta.
  assert (H : forall r, (forall names, reply_payload r <> Ok (JArr names)) ->
    let s := run initial_state [ChangeFoodName (js "a"); Elapse 300] in
    suggestions (step s (SuggestionsReply 0 r)) = []
    /\ error (step s (SuggestionsReply 0 r)) = []).
  { intros r Hr.
    destruct (suggestions_failure_is_silent
                (run initial_state [ChangeFoodName (js "a"); Elapse 300])
                0 (js "a") r) as (H1 & _ & H3 & _);
      [reflexivity | exact Hr |].
    cbv zeta. split; [exact H1|]. rewrite H3. reflexivity. }
  apply Forall_cons; [apply H; intros n; discriminate|].
  apply Forall_cons; [apply H; intros n; vm_compute; discriminate|].
  apply Forall_cons; [apply H; intros n; vm_compute; discriminate|].
  apply Forall_cons; [apply H; intros n; vm_compute; discriminate|].
  apply Forall_nil.
Defined.

(** ** Blank names and queries *)

(** X12. Both guards on a blank text let through exactly the texts that
    have a character which is not white space: [handleAddFood] starts no
    lookup if and only if the name consists of white space only (the empty
    name included), and likewise [fetchSuggestions] for its query. *)
Theorem lookup_needs_a_visible_character (s : state) (q : jsstring) :
  (nutritionFetches (handleAddFood s) = nutritionFetches s
   <-> all_space (foodName s) = true)
  /\ (suggestionFetches (fetchSuggestions q s) = suggestionFetches s
      <-> all_space q = true).
Proof.
  assert (L : forall (A : Type) (l : list A) (x : A), l ++ [x] <> l).
  { intros A l x H. apply (f_equal (@List.length A)) in H.
    rewrite length_app in H. cbn in H. lia. }
  split.
  - rewrite <- trim_nil. unfold handleAddFood.
    destruct (trim (foodName s)) eqn:E; cbn.
    + tauto.
    + split; [intros H; now apply L in H|discriminate].
  - rewrite <- trim_nil. unfold fetchSuggestions.
    destruct (trim q) eqn:E; cbn.
    + tauto.
    + split; [intros H; now apply L in H|discriminate].
Qed.

Lemma pending_nonblank_frame (s t : state) :
  suggestionFetches t = suggestionFetches s ->
  nutritionFetches t = nutritionFetches s ->
  pending_nonblank s -> pending_nonblank t.
Proof. unfold pending_nonblank. intros -> ->. auto. Qed.

Lemma fetchSuggestions_pending (q : jsstring) (s : state) :
  pending_nonblank s -> pending_nonblank (fetchSuggestions q s).
Proof.
  intros [H1 H2]. unfold fetchSuggestions.
  destruct (trim q) eqn:T; [now split|]. split; [|exact H2].
  cbn. apply Forall_app. split; [exact H1|].
  constructor; [congruence|constructor].
Qed.

Lemma step_pending_nonblank (s : state) (e : event) :
  pending_nonblank s -> pending_nonblank (step s e).
Proof.
  intros H. destruct e; cbn [step].
  - destruct (setFoodName_pending text s). now apply (pending_nonblank_frame s).
  - exact H.
  - exact H.
  - exact H.
  - destruct (isLoading s); [exact H|]. unfold handleAddFood.
    destruct (trim (foodName s)) eqn:T; [exact H|].
    destruct H as [H1 H2]. split; [exact H1|]. cbn.
    apply Forall_app. split; [exact H2|].
    constructor; [cbn [call_foodName]; rewrite T; discriminate|constructor].
  - destruct (showSuggestions s); [|exact H].
    destruct (nth_error (suggestions s) i) as [[[]]|]; try exact H.
    unfold handleSelectSuggestion.
    destruct (setFoodName_pending s0 s).
    now apply (pending_nonblank_frame s).
  - destruct file as [content|]; [|exact H]. cbn [importDiet].
    rewrite importDiet_onload_cases.
    destruct (JSON_parse content) as [[| | | | items |]|]; try exact H.
    destruct (first_invalid items) as [[]|]; exact H.
  - destruct (debounceTimer s) as [[delay name]|]; [|exact H].
    destruct (delay <=? dt)%N; [|exact H].
    destruct name as [|c q]; [exact H|]. cbn [debounce_fire].
    now apply fetchSuggestions_pending.
  - destruct (nth_error (suggestionFetches s) i); [|exact H].
    destruct H as [H1 H2]. unfold fetchSuggestions_settle.
    destruct (suggestions_of_reply r); (split; [|exact H2]); cbn;
      now apply Forall_remove_nth.
  - destruct (nth_error (nutritionFetches s) i) as [c|]; [|exact H].
    destruct H as [H1 H2]. unfold handleAddFood_settle.
    destruct (reply_payload r).
    + apply (pending_nonblank_frame
               (with_nutritionFetches (remove_nth i (nutritionFetches s)) s)).
      * cbn. match goal with
             | |- suggestionFetches (setFoodName ?a ?t) = _ =>
                 destruct (setFoodName_pending a t) as [E _]
             end. exact E.
      * cbn. match goal with
             | |- nutritionFetches (setFoodName ?a ?t) = _ =>
                 destruct (setFoodName_pending a t) as [_ E]
             end. exact E.
      * split; [exact H1|]. cbn. now apply Forall_remove_nth.
    + split; [exact H1|]. cbn. now apply Forall_remove_nth.
Qed.

(** X13. No request is ever made for a blank text: at every point of every
    execution, each suggestion lookup under way is for a query, and each
    nutrition lookup under way for a name, that has a character which is not
    white space. *)
Theorem no_blank_lookup (es : list event) :
  let s := run initial_state es in
  Forall (fun q => all_space q = false) (suggestionFetches s)
  /\ Forall (fun c => all_space (call_foodName c) = false)
       (nutritionFetches s).
Proof.
  cbv zeta.
  assert (H : pending_nonblank (run initial_state es)).
  { apply run_invariant; [exact step_pending_nonblank|]. split; constructor. }
  destruct H as [H1 H2]. split.
  - eapply Forall_impl; [|exact H1]. cbv beta. intros q Hq.
    destruct (all_space q) eqn:E; [|reflexivity].
    apply trim_nil in E. contradiction.
  - eapply Forall_impl; [|exact H2]. cbv beta. intros c Hc.
    destruct (all_space (call_foodName c)) eqn:E; [|reflexivity].
    apply trim_nil in E. contradiction.
Qed.

(** ** The debounce timeout *)

Lemma setFoodName_timer (v : jsstring) (s : state) :
  timer_current s -> timer_current (setFoodName v s).
Proof.
  intros H. unfold setFoodName. destruct (str_eqb v (foodName s)); [exact H|].
  intros d q. cbn. intros [= <- <-]. split; [reflexivity|].
  unfold debounce_delay. lia.
Qed.

Lemma timer_current_frame (s t : state) :
  foodName t = foodName s ->
  debounceTimer t = debounceTimer s ->
  timer_current s -> timer_current t.
Proof. unfold timer_current. intros -> ->. auto. Qed.

Lemma timer_current_none (s : state) :
  debounceTimer s = None -> timer_current s.
Proof. intros H d q. rewrite H. discriminate. Qed.

Lemma debounce_fire_name (q : jsstring) (s : state) :
  foodName (debounce_fire q s) = foodName s
  /\ debounceTimer (debounce_fire q s) = debounceTimer s.
Proof.
  destruct q as [|c q]; [now cbn|]. cbn [debounce_fire].
  unfold fetchSuggestions. now destruct (trim (c :: q)).
Qed.

Lemma step_timer_current (s : state) (e : event) :
  timer_current s -> timer_current (step s e).
Proof.
  intros H. destruct e; cbn [step].
  - now apply setFoodName_timer.
  - exact H.
  - exact H.
  - exact H.
  - destruct (isLoading s); [exact H|]. unfold handleAddFood.
    destruct (trim (foodName s)); exact H.
  - destruct (showSuggestions s); [|exact H].
    destruct (nth_error (suggestions s) i) as [[[]]|]; try exact H.
    unfold handleSelectSuggestion.
    apply (timer_current_frame (setFoodName s0 s)); try reflexivity.
    now apply setFoodName_timer.
  - destruct file as [content|]; [|exact H]. cbn [importDiet].
    rewrite importDiet_onload_cases.
    destruct (JSON_parse content) as [[| | | | items |]|]; try exact H.
    destruct (first_invalid items) as [[]|]; exact H.
  - destruct (debounceTimer s) as [[delay name]|] eqn:T; [|exact H].
    destruct (N.leb_spec delay dt) as [Hle|Hlt].
    + apply timer_current_none.
      now rewrite (proj2 (debounce_fire_name name _)).
    + intros d q. cbn. intros [= <- <-].
      destruct (H delay name T) as [-> Hd]. split; [reflexivity|lia].
  - destruct (nth_error (suggestionFetches s) i); [|exact H].
    unfold fetchSuggestions_settle.
    destruct (suggestions_of_reply r); exact H.
  - destruct (nth_error (nutritionFetches s) i) as [c|]; [|exact H].
    unfold handleAddFood_settle. destruct (reply_payload r); [|exact H].
    match goal with
    | |- timer_current
           (setShowSuggestions _ (setSuggestions _ (setFoodName ?a ?t))) =>
        apply (timer_current_frame (setFoodName a t)); try reflexivity;
        apply setFoodName_timer
    end.
    exact H.
Qed.

(** X14. At every point of every execution, an event does one of three
    things to the suggestion lookups under way: it leaves them as they are,
    or it settles one of them, or it is the passing of time that lets the
    debounce timeout expire and starts one lookup, for the text the name
    field holds at that moment. Nothing but the timeout starts a lookup, and
    never for a text that has been replaced. *)
Theorem lookup_is_for_current_text (es : list event) (e : event) :
  let s := run initial_state es in
  suggestionFetches (step s e) = suggestionFetches s
  \/ (exists i,
        suggestionFetches (step s e) = remove_nth i (suggestionFetches s))
  \/ (exists dt,
        e = Elapse dt
        /\ suggestionFetches (step s e) = suggestionFetches s ++ [foodName s]).
Proof.
  cbv zeta.
  assert (H : timer_current (run initial_state es)).
  { apply run_invariant; [exact step_timer_current|].
    intros d q. cbn. intros [= <- <-]. split; [reflexivity|].
    unfold debounce_delay. lia. }
  set (s := run initial_state es) in *. destruct e; cbn [step].
  - left. apply setFoodName_pending.
  - now left.
  - now left.
  - now left.
  - left. destruct (isLoading s); [reflexivity|]. unfold handleAddFood.
    now destruct (trim (foodName s)).
  - left. destruct (showSuggestions s); [|reflexivity].
    destruct (nth_error (suggestions s) i) as [[[]]|]; try reflexivity.
    unfold handleSelectSuggestion. cbn. apply setFoodName_pending.
  - left. destruct file as [content|]; [|reflexivity]. cbn [importDiet].
    rewrite importDiet_onload_cases.
    destruct (JSON_parse content) as [[| | | | items |]|]; try reflexivity.
    now destruct (first_invalid items) as [[]|].
  - destruct (debounceTimer s) as [[delay name]|] eqn:T; [|now left].
    destruct (delay <=? dt)%N; [|now left].
    destruct (H delay name T) as [-> _].
    destruct (foodName s) as [|c q] eqn:Q; [now left|].
    cbn [debounce_fire]. unfold fetchSuggestions.
    destruct (trim (c :: q)); [now left|].
    right. right. exists dt. split; reflexivity.
  - destruct (nth_error (suggestionFetches s) i); [|now left].
    right. left. exists i. unfold fetchSuggestions_settle.
    now destruct (suggestions_of_reply r).
  - left. destruct (nth_error (nutritionFetches s) i) as [c|]; [|reflexivity].
    unfold handleAddFood_settle. destruct (reply_payload r); [|reflexivity].
    cbn. match goal with
         | |- suggestionFetches (setFoodName ?a ?t) = _ =>
             destruct (setFoodName_pending a t) as [E _]
         end. exact E.
Qed.

(** X15. However many times the text changes, as long as each change comes
    less than 300 time units after the one before and each text differs from
    the one before, no lookup is started for any text but the last; for the
    last one a lookup is started once 300 time units have passed, unless it
    is blank. *)
Theorem debounce_burst
    (changes : list (jsstring * N)) (q : jsstring) (T : N) (s : state) :
  Forall (fun c => (snd c < debounce_delay)%N) changes ->
  each_differs (foodName s) (List.map fst changes ++ [q]) ->
  suggestionFetches (run s (typing changes ++ [ChangeFoodName q; Elapse T]))
  = suggestionFetches s
      ++ (if (debounce_delay <=? T)%N then lookup_for q else []).
Proof.
  revert s; induction changes as [|[q1 dt] r IH]; intros s Hd Hn.
  - destruct Hn as [Hq _]. cbn [typing app run fold_left].
    destruct (change_facts s q Hq) as (_ & T1 & F1).
    set (s1 := step s (ChangeFoodName q)) in *.
    destruct (N.leb_spec debounce_delay T) as [Hle|Hlt].
    + rewrite (elapse_fire s1 T _ _ T1 Hle). now rewrite F1.
    + destruct (elapse_short s1 T _ _ T1 Hlt) as (_ & _ & F2).
      rewrite F2, F1. now rewrite app_nil_r.
  - inversion Hd as [|? ? Hdt Hd']; subst. destruct Hn as [Hq Hn].
    cbn [fst snd] in *. cbn [typing app run fold_left].
    destruct (change_facts s q1 Hq) as (N1 & T1 & F1).
    set (s1 := step s (ChangeFoodName q1)) in *.
    destruct (elapse_short s1 dt _ _ T1 Hdt) as (N2 & _ & F2).
    set (s2 := step s1 (Elapse dt)) in *.
    change (fold_left step (typing r ++ [ChangeFoodName q; Elapse T]) s2)
      with (run s2 (typing r ++ [ChangeFoodName q; Elapse T])).
    rewrite (IH s2 Hd'); [congruence|].
    now rewrite N2, N1.
Qed.

(** "b", "ba", "ban", back to "ba", then "bana", and then a pause. *)
Lemma debounce_burst_witness :
  suggestionFetches
    (run initial_state
       (typing [(js "b", 120%N); (js "ba", 80%N); (js "ban", 299%N);
                (js "ba", 10%N)]
        ++ [ChangeFoodName (js "bana"); Elapse 300]))
  = [js "bana"].
Proof.
  apply (debounce_burst
           [(js "b", 120%N); (js "ba", 80%N); (js "ban", 299%N);
            (js "ba", 10%N)] (js "bana") 300 initial_state).
  - repeat (apply Forall_cons || apply Forall_nil); reflexivity.
  - cbn. repeat split; discriminate.
Defined.

(** X16. A new text that is blank starts no lookup when its timeout
    expires: the suggestions are emptied, and no list is shown. The flag of
    the list is reset only when the text is empty; for a text of white space
    it stays as it was. *)
Theorem blank_query_starts_no_lookup (s : state) (q : jsstring) (T : N) :
  q <> foodName s ->
  all_space q = true ->
  (debounce_delay <= T)%N ->
  let s' := run s [ChangeFoodName q; Elapse T] in
  suggestionFetches s' = suggestionFetches s
  /\ suggestions s' = []
  /\ dropdown_visible s' = false
  /\ showSuggestions s'
     = match q with [] => false | _ => showSuggestions s end
  /\ debounceTimer s' = None.
Proof.
  intros Hq Hb HT. cbn [run fold_left].
  destruct (change_facts s q Hq) as (N1 & T1 & F1).
  assert (S1 : showSuggestions (step s (ChangeFoodName q)) = showSuggestions s).
  { cbn [step]. apply setFoodName_shown. }
  set (s1 := step s (ChangeFoodName q)) in *.
  cbn [step]. rewrite T1.
  destruct (N.leb_spec debounce_delay T) as [_|Hlt]; [|lia].
  apply trim_nil in Hb.
  destruct q as [|c q]; cbn [debounce_fire].
  - cbn. repeat split. exact F1.
  - unfold fetchSuggestions. rewrite Hb. unfold dropdown_visible. cbn.
    rewrite andb_false_r. repeat split; assumption.
Qed.

(** The suggestions for "a" are shown; the name is emptied, or replaced by
    two spaces. *)
Lemma blank_query_starts_no_lookup_witness :
  let s := run initial_state
             [ChangeFoodName (js "a"); Elapse 300;
              SuggestionsReply 0 reply_for_a] in
  (dropdown_visible s = true
   /\ showSuggestions (run s [ChangeFoodName []; Elapse 300]) = false
   /\ suggestions (run s [ChangeFoodName []; Elapse 300]) = [])
  /\ showSuggestions (run s [ChangeFoodName (js "  "); Elapse 300]) = true
  /\ suggestions (run s [ChangeFoodName (js "  "); Elapse 300]) = [].
Proof.
  cbv zeta.
  set (s := run initial_state
              [ChangeFoodName (js "a"); Elapse 300;
               SuggestionsReply 0 reply_for_a]).
  destruct (blank_query_starts_no_lookup s [] 300) as (_ & H2 & _ & H4 & _);
    [vm_compute; discriminate | reflexivity | vm_compute; discriminate |].
  destruct (blank_query_starts_no_lookup s (js "  ") 300)
    as (_ & K2 & _ & K4 & _);
    [vm_compute; discriminate | reflexivity | vm_compute; discriminate |].
  refine (conj (conj eq_refl (conj H4 H2)) (conj _ K2)).
  rewrite K4. reflexivity.
Defined.

(** X17. A suggestion that is shown and whose name is a string other than
    the current text is chosen: the name goes into the field, the
    suggestions are emptied and the flag of the list is cleared, and no
    lookup is started by the click. The text having changed, the debounce
    timeout is set anew, and the chosen name is then treated like a name
    that was typed: 300 time units later a lookup is started for it when it
    has a character that is not white space, and none when it is blank. *)
Theorem chosen_name_is_debounced
    (s : state) (i : nat) (name : jsstring) (T : N) :
  showSuggestions s = true ->
  nth_error (suggestions s) i = Some (FoodSuggestion.Build_t (JStr name)) ->
  name <> foodName s ->
  (debounce_delay <= T)%N ->
  let s1 := step s (ClickSuggestion i) in
  let s2 := step s1 (Elapse T) in
  foodName s1 = name
  /\ suggestions s1 = []
  /\ showSuggestions s1 = false
  /\ debounceTimer s1 = Some (debounce_delay, name)
  /\ suggestionFetches s1 = suggestionFetches s
  /\ suggestionFetches s2
     = suggestionFetches s ++ (if all_space name then [] else [name]).
Proof.
  intros Hs Hi Hn HT. cbv zeta.
  assert (E : step s (ClickSuggestion i)
              = setShowSuggestions false
                  (setSuggestions [] (step s (ChangeFoodName name)))).
  { cbn [step]. now rewrite Hs, Hi. }
  destruct (change_facts s name Hn) as (N1 & T1 & F1).
  rewrite E.
  refine (conj N1 (conj eq_refl (conj eq_refl (conj T1 (conj F1 _))))).
  rewrite (elapse_fire _ T debounce_delay name); [|exact T1|exact HT].
  cbn [suggestionFetches setShowSuggestions setSuggestions].
  rewrite F1. f_equal.
  destruct name as [|c q]; [reflexivity|].
  destruct (all_space (c :: q)) eqn:A.
  - apply trim_nil in A. now rewrite A.
  - destruct (trim (c :: q)) eqn:B; [|reflexivity].
    apply trim_nil in B. congruence.
Qed.

(** The reply to the lookup for "a" carries "Almond" and one space. When
    "Almond" is chosen a lookup for it follows; when the space is chosen
    none does. *)
Lemma chosen_name_is_debounced_witness :
  let s := run initial_state
             [ChangeFoodName (js "a"); Elapse 300;
              SuggestionsReply 0 reply_with_blank] in
  (foodName (step s (ClickSuggestion 0)) = js "Almond"
   /\ suggestionFetches (run s [ClickSuggestion 0; Elapse 300])
      = [js "Almond"])
  /\ (foodName (step s (ClickSuggestion 1)) = js " "
      /\ suggestionFetches (run s [ClickSuggestion 1; Elapse 300]) = []).
Proof.
  cbv zeta.
  destruct (chosen_name_is_debounced
              (run initial_state
                 [ChangeFoodName (js "a"); Elapse 300;
                  SuggestionsReply 0 reply_with_blank])
              0 (js "Almond") 300) as (H1 & _ & _ & _ & _ & H6);
    [reflexivity | reflexivity | vm_compute; discriminate
    | vm_compute; discriminate |].
  destruct (chosen_name_is_debounced
              (run initial_state
                 [ChangeFoodName (js "a"); Elapse 300;
                  SuggestionsReply 0 reply_with_blank])
              1 (js " ") 300) as (K1 & _ & _ & _ & _ & K6);
    [reflexivity | reflexivity | vm_compute; discriminate
    | vm_compute; discriminate |].
  exact (conj (conj H1 H6) (conj K1 K6)).
Defined.

(** ** The list of suggestions *)

Lemma step_hidden_is_empty (s : state) (e : event) :
  hidden_is_empty s -> hidden_is_empty (step s e).
Proof.
  unfold hidden_is_empty. intros H. destruct e; cbn [step].
  - destruct (setFoodName_shown text s) as [-> ->]. exact H.
  - discriminate.
  - exact H.
  - exact H.
  - destruct (isLoading s); [exact H|]. unfold handleAddFood.
    destruct (trim (foodName s)); exact H.
  - destruct (showSuggestions s) eqn:E; [|now rewrite E].
    destruct (nth_error (suggestions s) i) as [[[]]|]; try (now rewrite E).
    reflexivity.
  - destruct file as [content|]; [|exact H]. cbn [importDiet].
    rewrite importDiet_onload_cases.
    destruct (JSON_parse content) as [[| | | | items |]|]; try exact H.
    destruct (first_invalid items) as [[]|]; exact H.
  - destruct (debounceTimer s) as [[delay name]|]; [|exact H].
    destruct (delay <=? dt)%N; [|exact H].
    destruct name as [|c q]; [reflexivity|]. cbn [debounce_fire].
    unfold fetchSuggestions. destruct (trim (c :: q)); [reflexivity|exact H].
  - destruct (nth_error (suggestionFetches s) i); [|exact H].
    unfold fetchSuggestions_settle.
    destruct (suggestions_of_reply r); [discriminate|reflexivity].
  - destruct (nth_error (nutritionFetches s) i) as [c|]; [|exact H].
    unfold handleAddFood_settle. destruct (reply_payload r); [reflexivity|].
    exact H.
Qed.

(** X18. At every point of every execution, when the flag
    [showSuggestions] is clear the suggestions are empty: whatever clears
    the flag empties them too. So giving the focus to the name field, which
    sets the flag and nothing else, leaves the condition
    [showSuggestions && suggestions.length > 0], under which the list is
    rendered, at the value it had: the focus opens no list. *)
Theorem focus_opens_nothing (es : list event) :
  let s := run initial_state es in
  (showSuggestions s = false -> suggestions s = [])
  /\ suggestions (step s FocusFoodName) = suggestions s
  /\ dropdown_visible (step s FocusFoodName) = dropdown_visible s.
Proof.
  cbv zeta.
  assert (H : hidden_is_empty (run initial_state es)).
  { apply run_invariant; [exact step_hidden_is_empty|]. now intros _. }
  set (s := run initial_state es) in *.
  refine (conj H (conj eq_refl _)). unfold dropdown_visible.
  cbn [step showSuggestions suggestions setShowSuggestions].
  destruct (showSuggestions s) eqn:E; [reflexivity|].
  now rewrite (H E).
Qed.

(** ** The totals: rounding to one decimal *)

Lemma digit_char_plain (d : N) :
  (d < 10)%N ->
  is_js_space (digit_char d) = false
  /\ N.eqb (digit_char d) ch_plus = false
  /\ N.eqb (digit_char d) ch_minus = false
  /\ N.eqb (digit_char d) 73 = false.
Proof.
  intros H. unfold digit_char, ch_plus, ch_minus.
  assert (E : is_js_space (48 + d) = false).
  { unfold is_js_space.
    repeat (apply orb_false_iff; split);
      first [ apply N.eqb_neq; lia
            | apply andb_false_iff; left; apply N.leb_gt; lia
            | apply andb_false_iff; right; apply N.leb_gt; lia ]. }
  repeat split; [exact E| | |]; apply N.eqb_neq; lia.
Qed.

(** A numeral that starts with a decimal digit followed by a digit or a
    point is no hexadecimal, octal or binary literal. *)
Lemma non_decimal_literal_decimal (d : N) (r : jsstring) :
  (d < 10)%N ->
  match r with
  | c :: _ => is_digit c = true \/ c = ch_dot
  | [] => True
  end ->
  non_decimal_literal (digit_char d :: r) = None.
Proof.
  intros Hd Hr. unfold digit_char.
  destruct (N.eq_dec d 0) as [->|Hz].
  - cbn. destruct r as [|c [|x r]]; try reflexivity.
    assert (E : forall k, (k < 46 \/ 57 < k)%N -> N.eqb c k = false).
    { intros k Hk. apply N.eqb_neq. destruct Hr as [H| ->].
      - unfold is_digit in H. apply andb_true_iff in H as [H1 H2].
        apply N.leb_le in H1, H2. lia.
      - unfold ch_dot. lia. }
    rewrite !E by lia. reflexivity.
  - assert (C : exists k, (48 + d = k)%N /\ (49 <= k <= 57)%N)
      by (exists (48 + d)%N; lia).
    destruct C as (k & -> & Hk).
    destruct k as [|p]; [lia|].
    do 6 (destruct p as [p|p|]; try reflexivity; try lia).
Qed.

Lemma last_digit_not_space (a : jsstring) (b : N) (f : list N) :
  is_digits f -> f <> [] ->
  starts_with is_js_space (rev (a ++ b :: digit_chars f)) = false.
Proof.
  intros Hf Hne.
  destruct (exists_last Hne) as (f' & x & ->).
  apply Forall_app in Hf as [_ Hx]. inversion Hx as [|? ? Hx' _]; subst.
  unfold digit_chars. rewrite map_app. cbn [List.map].
  change (a ++ b :: List.map digit_char f' ++ [digit_char x])
    with (a ++ (b :: List.map digit_char f') ++ [digit_char x]).
  rewrite !app_assoc, rev_app_distr. cbn [rev app starts_with].
  now destruct (digit_char_plain x Hx').
Qed.

(** Unary [+] on a numeral with a point: an optional minus, digits, a point
    and digits read as the decimal they write. *)
Lemma StringToNumber_point (s : bool) (d : N) (i f : list N) :
  is_digits (d :: i) -> is_digits f -> f <> [] ->
  StringToNumber
    ((if s then [ch_minus] else [])
       ++ digit_chars (d :: i) ++ ch_dot :: digit_chars f)
  = decimal_value s (d :: i) f 0.
Proof.
  intros Hi Hf Hne. inversion Hi as [|? ? Hd Hi']; subst.
  destruct (digit_char_plain d Hd) as (S1 & S2 & S3 & S4).
  assert (M : decimal_mantissa (digit_chars (d :: i) ++ ch_dot :: digit_chars f)
              = Some (d :: i, f, [])).
  { unfold decimal_mantissa.
    rewrite (take_digits_chars (d :: i) _ Hi) by reflexivity.
    change (ch_dot :: digit_chars f) with (46%N :: digit_chars f).
    cbv iota beta.
    rewrite <- (app_nil_r (digit_chars f)).
    rewrite (take_digits_chars f [] Hf) by reflexivity.
    now destruct f. }
  assert (I : str_eqb (digit_chars (d :: i) ++ ch_dot :: digit_chars f)
                (js "Infinity") = false).
  { cbn [digit_chars List.map app str_eqb js list_ascii_of_string].
    change (N_of_ascii "I") with 73%N. now rewrite S4. }
  assert (L : match digit_chars i ++ ch_dot :: digit_chars f with
              | c :: _ => is_digit c = true \/ c = ch_dot
              | [] => True
              end).
  { destruct i as [|x i]; cbn; [now right|]. left.
    inversion Hi' as [|? ? Hx _]; subst. now apply digit_char_digit. }
  unfold StringToNumber. destruct s.
  - cbn [app]. rewrite trim_id.
    + cbn [non_decimal_literal]. unfold ch_minus at 1.
      cbv iota beta.
      change (N.eqb ch_minus ch_plus) with false.
      change (N.eqb ch_minus ch_minus) with true. cbv iota beta.
      rewrite I, M. reflexivity.
    + reflexivity.
    + change (ch_minus :: digit_chars (d :: i) ++ ch_dot :: digit_chars f)
        with ((ch_minus :: digit_chars (d :: i)) ++ ch_dot :: digit_chars f).
      now apply last_digit_not_space.
  - cbn [app]. rewrite trim_id.
    + change (digit_chars (d :: i)) with (digit_char d :: digit_chars i) in *.
      cbn [app] in *.
      rewrite (non_decimal_literal_decimal d _ Hd L).
      rewrite S2, S3. cbv iota beta. rewrite I, M. reflexivity.
    + cbn [digit_chars List.map app starts_with]. exact S1.
    + now apply last_digit_not_space.
Qed.

(** What [toFixed(1)] prints for a finite number below [10 ^ 21]: the
    digits of its tenths, the last of them after the point. *)
Lemma toFixed1_finite (s : bool) (m : positive) (e : Z) :
  let p := Zpos m * 2 ^ Z.max 0 e in
  let q := 2 ^ Z.max 0 (- e) in
  p < 10 ^ 21 * q ->
  exists d i f,
    toFixed 1 (S754_finite s m e)
    = (if s then [ch_minus] else [])
        ++ digit_chars (d :: i) ++ ch_dot :: digit_chars [f]
    /\ is_digits (d :: i) /\ (f < 10)%N
    /\ Z.of_N (digits_value ((d :: i) ++ [f])) = tenths p q.
Proof.
  intros p q H. unfold toFixed. fold p q.
  destruct (Z.leb_spec (10 ^ 21 * q) p) as [Hle|_]; [lia|].
  change (10 ^ Z.of_nat 1) with 10. fold (tenths p q).
  set (D := digits_of (Z.to_N (tenths p q))).
  set (M := zeros (2 - List.length D) ++ D).
  assert (HM : is_digits M).
  { apply Forall_app. split; [apply is_digits_zeros|apply digits_of_digits]. }
  assert (HL : (2 <= List.length M)%nat).
  { unfold M. rewrite length_app, zeros_length. lia. }
  assert (HV : digits_value M = Z.to_N (tenths p q)).
  { unfold M. rewrite digits_value_leading_zeros. apply digits_of_value. }
  assert (Hn : 0 <= tenths p q).
  { unfold tenths. apply Z.div_pos; unfold p, q.
    - assert (0 < 2 ^ Z.max 0 e) by (apply Z.pow_pos_nonneg; lia).
      assert (0 < 2 ^ Z.max 0 (- e)) by (apply Z.pow_pos_nonneg; lia). nia.
    - assert (0 < 2 ^ Z.max 0 (- e)) by (apply Z.pow_pos_nonneg; lia). lia. }
  pose proof (firstn_skipn (List.length M - 1) M) as E.
  assert (L1 : List.length (firstn (List.length M - 1) M)
               = (List.length M - 1)%nat) by (apply firstn_length_le; lia).
  assert (L2 : List.length (skipn (List.length M - 1) M) = 1%nat)
    by (rewrite length_skipn; lia).
  destruct (firstn (List.length M - 1) M) as [|d i] eqn:EI;
    [cbn [List.length] in L1; lia|].
  destruct (skipn (List.length M - 1) M) as [|f [|f' F]] eqn:EF;
    try (cbn [List.length] in L2; lia).
  exists d, i, f. rewrite <- E in HM. apply Forall_app in HM as [H1 H2].
  inversion H2; subst. refine (conj eq_refl (conj H1 (conj _ _))).
  - assumption.
  - rewrite E, HV. now apply Z2N.id.
Qed.

(** The rounding of a finite number below [10 ^ 21]. *)
Lemma round1_finite (s : bool) (m : positive) (e : Z) :
  let p := Zpos m * 2 ^ Z.max 0 e in
  let q := 2 ^ Z.max 0 (- e) in
  p < 10 ^ 21 * q ->
  round1 (S754_finite s m e) = decimal_to_double s (tenths p q) (-1).
Proof.
  intros p q H.
  destruct (toFixed1_finite s m e H) as (d & i & f & E & Hi & Hf & V).
  unfold round1. rewrite E.
  rewrite StringToNumber_point;
    [|exact Hi|constructor; [exact Hf|constructor]|discriminate].
  rewrite decimal_value_eq. fold p q in V. rewrite V. reflexivity.
Qed.

(** X19. What [+x.toFixed(1)], the rounding of the totals, makes of a
    number [x]. A zero of either sign becomes zero; [NaN] and the infinities
    stay; a finite [x] of magnitude [p / q] below [10 ^ 21] becomes the
    binary64 number nearest to [n / 10], with the sign of [x], where [n] is
    [10 * p / q] rounded to the nearest integer, a half going up (away from
    zero, on [x]). *)
Theorem round1_tenths :
  (forall s, round1 (S754_zero s) = S754_zero false)
  /\ round1 S754_nan = S754_nan
  /\ (forall s, round1 (S754_infinity s) = S754_infinity s)
  /\ (forall s m e,
        let p := Zpos m * 2 ^ Z.max 0 e in
        let q := 2 ^ Z.max 0 (- e) in
        p < 10 ^ 21 * q ->
        round1 (S754_finite s m e) = decimal_to_double s (tenths p q) (-1)).
Proof.
  split; [intros s; vm_compute; reflexivity|].
  split; [vm_compute; reflexivity|].
  split; [intros [|]; vm_compute; reflexivity|].
  exact round1_finite.
Qed.

(** The error of [round_half_even] is half a unit at most. *)
Lemma round_half_even_bound (num den : Z) :
  0 < den ->
  - den <= 2 * (round_half_even num den * den - num) <= den.
Proof.
  intros Hd. unfold round_half_even.
  pose proof (Z.div_mod num den ltac:(lia)) as E.
  pose proof (Z.mod_pos_bound num den Hd) as B.
  destruct (Z.compare_spec (2 * (num mod den)) den) as [C|C|C];
    [destruct (Z.even (num / den))| |]; nia.
Qed.

(** The error of [nearest_double], for a result with a negative exponent:
    half a unit of its last place at most. *)
Lemma nearest_double_error (s s' : bool) (p q : Z) (m : positive) (e : Z) :
  0 < p -> 0 < q ->
  nearest_double s p q = S754_finite s' m e ->
  e < 0 ->
  - q <= 2 * (Zpos m * q - p * 2 ^ (- e)) <= q.
Proof.
  intros Hp Hq H He. unfold nearest_double in H.
  destruct (Z.leb_spec p 0) as [?|_]; [lia|].
  set (e0 := Z.max (floor_log2_ratio p q - 52) (-1074)) in H.
  set (mr := round_half_even (p * 2 ^ Z.max 0 (- e0)) (q * 2 ^ Z.max 0 e0))
    in H.
  assert (B : e0 < 0 ->
              - q <= 2 * (mr * q - p * 2 ^ (- e0)) <= q).
  { intros H0. unfold mr. rewrite (Z.max_r 0 (- e0)), (Z.max_l 0 e0) by lia.
    rewrite Z.pow_0_r, Z.mul_1_r. apply round_half_even_bound. exact Hq. }
  destruct (Z.eqb_spec mr (2 ^ 53)) as [E|E].
  - change (2 ^ 52) with 4503599627370496 in H.
    destruct (e0 + 1 <=? 971); [|discriminate H].
    injection H as _ <- <-.
    assert (H0 : e0 < 0) by lia. specialize (B H0). rewrite E in B.
    replace (- e0) with (- (e0 + 1) + 1) in B by lia.
    rewrite Z.pow_add_r, Z.pow_1_r in B by lia.
    change (2 ^ 53) with (2 * 4503599627370496) in B. lia.
  - destruct mr as [|mp|mp]; try discriminate H.
    destruct (e0 <=? 971); [|discriminate H].
    injection H as _ <- <-. now apply B.
Qed.

Lemma nearest_double_positive (s : bool) (n q : Z) (m : positive) (e : Z) :
  nearest_double false n q = S754_finite s m e -> 0 < n.
Proof.
  intros H. unfold nearest_double in H.
  destruct (Z.leb_spec n 0); [discriminate H|assumption].
Qed.

(** The tenths of the number nearest to [n / 10] are [n], when that number
    has an exponent of [-4] at most (it is below [2 ^ 49]). *)
Lemma tenths_of_nearest (n : Z) (m : positive) (e : Z) :
  nearest_double false n 10 = S754_finite false m e ->
  e <= -4 ->
  tenths (Zpos m * 2 ^ Z.max 0 e) (2 ^ Z.max 0 (- e)) = n.
Proof.
  intros H He.
  pose proof (nearest_double_positive _ _ _ _ _ H) as Hn.
  pose proof (nearest_double_error false false n 10 m e Hn eq_refl H
                ltac:(lia)) as B.
  rewrite (Z.max_l 0 e), (Z.max_r 0 (- e)) by lia.
  rewrite Z.pow_0_r, Z.mul_1_r.
  assert (K : 16 <= 2 ^ (- e)).
  { change 16 with (2 ^ 4). apply Z.pow_le_mono_r; lia. }
  unfold tenths. symmetry. apply (Z.div_unique_pos _ _ n
    (2 * Zpos m * 10 + 2 ^ (- e) - 2 * 2 ^ (- e) * n)); nia.
Qed.

(** X20. The rounding of the totals is stable: when [+x.toFixed(1)] is a
    finite number other than zero whose exponent is [-4] at most (its
    magnitude is below [2 ^ 49]), rounding it again gives the same number,
    for every finite [x] of magnitude below [10 ^ 21]. *)
Theorem round1_stable (sx : bool) (mx : positive) (ex : Z)
    (s : bool) (m : positive) (e : Z) :
  let x := S754_finite sx mx ex in
  Zpos mx * 2 ^ Z.max 0 ex < 10 ^ 21 * 2 ^ Z.max 0 (- ex) ->
  round1 x = S754_finite s m e ->
  e <= -4 ->
  round1 (round1 x) = round1 x.
Proof.
  intros x Hx Hr He.
  pose proof (round1_finite sx mx ex Hx) as R. cbv zeta in R.
  fold x in R. rewrite Hr in R.
  set (n := tenths (Zpos mx * 2 ^ Z.max 0 ex) (2 ^ Z.max 0 (- ex))) in *.
  assert (N : nearest_double false n 10 = S754_finite false m e /\ s = sx).
  { symmetry in R. unfold decimal_to_double in R.
    change (10 ^ Z.max 0 (-1)) with 1 in R.
    change (10 ^ Z.max 0 (- -1)) with 10 in R.
    rewrite Z.mul_1_r in R. rewrite nearest_double_sign in R.
    pose proof (nearest_double_sign false n 10) as S0.
    destruct (nearest_double false n 10) as [| | |s0 m0 e0];
      try discriminate R.
    injection R as <- <- <-. split; [exact S0|reflexivity]. }
  destruct N as [N ->].
  pose proof (tenths_of_nearest n m e N He) as T.
  pose proof (nearest_double_positive _ _ _ _ _ N) as Hn.
  assert (B : Zpos m * 2 ^ Z.max 0 e < 10 ^ 21 * 2 ^ Z.max 0 (- e)).
  { pose proof (nearest_double_error false false n 10 m e Hn eq_refl N
                  ltac:(lia)) as E.
    rewrite (Z.max_l 0 e), (Z.max_r 0 (- e)) by lia.
    rewrite Z.pow_0_r, Z.mul_1_r.
    assert (K : 16 <= 2 ^ (- e)).
    { change 16 with (2 ^ 4). apply Z.pow_le_mono_r; lia. }
    assert (Hn2 : n <= 10 ^ 22).
    { unfold n, tenths.
      set (p := Zpos mx * 2 ^ Z.max 0 ex) in *.
      set (q := 2 ^ Z.max 0 (- ex)) in *.
      assert (0 < q) by (apply Z.pow_pos_nonneg; lia).
      apply Z.lt_succ_r. apply Z.div_lt_upper_bound; [lia|].
      change (10 ^ 22) with (10 * 10 ^ 21). nia. }
    destruct (Z.eq_dec n (10 ^ 22)) as [E22|E22].
    - exfalso. rewrite E22 in N. vm_compute in N. injection N as _ <-. lia.
    - change (10 ^ 22) with (10 * 10 ^ 21) in *. nia. }
  rewrite Hr at 1. rewrite (round1_finite sx m e B). cbv zeta. rewrite T.
  now rewrite Hr.
Qed.

(** A quarter of a gram rounds to 0.3, and 0.3 to itself; but -0.04 rounds
    to the negative zero, and that to zero. *)
Lemma round1_stable_witness :
  round1 (decimal_to_double false 25 (-2)) = decimal_to_double false 3 (-1)
  /\ round1 (round1 (S754_finite false 4503599627370496 (-54)))
     = round1 (S754_finite false 4503599627370496 (-54))
  /\ round1 (decimal_to_double true 4 (-2)) = S754_zero true
  /\ round1 (S754_zero true) = S754_zero false.
Proof.
  split; [vm_compute; reflexivity|]. split.
  - apply (round1_stable false 4503599627370496 (-54)
             false 5404319552844595 (-54)).
    + vm_compute. reflexivity.
    + vm_compute. reflexivity.
    + lia.
  - split; vm_compute; reflexivity.
Defined.

(** ** The legend of the chart *)

Lemma totals_zero_calories (items : list FoodItem.t) :
  Forall (fun i => exists s, FoodItem.calories i = S754_zero s) items ->
  Totals.calories (totals items) = num_zero.
Proof.
  intros H. unfold totals.
  destruct (totals_fold items totals_zero) as [E _]. cbv zeta in E.
  rewrite E. cbn [Totals.calories totals_zero]. clear E.
  induction H as [|i r [s Hi] _ IH]; [reflexivity|].
  cbn [List.map fold_left]. rewrite Hi.
  replace (num_add num_zero (S754_zero s)) with num_zero; [exact IH|].
  now destruct s.
Qed.

Lemma share_of_zero (total : number) (kcal : Z) :
  In (calorie_share total kcal num_zero) no_share.
Proof.
  unfold calorie_share.
  assert (E : num_lit 100 = S754_finite false 7036874417766400 (-46))
    by (vm_compute; reflexivity).
  rewrite E.
  destruct (num_mul total (num_lit kcal)) as [s | s | | s m e];
    cbn; auto; destruct s; cbn; auto.
Qed.

(** X21. The shares of the legend divide by the calories total with no
    guard. For a ledger that is not empty and whose entries all have zero
    calories, the legend is shown, and each of its three shares reads [NaN],
    [Infinity] or [-Infinity], never a percentage. *)
Theorem legend_of_no_calories (items : list FoodItem.t) :
  items <> [] ->
  Forall (fun i => exists s, FoodItem.calories i = S754_zero s) items ->
  exists p c f,
    macro_legend items
    = [legend_text "Protein" (Totals.protein (totals items)) p;
       legend_text "Carbs" (Totals.carbs (totals items)) c;
       legend_text "Fat" (Totals.fat (totals items)) f]
    /\ In p no_share /\ In c no_share /\ In f no_share.
Proof.
  intros Hne H. pose proof (totals_zero_calories items H) as Z.
  destruct items as [|x r]; [congruence|]. unfold macro_legend. cbv zeta.
  rewrite Z. do 3 eexists. split; [reflexivity|].
  repeat split; apply share_of_zero.
Qed.

(** A cup of black coffee. *)
Lemma legend_of_no_calories_witness :
  macro_legend [coffee]
  = [js "Protein: 0.3g (Infinity%)"; js "Carbs: 0g (NaN%)";
     js "Fat: 0g (NaN%)"]
  /\ exists p c f,
       macro_legend [coffee]
       = [legend_text "Protein" (Totals.protein (totals [coffee])) p;
          legend_text "Carbs" (Totals.carbs (totals [coffee])) c;
          legend_text "Fat" (Totals.fat (totals [coffee])) f]
       /\ In p no_share /\ In c no_share /\ In f no_share.
Proof.
  split; [vm_compute; reflexivity|].
  apply (legend_of_no_calories [coffee]); [discriminate|].
  constructor; [now exists false|constructor].
Defined.
